(** * ubuntu-archive-tools: the kernel-series model and the QA-tracker client

    A shallow embedding of [kernel_series.py] and of the status filters and
    mutating calls of [qatracker.py], with the properties of their
    specification stated and proved over it.

    Conventions of the embedding.
    - A parsed YAML document is a value of type [yaml]: null, booleans,
      integers, strings, lists and mappings (floats are left out).
      Mappings keep their insertion order, as Python dictionaries do, and
      are keyed by strings, as every mapping of a kernel-series document
      is; that a dictionary has no two items under one key is stated, where
      a property needs it, by [distinct_keys].
    - A Python exception is a value of type [exn]; code that can raise
      returns [res A].  The accessors are modelled on every value that the
      document can hold, so that a malformed document raises here the
      exception that it raises there.
    - The views are functions of the document as it was loaded.  The
      constructors of snaps and of routing entries write what they
      normalise back into the document; section "The constructors and the
      shared document" shows that a view built again from the data so
      written is the same.
    - [versions] calls itself along the references between sources and need
      not return: it takes a bound on the number of calls, and [None]
      stands for a chase that has not returned within the bound.
    - A call of the QA-tracker server is recorded in a trace, and the
      server is a function from the trace so far and the call to an answer
      or an exception.
    - Python [str.lower], [str(x)], [int(x)] and [datetime.strptime] are
      library primitives: the section of the QA-tracker client takes them
      as section variables.
    - The updates of results and rebuilds have a trace of their own; a
      method that changes its object returns the object as it leaves it,
      and an exception leaves the object as it was.
    - The look-ups of [isotracker.py] work on the products and milestones
      that its constructor fetched; the configuration file is a function
      from a section and an option to the value, if there is one. *)

From Stdlib Require Import ZArith String List Bool Lia Ascii Relations.
From stdpp Require Import base list strings gmap.
Import ListNotations.

Local Open Scope string_scope.
Local Open Scope Z_scope.
Local Open Scope list_scope.

Set Warnings "-register-all".

(** * The embedding *)

(** ** Python values and exceptions *)

Inductive yaml : Type :=
| YNull
| YBool (b : bool)
| YInt (z : Z)
| YStr (s : string)
| YList (l : list yaml)
| YMap (m : list (string * yaml)).

Abbreviation dict := (list (string * yaml)).

(** The exceptions raised by the modelled code.  [NonStringKey] is not a
    Python exception: it marks the one step (storing under a key that is a
    null, boolean or integer) that string-keyed mappings cannot express. *)
Inductive exn : Type :=
| ValueError
| TypeError
| KeyError
| IndexError
| AttributeError
| PyException
| NonStringKey.

Inductive res (A : Type) : Type :=
| Ok (a : A)
| Raise (e : exn).
Arguments Ok {A} a.
Arguments Raise {A} e.

#[global] Instance res_ret : MRet res := fun A a => Ok a.
#[global] Instance res_bind : MBind res := fun A B f m =>
  match m with
  | Ok a => f a
  | Raise e => Raise e
  end.

Definition is_ok {A} (r : res A) : bool :=
  match r with Ok _ => true | Raise _ => false end.

(** ** Dictionaries *)

Module Dict.

Fixpoint get {V} (k : string) (m : list (string * V)) : option V :=
  match m with
  | [] => None
  | (k', v) :: rest => if String.eqb k k' then Some v else get k rest
  end.

Definition mem {V} (k : string) (m : list (string * V)) : bool :=
  match get k m with Some _ => true | None => false end.

(** [m[k] = v]: an existing key keeps its position, a new one goes last. *)
Fixpoint set {V} (k : string) (v : V) (m : list (string * V))
  : list (string * V) :=
  match m with
  | [] => [(k, v)]
  | (k', v') :: rest =>
      if String.eqb k k' then (k', v) :: rest else (k', v') :: set k v rest
  end.

(** [del m[k]] *)
Fixpoint del {V} (k : string) (m : list (string * V)) : list (string * V) :=
  match m with
  | [] => []
  | (k', v') :: rest =>
      if String.eqb k k' then rest else (k', v') :: del k rest
  end.

(** [m.update(other)] *)
Definition update {V} (m other : list (string * V)) : list (string * V) :=
  fold_left (fun acc kv => set (fst kv) (snd kv) acc) other m.

Definition keys {V} (m : list (string * V)) : list string := map fst m.

End Dict.

(** Truth value of a Python object ([if x], [not x]). *)
Definition truthy (v : yaml) : bool :=
  match v with
  | YNull => false
  | YBool b => b
  | YInt z => negb (z =? 0)
  | YStr s => negb (String.eqb s "")
  | YList l => match l with [] => false | _ => true end
  | YMap m => match m with [] => false | _ => true end
  end.

(** [x is None], [x is True], [x is False] *)
Definition is_none (v : yaml) : bool :=
  match v with YNull => true | _ => false end.
Definition is_True (v : yaml) : bool :=
  match v with YBool true => true | _ => false end.
Definition is_False (v : yaml) : bool :=
  match v with YBool false => true | _ => false end.

Definition is_str_eq (k : string) (v : yaml) : bool :=
  match v with YStr s => String.eqb k s | _ => false end.

Definition substring_of (k s : string) : bool :=
  match String.index 0 k s with Some _ => true | None => false end.

(** [k in v] for a string [k]: key membership in a mapping, element
    membership in a list, substring test in a string, [TypeError] on the
    other scalars. *)
Definition py_contains (v : yaml) (k : string) : res bool :=
  match v with
  | YMap m => Ok (Dict.mem k m)
  | YList l => Ok (existsb (is_str_eq k) l)
  | YStr s => Ok (substring_of k s)
  | _ => Raise TypeError
  end.

(** [v[k]] for a string [k] *)
Definition py_getitem (v : yaml) (k : string) : res yaml :=
  match v with
  | YMap m => match Dict.get k m with Some x => Ok x | None => Raise KeyError end
  | _ => Raise TypeError
  end.

(** [v.get(k, default)] *)
Definition py_get (v : yaml) (k : string) (default : yaml) : res yaml :=
  match v with
  | YMap m => Ok (match Dict.get k m with Some x => x | None => default end)
  | _ => Raise AttributeError
  end.

(** [v[k] = x] for a string [k] *)
Definition py_setitem (v : yaml) (k : string) (x : yaml) : res yaml :=
  match v with
  | YMap m => Ok (YMap (Dict.set k x m))
  | _ => Raise TypeError
  end.

Definition chars (s : string) : list yaml :=
  map (fun c => YStr (String c EmptyString)) (list_ascii_of_string s).

(** [for x in v]: the elements visited. *)
Definition py_iter (v : yaml) : res (list yaml) :=
  match v with
  | YList l => Ok l
  | YMap m => Ok (map YStr (Dict.keys m))
  | YStr s => Ok (chars s)
  | _ => Raise TypeError
  end.

(** The object used as a key of a new dictionary entry. *)
Definition as_key (v : yaml) : res string :=
  match v with
  | YStr s => Ok s
  | YList _ | YMap _ => Raise TypeError
  | _ => Raise NonStringKey
  end.

(** [data if data else {}] *)
Definition or_empty (data : yaml) : yaml :=
  if truthy data then data else YMap [].

(** ** KernelSnapEntry *)

Module KernelSnapEntry.

Definition risks : list string := ["edge"; "beta"; "candidate"; "stable"].

(** The loop of [__init__] that fills [publish_to]. *)
Fixpoint publish_loop (data : yaml) (arches : list yaml) (publish_to : dict)
  : res dict :=
  match arches with
  | [] => Ok publish_to
  | arch :: rest =>
      track ← py_get data "track" (YStr "latest");
      k ← as_key arch;
      publish_loop data rest (Dict.set k (YList [track]) publish_to)
  end.

(** The loop of [__init__] over the risks, leaving at the first risk
    equal to [promote_to]. *)
Fixpoint expand (ladder : list string) (promote_to : string) : list string :=
  match ladder with
  | [] => []
  | risk :: rest =>
      risk :: (if String.eqb risk promote_to then [] else expand rest promote_to)
  end.

(** "Convert arches/track to publish-to form." *)
Definition convert_arches (d : yaml) : res yaml :=
  has_publish ← py_contains d "publish-to";
  if negb has_publish then
    has_arches ← py_contains d "arches";
    if (has_arches : bool) then
      arches ← py_getitem d "arches";
      items ← py_iter arches;
      publish_to ← publish_loop d items [];
      py_setitem d "publish-to" (YMap publish_to)
    else Ok d
  else Ok d.

(** "Convert stable to promote-to form." *)
Definition convert_stable (d : yaml) : res yaml :=
  has_promote ← py_contains d "promote-to";
  if negb has_promote then
    has_stable ← py_contains d "stable";
    if (has_stable : bool) then
      stable ← py_getitem d "stable";
      if is_True stable
      then py_setitem d "promote-to" (YStr "stable")
      else py_setitem d "promote-to" (YStr "candidate")
    else Ok d
  else Ok d.

(** "Assume no promote-to data to mean just to edge." *)
Definition expand_promote_to (d : yaml) : res yaml :=
  promote_to ← py_get d "promote-to" (YStr "edge");
  match promote_to with
  | YStr p => py_setitem d "promote-to" (YList (map YStr (expand risks p)))
  | _ => Ok d
  end.

(** "Ensure we have stable when promote-to is present." *)
Definition ensure_stable (d : yaml) : res yaml :=
  has_promote ← py_contains d "promote-to";
  if (has_promote : bool) then
    has_stable ← py_contains d "stable";
    if negb has_stable then
      pt ← py_getitem d "promote-to";
      b ← py_contains pt "stable";
      py_setitem d "stable" (YBool b)
    else Ok d
  else Ok d.

(** [__init__]: the value of [self._data] once the constructor returns. *)
Definition init (data : yaml) : res yaml :=
  d ← convert_arches (or_empty data);
  d ← convert_stable d;
  d ← expand_promote_to d;
  ensure_stable d.

(** The accessors [publish_to], [promote_to] and [stable] of a built
    entry whose [_data] is [d]. *)
Definition publish_to (d : yaml) : res yaml := py_get d "publish-to" YNull.
Definition promote_to (d : yaml) : res yaml := py_get d "promote-to" YNull.
Definition stable (d : yaml) : res yaml := py_get d "stable" (YBool false).

(** Notions used to state the properties of [__init__]. *)

(** [self._data.get('track', 'latest')] *)
Definition track_of (m : dict) : yaml :=
  match Dict.get "track" m with Some t => t | None => YStr "latest" end.

Definition is_string (v : yaml) : bool :=
  match v with YStr _ => true | _ => false end.

(** The [arches] that the constructor would convert are a list of
    strings. *)
Definition arches_ok (m : dict) : bool :=
  Dict.mem "publish-to" m ||
  match Dict.get "arches" m with
  | None => true
  | Some (YList l) => forallb is_string l
  | Some _ => false
  end.

(** A [promote-to] that is neither a string nor a container comes with
    a [stable]. *)
Definition promote_ok (m : dict) : bool :=
  match Dict.get "promote-to" m with
  | Some (YNull | YBool _ | YInt _) => Dict.mem "stable" m
  | _ => true
  end.

(** [v] is the list of the first [n] risks, for some [n]. *)
Definition ladder_prefix (v : yaml) : Prop :=
  ∃ n : nat, v = YList (map YStr (firstn n risks)).

(** What the last three blocks of the constructor leave in [d], from a
    mapping [m]. *)
Definition promote_facts (m d : dict) : Prop :=
  (Dict.get "promote-to" m = None → Dict.get "stable" m = Some (YBool true) →
     Dict.get "promote-to" d = Some (YList (map YStr risks)) ∧
     Dict.get "stable" d = Some (YBool true)) ∧
  (Dict.get "promote-to" m = Some (YStr "beta") → Dict.get "stable" m = None →
     Dict.get "promote-to" d = Some (YList [YStr "edge"; YStr "beta"]) ∧
     Dict.get "stable" d = Some (YBool false)) ∧
  (Dict.get "promote-to" m = None → Dict.get "stable" m = None →
     Dict.get "promote-to" d = Some (YList [YStr "edge"])) ∧
  (Dict.get "promote-to" m = None ∨ (∃ p, Dict.get "promote-to" m = Some (YStr p)) →
     ∃ v, Dict.get "promote-to" d = Some v ∧ ladder_prefix v) ∧
  (∀ l, Dict.get "promote-to" m = Some (YList l) →
     Dict.get "promote-to" d = Some (YList l)).

End KernelSnapEntry.


(** ** Equality of Python values ([==]) *)

(** Booleans are integers ([True == 1]); lists compare element by element,
    mappings key by key whatever the order of their items. *)
Fixpoint py_eq (a b : yaml) {struct a} : bool :=
  match a, b with
  | YNull, YNull => true
  | YBool x, YBool y => Bool.eqb x y
  | YBool x, YInt y => Z.b2z x =? y
  | YInt x, YBool y => x =? Z.b2z y
  | YInt x, YInt y => x =? y
  | YStr s, YStr t => String.eqb s t
  | YList l, YList l' =>
      (fix all2 (l l' : list yaml) : bool :=
         match l, l' with
         | [], [] => true
         | x :: r, y :: r' => py_eq x y && all2 r r'
         | _, _ => false
         end) l l'
  | YMap m, YMap m' =>
      (length m =? length m')%nat &&
      (fix every (m : dict) : bool :=
         match m with
         | [] => true
         | (k, v) :: r =>
             match Dict.get k m' with
             | Some v' => py_eq v v' && every r
             | None => false
             end
         end) m
  | _, _ => false
  end.

(** [list(d.items()) == list(d'.items())]: same keys in the same order,
    with equal values. *)
Fixpoint items_eq (m m' : dict) : bool :=
  match m, m' with
  | [], [] => true
  | (k, v) :: r, (k', v') :: r' => String.eqb k k' && py_eq v v' && items_eq r r'
  | _, _ => false
  end.

(** [k in m] and [m[k]] for a dictionary [m] and any object [k]: a list or
    a mapping is not hashable, and no other non-string is a key of [m]. *)
Definition dict_contains {V} (m : list (string * V)) (k : yaml) : res bool :=
  match k with
  | YStr s => Ok (Dict.mem s m)
  | YList _ | YMap _ => Raise TypeError
  | _ => Ok false
  end.

Definition dict_getitem {V} (m : list (string * V)) (k : yaml) : res V :=
  match k with
  | YStr s => match Dict.get s m with Some x => Ok x | None => Raise KeyError end
  | YList _ | YMap _ => Raise TypeError
  | _ => Raise KeyError
  end.

(** [m.update(other)] for any object [other]: a mapping, or a sequence of
    two-element sequences. *)
Fixpoint update_seq (m : dict) (l : list yaml) : res dict :=
  match l with
  | [] => Ok m
  | e :: rest =>
      items ← py_iter e;
      match items with
      | [k; v] => key ← as_key k; update_seq (Dict.set key v m) rest
      | _ => Raise ValueError
      end
  end.

Definition py_update (m : dict) (other : yaml) : res dict :=
  match other with
  | YMap o => Ok (Dict.update m o)
  | YList l => update_seq m l
  | YStr s => update_seq m (chars s)
  | _ => Raise TypeError
  end.

(** ** The entity views *)

Record KernelSeries : Type := {
  ks_data : dict;                                (* [_data], [defaults] removed *)
  ks_development_series : option string;         (* [_development_series] *)
  ks_codename_to_series : list (string * string);(* [_codename_to_series] *)
  ks_defaults_series : yaml                      (* [_defaults_series] *)
}.

Record KernelSeriesEntry : Type := {
  se_name : string;
  se_data : dict
}.

Record KernelSourceEntry : Type := {
  so_series : KernelSeriesEntry;
  so_name : string;
  so_data : yaml
}.

Record KernelPackageEntry : Type := {
  pk_source : KernelSourceEntry;
  pk_name : string;
  pk_data : yaml
}.

Record KernelSnapEntry : Type := {
  sn_source : KernelSourceEntry;
  sn_name : string;
  sn_data : yaml
}.

(** The name of a routing entry: the alias it was built from, or else
    ["{codename}:{source name}"], kept here as its two components. *)
Inductive routing_name : Type :=
| RoutingOf (codename : yaml) (source : string)
| RoutingAlias (alias : string).

Record KernelRoutingEntry : Type := {
  rt_source : KernelSourceEntry;
  rt_name : routing_name;
  rt_data : dict
}.

Inductive repo_owner : Type :=
| OwnerPackage (p : KernelPackageEntry)
| OwnerSnap (s : KernelSnapEntry).

Record KernelRepoEntry : Type := {
  re_owner : repo_owner;
  re_data : yaml
}.

(** ** KernelSeriesEntry *)

Module Series.

(** [__init__(ks, name, data, defaults)] *)
Definition init (name : string) (data defaults : yaml) : res KernelSeriesEntry :=
  d1 ← (if negb (is_none defaults) then py_update [] defaults else Ok []);
  d2 ← (if negb (is_none data) then py_update d1 data else Ok d1);
  Ok {| se_name := name; se_data := d2 |}.

Definition field (s : KernelSeriesEntry) (k : string) (default : yaml) : yaml :=
  match Dict.get k (se_data s) with Some x => x | None => default end.

Definition codename s := field s "codename" YNull.
Definition development s := field s "development" (YBool false).
Definition supported s := field s "supported" (YBool false).
Definition lts s := field s "lts" (YBool false).
Definition esm s := field s "esm" (YBool false).
Definition routing_table s := field s "routing-table" YNull.

(** [lookup_source(source_key)] *)
Definition lookup_source (s : KernelSeriesEntry) (source_key : yaml)
  : res (option KernelSourceEntry) :=
  let sources := field s "sources" YNull in
  if negb (truthy sources) then Ok None else
  match sources with
  | YMap m =>
      present ← dict_contains m source_key;
      if negb present then Ok None else
      data ← dict_getitem m source_key;
      name ← as_key source_key;
      Ok (Some {| so_series := s; so_name := name; so_data := or_empty data |})
  | _ =>
      match source_key with
      | YStr k =>
          present ← py_contains sources k;
          if negb present then Ok None else
          data ← py_getitem sources k;
          Ok (Some {| so_series := s; so_name := k; so_data := or_empty data |})
      | _ =>
          match sources with
          | YList _ => Raise NonStringKey
          | _ => Raise TypeError
          end
      end
  end.

(** [sources] *)
Definition sources (s : KernelSeriesEntry) : res (list KernelSourceEntry) :=
  let sources := field s "sources" YNull in
  if negb (truthy sources) then Ok [] else
  match sources with
  | YMap m =>
      Ok (map (fun kv => {| so_series := s; so_name := fst kv;
                            so_data := or_empty (snd kv) |}) m)
  | _ => Raise AttributeError
  end.

(** [__eq__] between two series views *)
Definition eq (a b : KernelSeriesEntry) : bool :=
  String.eqb (se_name a) (se_name b).

End Series.

(** ** KernelSeries *)

Module KS.

(** The loop of [__init__] over the items of the document, which records
    the development series and the codenames. *)
Fixpoint scan (items : dict) (development_series : option string)
         (codename_to_series : list (string * string))
  : res (option string * list (string * string)) :=
  match items with
  | [] => Ok (development_series, codename_to_series)
  | (series_key, series) :: rest =>
      if negb (truthy series) then
        scan rest development_series codename_to_series
      else
        dev ← py_get series "development" (YBool false);
        let development_series :=
          if truthy dev then Some series_key else development_series in
        has_codename ← py_contains series "codename";
        if (has_codename : bool) then
          codename ← py_getitem series "codename";
          k ← as_key codename;
          scan rest development_series (Dict.set k series_key codename_to_series)
        else
          scan rest development_series codename_to_series
  end.

(** [__init__], from the document that [yaml.safe_load] returned. *)
Definition init (document : yaml) : res KernelSeries :=
  match document with
  | YMap data =>
      '(dev, codenames) ← scan data None [];
      Ok (match Dict.get "defaults" data with
          | Some defaults =>
              {| ks_data := Dict.del "defaults" data;
                 ks_development_series := dev;
                 ks_codename_to_series := codenames;
                 ks_defaults_series := defaults |}
          | None =>
              {| ks_data := data;
                 ks_development_series := dev;
                 ks_codename_to_series := codenames;
                 ks_defaults_series := YMap [] |}
          end)
  | _ => Raise AttributeError
  end.

(** [series] *)
Fixpoint entries (defaults : yaml) (items : dict) : res (list KernelSeriesEntry) :=
  match items with
  | [] => Ok []
  | (series_key, series) :: rest =>
      e ← Series.init series_key series defaults;
      es ← entries defaults rest;
      Ok (e :: es)
  end.

Definition series (ks : KernelSeries) : res (list KernelSeriesEntry) :=
  entries (ks_defaults_series ks) (ks_data ks).

(** The end of [lookup_series], once [series] is settled. *)
Definition lookup_by_key (ks : KernelSeries) (series : yaml)
  : res (option KernelSeriesEntry) :=
  absent ← (if truthy series
            then present ← dict_contains (ks_data ks) series; Ok (negb present)
            else Ok false);
  if (absent : bool) then Ok None else
  data ← dict_getitem (ks_data ks) series;
  name ← as_key series;
  e ← Series.init name data (ks_defaults_series ks);
  Ok (Some e).

(** [lookup_series(series=None, codename=None, development=False)] *)
Definition lookup_series (ks : KernelSeries) (series codename development : yaml)
  : res (option KernelSeriesEntry) :=
  if negb (truthy series) && negb (truthy codename) && negb (truthy development)
  then Raise ValueError
  else if truthy series then lookup_by_key ks series
  else if truthy codename then
    present ← dict_contains (ks_codename_to_series ks) codename;
    if negb present then Ok None else
    key ← dict_getitem (ks_codename_to_series ks) codename;
    (* [key] is a series key, hence a string; [not series and development]
       is evaluated on it next *)
    if negb (truthy (YStr key)) && truthy development then
      match ks_development_series ks with
      | Some dev => if truthy (YStr dev) then lookup_by_key ks (YStr dev) else Ok None
      | None => Ok None
      end
    else lookup_by_key ks (YStr key)
  else
    match ks_development_series ks with
    | Some dev => if truthy (YStr dev) then lookup_by_key ks (YStr dev) else Ok None
    | None => Ok None
    end.

End KS.

(** ** KernelRoutingEntry and KernelRepoEntry *)

Module Routing.

(** [if data[entry] is None: del data[entry]] *)
Definition clear_entry (data : dict) (entry : string) : dict :=
  match Dict.get entry data with
  | Some YNull => Dict.del entry data
  | _ => data
  end.

(** [for entry in dict(data): ...] *)
Definition strip_none (data : dict) : dict :=
  fold_left clear_entry (Dict.keys data) data.

(** The second half of [__init__]: null entries are cleared out of
    [data], and [data if data else {}] is kept. *)
Definition clear (data : yaml) : res dict :=
  match data with
  | YMap m => Ok (strip_none m)
  | YList l =>
      copy ← update_seq [] l;
      match copy with [] => Ok [] | _ => Raise TypeError end
  | YStr s =>
      copy ← update_seq [] (chars s);
      match copy with [] => Ok [] | _ => Raise TypeError end
  | _ => Raise TypeError
  end.

(** [__init__(ks, source, data)] *)
Definition init (source : KernelSourceEntry) (data : yaml)
  : res KernelRoutingEntry :=
  match data with
  | YStr alias =>
      let table := Series.routing_table (so_series source) in
      if is_none table then Raise ValueError else
      present ← py_contains table alias;
      if negb present then Raise ValueError else
      data ← py_getitem table alias;
      d ← clear data;
      Ok {| rt_source := source; rt_name := RoutingAlias alias; rt_data := d |}
  | _ =>
      d ← clear data;
      Ok {| rt_source := source;
            rt_name := RoutingOf (Series.codename (so_series source)) (so_name source);
            rt_data := d |}
  end.

(** [__eq__]: [list(self) == list(other)] *)
Definition eq (a b : KernelRoutingEntry) : bool :=
  items_eq (rt_data a) (rt_data b).

(** [lookup_destination(dest)] with [primary=False] *)
Definition lookup_destination (r : KernelRoutingEntry) (dest : string) : option yaml :=
  Dict.get dest (rt_data r).

End Routing.

Module Repo.

(** [__init__(ks, owner, data)] *)
Definition init (owner : repo_owner) (data : yaml) : res KernelRepoEntry :=
  data ← (match data with
          | YList l =>
              match l with
              | [] => Raise IndexError
              | [url] => Ok (YMap [("url", url); ("branch", YStr "master")])
              | [url; branch] => Ok (YMap [("url", url); ("branch", branch)])
              | url :: _ => Ok (YMap [("url", url)])
              end
          | _ => Ok data
          end);
  Ok {| re_owner := owner; re_data := or_empty data |}.

Definition url (r : KernelRepoEntry) : res yaml := py_getitem (re_data r) "url".
Definition branch (r : KernelRepoEntry) : res yaml := py_get (re_data r) "branch" YNull.

(** [__eq__]: [self.url == other.url and self.branch == other.branch] *)
Definition eq (a b : KernelRepoEntry) : res bool :=
  u ← url a;
  u' ← url b;
  if negb (py_eq u u') then Ok false else
  br ← branch a;
  br' ← branch b;
  Ok (py_eq br br').

End Repo.

(** ** KernelSourceEntry *)

(** What [copy_forward] returns: [None], [True], or a source. *)
Inductive copy_forward_result : Type :=
| CopyNone
| CopyTrue
| CopySource (s : KernelSourceEntry).

Module Source.

(** [__init__(ks, series, name, data)] *)
Definition init (series : KernelSeriesEntry) (name : string) (data : yaml)
  : KernelSourceEntry :=
  {| so_series := series; so_name := name; so_data := or_empty data |}.

(** [(series_key, source_key) = pair], then the two lookups that
    [derived_from] and [copy_forward] share. *)
Definition resolve (ks : KernelSeries) (pair : yaml) : res (option KernelSourceEntry) :=
  items ← py_iter pair;
  match items with
  | [series_key; source_key] =>
      series ← KS.lookup_series ks series_key YNull (YBool false);
      match series with
      | Some series => Series.lookup_source series source_key
      | None => Raise AttributeError
      end
  | _ => Raise ValueError
  end.

(** [derived_from] *)
Definition derived_from (ks : KernelSeries) (s : KernelSourceEntry)
  : res (option KernelSourceEntry) :=
  present ← py_contains (so_data s) "derived-from";
  if negb present then Ok None else
  pair ← py_getitem (so_data s) "derived-from";
  resolve ks pair.

(** [copy_forward] *)
Definition copy_forward (ks : KernelSeries) (s : KernelSourceEntry)
  : res copy_forward_result :=
  present ← py_contains (so_data s) "copy-forward";
  if negb present then Ok CopyNone else
  flag ← py_getitem (so_data s) "copy-forward";
  if is_False flag then Ok CopyNone else
  if is_True flag then
    d ← derived_from ks s;
    match d with
    | None => Ok CopyTrue
    | Some _ =>
        d' ← derived_from ks s;
        Ok (match d' with Some src => CopySource src | None => CopyNone end)
    end
  else
    src ← resolve ks flag;
    Ok (match src with Some src => CopySource src | None => CopyNone end).

(** [versions].  The accessor calls itself on the source it derives
    from; [fuel] bounds the number of sources visited, and [None] is the
    answer of a chase that is still running when the fuel is spent.  (The
    recursion limit of the interpreter, which ends an endless chase with
    [RecursionError], is not part of the model.) *)
Fixpoint versions (fuel : nat) (ks : KernelSeries) (s : KernelSourceEntry)
  : option (res yaml) :=
  match fuel with
  | O => None
  | S fuel =>
      match py_contains (so_data s) "versions" with
      | Raise e => Some (Raise e)
      | Ok true => Some (py_getitem (so_data s) "versions")
      | Ok false =>
          match derived_from ks s with
          | Raise e => Some (Raise e)
          | Ok (Some d) => versions fuel ks d
          | Ok None =>
              match copy_forward ks s with
              | Raise e => Some (Raise e)
              | Ok (CopySource c) => versions fuel ks c
              | Ok CopyTrue => Some (Raise AttributeError)
              | Ok CopyNone => Some (Ok YNull)
              end
          end
      end
  end.

(** [development] and [supported] *)
Definition development (s : KernelSourceEntry) : res yaml :=
  py_get (so_data s) "development" (Series.development (so_series s)).
Definition supported (s : KernelSourceEntry) : res yaml :=
  py_get (so_data s) "supported" (Series.supported (so_series s)).

(** The alias that [routing] falls back on. *)
Definition default_routing (s : KernelSourceEntry) : string :=
  let default := "default" in
  let default := if truthy (Series.development (so_series s)) then "devel" else default in
  let default := if truthy (Series.esm (so_series s)) then "esm" else default in
  default.

(** [routing] *)
Definition routing (s : KernelSourceEntry) : res (option KernelRoutingEntry) :=
  data ← py_get (so_data s) "routing" (YStr (default_routing s));
  if is_none data then Ok None else
  r ← Routing.init s data;
  Ok (Some r).

(** [lookup_package(package_key)] for a string key *)
Definition lookup_package (s : KernelSourceEntry) (package_key : string)
  : res (option KernelPackageEntry) :=
  packages ← py_get (so_data s) "packages" YNull;
  if negb (truthy packages) then Ok None else
  present ← py_contains packages package_key;
  if negb present then Ok None else
  data ← py_getitem packages package_key;
  Ok (Some {| pk_source := s; pk_name := package_key; pk_data := or_empty data |}).

(** [lookup_snap(snap_key)] for a string key *)
Definition lookup_snap (s : KernelSourceEntry) (snap_key : string)
  : res (option KernelSnapEntry) :=
  snaps ← py_get (so_data s) "snaps" YNull;
  if negb (truthy snaps) then Ok None else
  present ← py_contains snaps snap_key;
  if negb present then Ok None else
  data ← py_getitem snaps snap_key;
  d ← KernelSnapEntry.init data;
  Ok (Some {| sn_source := s; sn_name := snap_key; sn_data := d |}).

(** [__eq__] of sources, packages and snaps *)
Definition eq (a b : KernelSourceEntry) : bool :=
  String.eqb (so_name a) (so_name b) && Series.eq (so_series a) (so_series b).

End Source.

Module Package.
Definition eq (a b : KernelPackageEntry) : bool :=
  String.eqb (pk_name a) (pk_name b) && Source.eq (pk_source a) (pk_source b).

(** [repo] *)
Definition repo (p : KernelPackageEntry) : res (option KernelRepoEntry) :=
  data ← py_get (pk_data p) "repo" YNull;
  if negb (truthy data) then Ok None else
  r ← Repo.init (OwnerPackage p) data;
  Ok (Some r).
End Package.

Module Snap.
Definition eq (a b : KernelSnapEntry) : bool :=
  String.eqb (sn_name a) (sn_name b) && Source.eq (sn_source a) (sn_source b).

(** [repo] *)
Definition repo (s : KernelSnapEntry) : res (option KernelRepoEntry) :=
  data ← py_get (sn_data s) "repo" YNull;
  if negb (truthy data) then Ok None else
  r ← Repo.init (OwnerSnap s) data;
  Ok (Some r).
End Snap.

(** ** The QA-tracker client *)

(** Status tables of [qatracker.py]. *)
Definition qatracker_build_milestone_status : list string :=
  ["Active"; "Re-building"; "Disabled"; "Superseded"; "Ready"].
Definition qatracker_milestone_status : list string :=
  ["Testing"; "Released"; "Archived"].
Definition qatracker_milestone_series_status : list string := ["Active"; "Disabled"].
Definition qatracker_product_status : list string := ["Active"; "Disabled"].
Definition qatracker_result_result : list string :=
  ["Failed"; "Passed"; "In progress"].
Definition qatracker_result_status : list string := ["Active"; "Disabled"].
Definition qatracker_rebuild_status : list string :=
  ["Requested"; "Queued"; "Building"; "Built"; "Published"; "Canceled"].

(** A status filter as a caller passes it: an integer (a Python boolean is
    one), a string, a list, or an object of another type. *)
Inductive status_filter : Type :=
| FInt (z : Z)
| FStr (s : string)
| FList (l : list status_filter)
| FOther.

(** A value received over XML-RPC. *)
Inductive xval : Type :=
| XStr (s : string)
| XInt (z : Z)
| XBool (b : bool)
| XList (l : list xval)
| XStruct (m : list (string * xval)).

(** An attribute of a [QATrackerRPCObject] after conversion; a date is the
    instant that [strptime] read. *)
Inductive attr : Type :=
| ANone
| AInt (z : Z)
| ABool (b : bool)
| AStr (s : string)
| ADate (t : Z).

Inductive qclass : Type :=
| QBuild | QMilestone | QProduct | QResult | QTestcase.

Record qobject : Type := {
  q_class : qclass;
  q_attrs : list (string * attr)
}.

(** The remote methods used by [add_build] and [add_result]. *)
Inductive rpc_call : Type :=
| products_get_list (record_filter : list Z)
| builds_add (product_id milestone_id : attr) (version note : string) (notify : bool)
| builds_get_list (milestone_id : attr) (record_filter : list Z)
| results_add (build_id testcase : attr) (result : Z)
              (comment hardware : string) (bugs : list (yaml * yaml))
| results_get_list (build_id testcase : attr) (record_filter : list Z).

Definition is_mutating (c : rpc_call) : bool :=
  match c with
  | builds_add _ _ _ _ _ | results_add _ _ _ _ _ _ => true
  | _ => false
  end.

(** The [product] argument of [add_build] and the [testcase] argument of
    [add_result]: an object of the expected class, or any other value. *)
Inductive object_or_value : Type :=
| Obj (o : qobject)
| Val (v : yaml).

Fixpoint index_of (s : string) (l : list string) : option nat :=
  match l with
  | [] => None
  | x :: rest => if String.eqb s x then Some O else S <$> index_of s rest
  end.

Definition CONVERT_INT (c : qclass) : list string :=
  match c with
  | QBuild => ["id"; "productid"; "userid"; "status"]
  | QMilestone => ["id"; "status"; "series"]
  | QProduct => ["id"; "type"; "status"]
  | QResult => ["id"; "reporterid"; "revisionid"; "result"; "changedby"; "status"]
  | QTestcase => ["id"; "status"; "weight"; "suite"]
  end.
Definition CONVERT_BOOL (c : qclass) : list string :=
  match c with QMilestone => ["notify"] | _ => [] end.
Definition CONVERT_DATE (c : qclass) : list string :=
  match c with
  | QBuild => ["date"]
  | QResult => ["date"; "lastchange"]
  | _ => []
  end.

Definition mem_str (k : string) (l : list string) : bool := existsb (String.eqb k) l.

(** A computation that may call the server: from the calls made so far to
    a result and the calls made by the end. *)
Definition M (A : Type) : Type := list rpc_call → res A * list rpc_call.

#[global] Instance M_ret : MRet M := fun A a tr => (Ok a, tr).
#[global] Instance M_bind : MBind M := fun A B f m tr =>
  match m tr with
  | (Ok a, tr') => f a tr'
  | (Raise e, tr') => (Raise e, tr')
  end.
Definition mraise {A} (e : exn) : M A := fun tr => (Raise e, tr).
Definition mlift {A} (r : res A) : M A := fun tr => (r, tr).

Section QATracker.

(** Library primitives: [str.lower], [int] on a string ([None] when it
    raises [ValueError]), [datetime.strptime] with the tracker's format,
    and [str]. *)
Variable lower : string → string.
Variable parse_int : string → option Z.
Variable strptime : string → option Z.
Variable py_str : yaml → string.
Variable x_str : xval → string.

(** The remote end: its answer to a call, given the calls made so far. *)
Variable server : list rpc_call → rpc_call → res xval.

(** The access level that [get_access] returned at construction. *)
Variable access : option string.

(** [process], the local function of [_get_valid_id_list] *)
Definition process (status_list : list string) (status : status_filter) : res Z :=
  let valid_status := map lower status_list in
  match status with
  | FInt status =>
      if (status <? 0) || (status >=? Z.of_nat (length valid_status))
      then Raise IndexError
      else Ok status
  | FStr status =>
      let status := lower status in
      match index_of status valid_status with
      | None => Raise IndexError
      | Some i => Ok (Z.of_nat i)
      end
  | _ => Raise TypeError
  end.

Fixpoint process_entries (status_list : list string) (entries : list status_filter)
         (record_filter : gset Z) : res (gset Z) :=
  match entries with
  | [] => Ok record_filter
  | entry :: rest =>
      i ← process status_list entry;
      process_entries status_list rest (record_filter ∪ {[i]})
  end.

(** [_get_valid_id_list(status_list, status)]; the list returned
    enumerates a set, in an order that the source leaves to Python. *)
Definition _get_valid_id_list (status_list : list string) (status : status_filter)
  : res (list Z) :=
  record_filter ← (match status with
                   | FList l => process_entries status_list l ∅
                   | _ => i ← process status_list status; Ok (∅ ∪ {[i]})
                   end);
  Ok (elements (record_filter : gset Z)).

(** *** Remote calls *)

Definition rpc (c : rpc_call) : M xval := fun tr => (server tr c, tr ++ [c]).

(** [QATrackerRPCObject.__init__] for an entry that is a struct. *)
Definition convert (c : qclass) (key : string) (v : xval) : res attr :=
  if mem_str key (CONVERT_INT c) then
    match v with
    | XStr s => Ok (match parse_int s with Some z => AInt z | None => ANone end)
    | XInt z => Ok (AInt z)
    | XBool b => Ok (AInt (Z.b2z b))
    | _ => Raise TypeError
    end
  else if mem_str key (CONVERT_BOOL c) then
    Ok (ABool (match v with XStr s => String.eqb s "true" | _ => false end))
  else if mem_str key (CONVERT_DATE c) then
    match v with
    | XStr s => Ok (match strptime s with Some t => ADate t | None => ANone end)
    | _ => Raise TypeError
    end
  else Ok (AStr (x_str v)).

Fixpoint set_attrs (c : qclass) (rpc_dict : list (string * xval))
         (attrs : list (string * attr)) : res (list (string * attr)) :=
  match rpc_dict with
  | [] => Ok attrs
  | (key, v) :: rest =>
      a ← convert c key v;
      set_attrs c rest (Dict.set key a attrs)
  end.

(** [Class(tracker, entry)].  The tracker answers with lists of structs;
    an entry of another kind is reported as [TypeError]. *)
Definition new_object (c : qclass) (entry : xval) : res qobject :=
  match entry with
  | XStruct rpc_dict =>
      attrs ← set_attrs c rpc_dict [];
      Ok {| q_class := c; q_attrs := attrs |}
  | _ => Raise TypeError
  end.

Fixpoint new_objects (c : qclass) (entries : list xval) : res (list qobject) :=
  match entries with
  | [] => Ok []
  | entry :: rest =>
      o ← new_object c entry;
      os ← new_objects c rest;
      Ok (o :: os)
  end.

(** The loop [for entry in remote_list: out.append(Class(tracker, entry))] *)
Definition objects_of (c : qclass) (answer : xval) : res (list qobject) :=
  match answer with
  | XList entries => new_objects c entries
  | _ => Raise TypeError
  end.

Definition getattr (o : qobject) (name : string) : res attr :=
  match Dict.get name (q_attrs o) with
  | Some a => Ok a
  | None => Raise AttributeError
  end.

(** [a == b] and [a == v] on attributes *)
Definition attr_eq (a b : attr) : bool :=
  match a, b with
  | ANone, ANone => true
  | AInt x, AInt y => x =? y
  | AInt x, ABool y | ABool y, AInt x => x =? Z.b2z y
  | ABool x, ABool y => Bool.eqb x y
  | AStr s, AStr t => String.eqb s t
  | ADate s, ADate t => s =? t
  | _, _ => false
  end.

Definition attr_eq_value (a : attr) (v : yaml) : bool :=
  match a, v with
  | ANone, YNull => true
  | AInt x, YInt y => x =? y
  | AInt x, YBool y => x =? Z.b2z y
  | ABool x, YInt y => Z.b2z x =? y
  | ABool x, YBool y => Bool.eqb x y
  | AStr s, YStr t => String.eqb s t
  | _, _ => false
  end.

Definition attr_is_zero (a : attr) : bool := attr_eq a (AInt 0).


(** [if not x] on the value that [add_result] keeps as [build_testcase] *)
Definition attr_truthy (a : attr) : bool :=
  match a with
  | ANone => false
  | AInt z => negb (z =? 0)
  | ABool b => b
  | AStr s => negb (String.eqb s "")
  | ADate _ => true
  end.

(** [QATracker.get_products(status)] *)
Definition get_products (status : status_filter) : M (list qobject) :=
  record_filter ← mlift (_get_valid_id_list qatracker_product_status status);
  match record_filter with
  | [] => mret []
  | _ =>
      answer ← rpc (products_get_list record_filter);
      mlift (objects_of QProduct answer)
  end.

(** [QATrackerMilestone.get_builds(status)] *)
Definition get_builds (self : qobject) (status : status_filter) : M (list qobject) :=
  record_filter ← mlift (_get_valid_id_list qatracker_build_milestone_status status);
  match record_filter with
  | [] => mret []
  | _ =>
      id ← mlift (getattr self "id");
      answer ← rpc (builds_get_list id record_filter);
      mlift (objects_of QBuild answer)
  end.

(** The loop of [add_build] over the valid products. *)
Fixpoint find_product (product : yaml) (valid_products : list qobject)
  : res (option qobject) :=
  match valid_products with
  | [] => Ok None
  | entry :: rest =>
      title ← getattr entry "title";
      same_title ← (match title with
                    | AStr t => Ok (String.eqb (lower t) (lower (py_str product)))
                    | _ => Raise AttributeError
                    end);
      if (same_title : bool) then Ok (Some entry) else
      id ← getattr entry "id";
      if attr_eq_value id product then Ok (Some entry)
      else find_product product rest
  end.

(** The loop of [add_build] over the builds got back. *)
Fixpoint find_build (product_id : attr) (version : string) (builds : list qobject)
  : res (option qobject) :=
  match builds with
  | [] => Ok None
  | entry :: rest =>
      productid ← getattr entry "productid";
      if attr_eq productid product_id then
        v ← getattr entry "version";
        if attr_eq v (AStr version) then Ok (Some entry)
        else find_build product_id version rest
      else find_build product_id version rest
  end.

(** [QATrackerMilestone.add_build(product, version, note, notify)] *)
Definition add_build (self : qobject) (product : object_or_value)
           (version note notify : yaml) : M (option qobject) :=
  status ← mlift (getattr self "status");
  if negb (attr_is_zero status) then mraise TypeError else
  if match access with
     | Some a => negb (String.eqb a "admin")
     | None => false
     end
  then mraise PyException else
  match notify with
  | YBool notify =>
      build_product ← (match product with
                       | Obj p => mret (Some p)
                       | Val v =>
                           valid_products ← get_products (FInt 0);
                           mlift (find_product v valid_products)
                       end);
      match build_product with
      | None => mraise IndexError
      | Some build_product =>
          pstatus ← mlift (getattr build_product "status");
          if negb (attr_is_zero pstatus) then mraise TypeError else
          pid ← mlift (getattr build_product "id");
          id ← mlift (getattr self "id");
          _ ← rpc (builds_add pid id (py_str version) (py_str note) notify);
          builds ← get_builds self (FInt 0);
          pid' ← mlift (getattr build_product "id");
          mlift (find_build pid' (py_str version) builds)
      end
  | _ => mraise TypeError
  end.

(** The value that [add_result] and [get_results] keep as
    [build_testcase]. *)
Definition testcase_id (testcase : object_or_value) : res attr :=
  match testcase with
  | Obj t => getattr t "id"
  | Val (YInt z) => Ok (AInt z)
  | Val (YBool b) => Ok (ABool b)
  | Val _ => Ok ANone
  end.

(** An attribute passed on as an argument; of a date, only that it is
    not an integer matters below. *)
Definition attr_value (a : attr) : yaml :=
  match a with
  | ANone | ADate _ => YNull
  | AInt z => YInt z
  | ABool b => YBool b
  | AStr s => YStr s
  end.

(** [QATrackerBuild.get_results(testcase, status)] *)
Definition get_results (self : qobject) (testcase : object_or_value)
           (status : status_filter) : M (list qobject) :=
  build_testcase ← mlift (testcase_id testcase);
  if negb (attr_truthy build_testcase) then mraise IndexError else
  record_filter ← mlift (_get_valid_id_list qatracker_result_status status);
  match record_filter with
  | [] => mret []
  | _ =>
      id ← mlift (getattr self "id");
      answer ← rpc (results_get_list id build_testcase record_filter);
      mlift (objects_of QResult answer)
  end.

(** The two checks of [add_result] on the items of [bugs]. *)
Definition is_int (v : yaml) : bool :=
  match v with YInt _ | YBool _ => true | _ => false end.
Definition int_of (v : yaml) : Z :=
  match v with YInt z => z | YBool b => Z.b2z b | _ => 0 end.

Fixpoint check_bugs (bugs : list (yaml * yaml)) : res unit :=
  match bugs with
  | [] => Ok ()
  | (bug, importance) :: rest =>
      if negb (is_int bug) || (int_of bug <=? 0) then Raise ValueError else
      if negb (is_int importance) ||
         negb ((int_of importance =? 0) || (int_of importance =? 1))
      then Raise ValueError
      else check_bugs rest
  end.

(** [int(x)] on the answer of [results.add] *)
Definition int_of_answer (x : xval) : res Z :=
  match x with
  | XStr s => match parse_int s with Some z => Ok z | None => Raise ValueError end
  | XInt z => Ok z
  | XBool b => Ok (Z.b2z b)
  | _ => Raise TypeError
  end.

(** The loop of [add_result] over the results got back. *)
Fixpoint find_result (resultid : Z) (results : list qobject) : res (option qobject) :=
  match results with
  | [] => Ok None
  | entry :: rest =>
      id ← getattr entry "id";
      if attr_eq id (AInt resultid) then Ok (Some entry)
      else find_result resultid rest
  end.

(** [QATrackerBuild.add_result(testcase, result, comment, hardware, bugs)];
    [bugs] is [None] when the argument is not a dictionary. *)
Definition add_result (self : qobject) (testcase : object_or_value)
           (result : status_filter) (comment hardware : yaml)
           (bugs : option (list (yaml * yaml))) : M (option qobject) :=
  if match access with
     | Some a => negb (String.eqb a "user" || String.eqb a "admin")
     | None => false
     end
  then mraise PyException else
  build_testcase ← mlift (testcase_id testcase);
  if negb (attr_truthy build_testcase) then mraise IndexError else
  match result with
  | FList _ => mraise TypeError
  | _ =>
      build_result ← mlift (_get_valid_id_list qatracker_result_result result);
      match bugs with
      | None => mraise TypeError
      | Some bugs =>
          _ ← mlift (check_bugs bugs);
          id ← mlift (getattr self "id");
          first ← mlift (match build_result with
                         | r :: _ => Ok r
                         | [] => Raise IndexError
                         end);
          answer ← rpc (results_add id build_testcase first
                                    (py_str comment) (py_str hardware) bugs);
          resultid ← mlift (int_of_answer answer);
          if resultid =? -1 then mraise PyException else
          results ← get_results self (Val (attr_value build_testcase)) (FInt 0);
          mlift (find_result resultid results)
      end
  end.

(** *** Notions used to state the properties of the mutating calls *)

(** Calls that change nothing on the server. *)
Definition reads_only (calls : list rpc_call) : Prop :=
  Forall (fun c => is_mutating c = false) calls.

(** What [add_build] can come to, from the calls [tr] made before it: an
    exception raised before any mutating call; or the call of
    [builds.add], which either fails, and its exception is the result, or
    succeeds, and then the builds of the milestone are asked for once and
    the result is the build found among them. *)
Definition add_build_outcome (version note : yaml) (tr : list rpc_call)
           (out : res (option qobject) * list rpc_call) : Prop :=
  let (r, tr') := out in
  (∃ e reads, r = Raise e ∧ tr' = tr ++ reads ∧ reads_only reads) ∨
  (∃ reads pid id b,
     reads_only reads ∧
     let add := builds_add pid id (py_str version) (py_str note) b in
     match server (tr ++ reads) add with
     | Raise e => r = Raise e ∧ tr' = tr ++ reads ++ [add]
     | Ok _ =>
         tr' = tr ++ reads ++ [add; builds_get_list id [0]] ∧
         r = (answer ← server (tr ++ reads ++ [add]) (builds_get_list id [0]);
              builds ← objects_of QBuild answer;
              find_build pid (py_str version) builds)
     end).

(** What [add_result] can come to, for a test case whose identifier is
    [testcase]: an exception raised before any call; or the call of
    [results.add], which fails, or does not answer an integer, or answers
    -1, and then an exception is the result; or else answers the
    identifier [resultid], and then the results of the test case are
    asked for once and the result is the one of them so identified. *)
Definition add_result_outcome (testcase : attr) (comment hardware : yaml)
           (tr : list rpc_call) (out : res (option qobject) * list rpc_call) : Prop :=
  let (r, tr') := out in
  (∃ e, r = Raise e ∧ tr' = tr) ∨
  (∃ id result bugs,
     let add := results_add id testcase result (py_str comment) (py_str hardware) bugs in
     match answer ← server tr add; int_of_answer answer with
     | Raise e => r = Raise e ∧ tr' = tr ++ [add]
     | Ok resultid =>
         if resultid =? -1 then r = Raise PyException ∧ tr' = tr ++ [add]
         else
           tr' = tr ++ [add; results_get_list id testcase [0]] ∧
           r = (answer ← server (tr ++ [add]) (results_get_list id testcase [0]);
                results ← objects_of QResult answer;
                find_result resultid results)
     end).

End QATracker.

(** ** Notions used to state the properties of the kernel-series model *)

(** A Python dictionary has no two items under one key. *)
Definition distinct_keys (v : yaml) : Prop :=
  match v with
  | YMap m => List.NoDup (Dict.keys m)
  | _ => True
  end.

(** The document is a mapping, and neither it nor one of its values
    repeats a key. *)
Definition wf_document (document : yaml) : Prop :=
  distinct_keys document ∧
  ∀ m, document = YMap m → ∀ k v, In (k, v) m → distinct_keys v.

(** The value that the series [name] itself gives to the key [k], and the
    value that the [defaults] block gives it. *)
Definition own_value (ks : KernelSeries) (name k : string) : option yaml :=
  match Dict.get name (ks_data ks) with
  | Some (YMap own) => Dict.get k own
  | _ => None
  end.

Definition default_value (ks : KernelSeries) (k : string) : option yaml :=
  match ks_defaults_series ks with
  | YMap defaults => Dict.get k defaults
  | _ => None
  end.

(** [e] is one of the views that [series] lists, or the one that a call of
    [lookup_series] returns. *)
Definition produced (ks : KernelSeries) (e : KernelSeriesEntry) : Prop :=
  (∃ es, KS.series ks = Ok es ∧ In e es) ∨
  (∃ series codename development,
      KS.lookup_series ks series codename development = Ok (Some e)).

(** A value of the document, once the constructor has accepted it: a
    mapping with distinct keys, or a false object. *)
Definition map_or_false (v : yaml) : Prop :=
  (∃ m, v = YMap m ∧ List.NoDup (Dict.keys m)) ∨
  (truthy v = false ∧ ∀ m, v ≠ YMap m).

Definition get_of (v : yaml) (k : string) : option yaml :=
  match v with YMap m => Dict.get k m | _ => None end.


(** A document with a [defaults] block and two series. *)
Definition defaults_document : yaml :=
  YMap [("defaults", YMap [("supported", YBool true)]);
        ("A", YMap [("codename", YStr "a")]);
        ("B", YMap [("codename", YStr "b"); ("supported", YBool false)])].

(** The items of [m] whose value is not null, in their order. *)
Definition without_nulls (m : dict) : dict :=
  List.filter (fun kv => negb (is_none (snd kv))) m.

(** A series with a routing table, and one of its sources routed by the
    alias [legacy]. *)
Definition routed_series : KernelSeriesEntry :=
  {| se_name := "16.04";
     se_data := [("codename", YStr "xenial");
                 ("routing-table",
                  YMap [("legacy", YMap [("build", YList [YStr "ppa"]);
                                         ("proposed", YNull);
                                         ("updates", YList [YStr "archive"])])])] |}.

Definition routed_source : KernelSourceEntry :=
  {| so_series := routed_series; so_name := "linux";
     so_data := YMap [("routing", YStr "legacy")] |}.

(** A source of an ESM series in development whose [routing] is null. *)
Definition unrouted_source : KernelSourceEntry :=
  {| so_series := {| se_name := "20.04";
                     se_data := [("esm", YBool true); ("development", YBool true)] |};
     so_name := "linux";
     so_data := YMap [("routing", YNull)] |}.

(** The same series, with a source that leaves [routing] out. *)
Definition esm_source : KernelSourceEntry :=
  {| so_series := {| se_name := "20.04";
                     se_data := [("esm", YBool true); ("development", YBool true);
                                 ("routing-table",
                                  YMap [("esm", YMap [("build", YList [YStr "esm-ppa"])])])] |};
     so_name := "linux";
     so_data := YMap [("versions", YList [YStr "5.4"])] |}.

(** The two-series document of the specification: series [B] is in
    development and its source derives from the source of series [A]. *)
Definition two_series_document : yaml :=
  YMap [("A", YMap [("codename", YStr "a");
                    ("sources",
                     YMap [("linux", YMap [("versions", YList [YStr "4.4"; YStr "4.15"])])])]);
        ("B", YMap [("codename", YStr "b");
                    ("development", YBool true);
                    ("sources",
                     YMap [("linux", YMap [("derived-from", YList [YStr "A"; YStr "linux"])])])])].

Definition empty_series : KernelSeries :=
  {| ks_data := []; ks_development_series := None;
     ks_codename_to_series := []; ks_defaults_series := YMap [] |}.

Definition two_series : KernelSeries :=
  Eval cbv in
    match KS.init two_series_document with
    | Ok ks => ks
    | Raise _ => empty_series
    end.

(** Two packages of one source that share a repository. *)
Definition packaged_source : KernelSourceEntry :=
  {| so_series := {| se_name := "18.04"; se_data := [("codename", YStr "bionic")] |};
     so_name := "linux";
     so_data := YMap [("packages",
                       YMap [("linux", YMap [("repo", YList [YStr "git://k/bionic"])]);
                             ("linux-meta",
                              YMap [("type", YStr "meta");
                                    ("repo", YList [YStr "git://k/bionic"])])])] |}.

Definition package_main : KernelPackageEntry :=
  {| pk_source := packaged_source; pk_name := "linux";
     pk_data := YMap [("repo", YList [YStr "git://k/bionic"])] |}.

Definition package_meta : KernelPackageEntry :=
  {| pk_source := packaged_source; pk_name := "linux-meta";
     pk_data := YMap [("type", YStr "meta"); ("repo", YList [YStr "git://k/bionic"])] |}.

(** ** Notions used to state the properties of [versions] *)

(** A source of the document: the key of its series and its own key. *)
Definition node : Type := string * string.

Definition node_of (s : KernelSourceEntry) : node :=
  (se_name (so_series s), so_name s).

(** The view that [lookup_series] and [lookup_source] give of a source. *)
Definition view_of (ks : KernelSeries) (n : node) : option KernelSourceEntry :=
  match KS.lookup_series ks (YStr (fst n)) YNull (YBool false) with
  | Ok (Some e) =>
      match Series.lookup_source e (YStr (snd n)) with
      | Ok (Some s) => Some s
      | _ => None
      end
  | _ => None
  end.

(** The source [a] refers to the source [b] by its [derived-from] or by
    its [copy-forward]. *)
Definition refers (ks : KernelSeries) (a b : node) : Prop :=
  ∃ s t, view_of ks a = Some s ∧ node_of t = b ∧
         (Source.derived_from ks s = Ok (Some t) ∨
          Source.copy_forward ks s = Ok (CopySource t)).

(** No source reaches itself along the references. *)
Definition acyclic (ks : KernelSeries) : Prop :=
  ∀ n, ¬ clos_trans node (refers ks) n n.

(** The sources of the document, series by series. *)
Definition series_nodes (defaults : yaml) (kv : string * yaml) : list node :=
  match Series.init (fst kv) (snd kv) defaults with
  | Ok e =>
      match Series.field e "sources" YNull with
      | YMap m => map (fun k => (fst kv, k)) (Dict.keys m)
      | _ => []
      end
  | Raise _ => []
  end.

Definition all_nodes (ks : KernelSeries) : list node :=
  flat_map (series_nodes (ks_defaults_series ks)) (ks_data ks).

(** The source on which [versions] calls itself, when it does. *)
Definition next (ks : KernelSeries) (s : KernelSourceEntry) : option KernelSourceEntry :=
  match py_contains (so_data s) "versions" with
  | Ok false =>
      match Source.derived_from ks s with
      | Ok (Some d) => Some d
      | Ok None =>
          match Source.copy_forward ks s with
          | Ok (CopySource c) => Some c
          | _ => None
          end
      | Raise _ => None
      end
  | _ => None
  end.

(** A source whose [copy-forward] is the legacy flag, with nothing to
    derive from. *)
Definition copy_flag_document : yaml :=
  YMap [("A", YMap [("codename", YStr "a");
                    ("sources", YMap [("linux", YMap [("copy-forward", YBool true)])])])].

Definition copy_flag_series : KernelSeries :=
  Eval cbv in
    match KS.init copy_flag_document with
    | Ok ks => ks
    | Raise _ => empty_series
    end.

(** A source that derives from itself. *)
Definition cyclic_document : yaml :=
  YMap [("A", YMap [("codename", YStr "a");
                    ("sources",
                     YMap [("linux", YMap [("derived-from", YList [YStr "A"; YStr "linux"])])])])].

Definition cyclic_series : KernelSeries :=
  Eval cbv in
    match KS.init cyclic_document with
    | Ok ks => ks
    | Raise _ => empty_series
    end.

(** The first source of a series, as [sources[0]] reads it. *)
Definition first_source (ks : KernelSeries) (series : string) : option KernelSourceEntry :=
  match KS.lookup_series ks (YStr series) YNull (YBool false) with
  | Ok (Some e) =>
      match Series.sources e with
      | Ok (s :: _) => Some s
      | _ => None
      end
  | _ => None
  end.

(** ** Notions used to state the properties of the QA-tracker client *)

(** Lowering of the ASCII letters, the instance of [str.lower] used in the
    examples. *)
Definition lower_char (c : ascii) : ascii :=
  let n := nat_of_ascii c in
  if ((65 <=? n) && (n <=? 90))%nat then ascii_of_nat (n + 32) else c.

Fixpoint ascii_lower (s : string) : string :=
  match s with
  | EmptyString => EmptyString
  | String c rest => String (lower_char c) (ascii_lower rest)
  end.

(** The index that a name or a position denotes in a status list, if
    any: the position itself when it is in range, the first position of
    the name, compared without regard to case. *)
Definition resolves (lower : string → string) (status_list : list string)
           (entry : status_filter) : option Z :=
  match entry with
  | FInt z => if (0 <=? z) && (z <? Z.of_nat (length status_list)) then Some z else None
  | FStr s => Z.of_nat <$> index_of (lower s) (map lower status_list)
  | _ => None
  end.

(** A name or a position, not a list nor another object. *)
Definition name_or_position (entry : status_filter) : Prop :=
  match entry with
  | FInt _ | FStr _ => True
  | _ => False
  end.

(** A tracker for the examples: strings are their own text, no string is
    read as an integer or a date, and the server answers every call with
    an empty list. *)
Definition text_of (v : yaml) : string :=
  match v with YStr s => s | _ => "" end.
Definition xtext_of (x : xval) : string :=
  match x with XStr s => s | _ => "" end.
Definition no_number (s : string) : option Z := None.
Definition quiet_server (tr : list rpc_call) (c : rpc_call) : res xval := Ok (XList []).

Definition active_milestone : qobject :=
  {| q_class := QMilestone;
     q_attrs := [("id", AInt 7); ("status", AInt 0); ("title", AStr "Noble Daily")] |}.
Definition archived_milestone : qobject :=
  {| q_class := QMilestone;
     q_attrs := [("id", AInt 8); ("status", AInt 2); ("title", AStr "Jammy Final")] |}.
Definition active_product : qobject :=
  {| q_class := QProduct;
     q_attrs := [("id", AInt 3); ("status", AInt 0); ("title", AStr "Lubuntu Desktop amd64")] |}.

(** The data of a snap as the constructor leaves them: [arches] converted,
    a [promote-to] that is not a string, and a [stable]. *)
Definition normalized_snap (d : dict) : Prop :=
  (Dict.mem "publish-to" d = true ∨ Dict.get "arches" d = None) ∧
  (∃ v, Dict.get "promote-to" d = Some v ∧ KernelSnapEntry.is_string v = false) ∧
  Dict.mem "stable" d = true.

(** ** Further accessors of the kernel-series model *)

(** [v[0]] and [v[-1]] *)
Definition py_first (v : yaml) : res yaml :=
  match v with
  | YList l => match l with x :: _ => Ok x | [] => Raise IndexError end
  | YStr s =>
      match s with
      | String c _ => Ok (YStr (String c EmptyString))
      | EmptyString => Raise IndexError
      end
  | YMap _ => Raise KeyError
  | _ => Raise TypeError
  end.

Definition py_last (v : yaml) : res yaml :=
  match v with
  | YList l => match rev l with x :: _ => Ok x | [] => Raise IndexError end
  | YStr s =>
      match rev (list_ascii_of_string s) with
      | c :: _ => Ok (YStr (String c EmptyString))
      | [] => Raise IndexError
      end
  | YMap _ => Raise KeyError
  | _ => Raise TypeError
  end.

Module Accessors.

(** [KernelSnapEntry.promote_to_risk(risk)], on the data [d] of the entry *)
Definition promote_to_risk (d : yaml) (risk : string) : res bool :=
  promote_to ← py_get d "promote-to" (YList []);
  py_contains promote_to risk.

(** [KernelRoutingEntry.lookup_destination(dest, primary)] *)
Definition lookup_destination (r : KernelRoutingEntry) (dest : string) (primary : bool)
  : res yaml :=
  let data := match Dict.get dest (rt_data r) with Some x => x | None => YNull end in
  if negb primary || is_none data then Ok data else py_first data.

(** [KernelSourceEntry.version] *)
Definition version (fuel : nat) (ks : KernelSeries) (s : KernelSourceEntry)
  : option (res yaml) :=
  match Source.versions fuel ks s with
  | None => None
  | Some (Raise e) => Some (Raise e)
  | Some (Ok versions) =>
      Some (if negb (truthy versions) then Ok YNull else py_last versions)
  end.

(** [KernelSourceEntry.packages] *)
Definition packages (s : KernelSourceEntry) : res (list KernelPackageEntry) :=
  packages ← py_get (so_data s) "packages" YNull;
  if truthy packages then
    match packages with
    | YMap m =>
        Ok (map (fun kv => {| pk_source := s; pk_name := fst kv;
                              pk_data := or_empty (snd kv) |}) m)
    | _ => Raise AttributeError
    end
  else Ok [].

(** The loop of [KernelSourceEntry.snaps] *)
Fixpoint snap_entries (s : KernelSourceEntry) (items : dict) : res (list KernelSnapEntry) :=
  match items with
  | [] => Ok []
  | (snap_key, snap) :: rest =>
      d ← KernelSnapEntry.init snap;
      entries ← snap_entries s rest;
      Ok ({| sn_source := s; sn_name := snap_key; sn_data := d |} :: entries)
  end.

(** [KernelSourceEntry.snaps] *)
Definition snaps (s : KernelSourceEntry) : res (list KernelSnapEntry) :=
  snaps ← py_get (so_data s) "snaps" YNull;
  if truthy snaps then
    match snaps with
    | YMap m => snap_entries s m
    | _ => Raise AttributeError
    end
  else Ok [].

(** [KernelSeriesEntry.opening] *)
Definition opening (s : KernelSeriesEntry) : bool :=
  match Dict.get "opening" (se_data s) with
  | Some v => negb (is_False v)
  | None => false
  end.

(** [allow in (True, False)]: equality with [True] or with [False] *)
Definition is_true_or_false (allow : yaml) : bool :=
  py_eq allow (YBool true) || py_eq allow (YBool false).

(** The loop of [opening_ready] over the flags *)
Fixpoint flags_allowed (allow : yaml) (flags : list string) : res bool :=
  match flags with
  | [] => Ok true
  | flag :: rest =>
      flag_allow ← py_get allow flag (YBool false);
      if is_none flag_allow || is_False flag_allow then Ok false
      else flags_allowed allow rest
  end.

(** [KernelSeriesEntry.opening_ready], called with the flags [flags] *)
Definition opening_ready (s : KernelSeriesEntry) (flags : list string) : res bool :=
  match Dict.get "opening" (se_data s) with
  | None => Ok true
  | Some allow =>
      if is_none allow then Ok false
      else if is_true_or_false allow then Ok (negb (truthy allow))
      else flags_allowed allow flags
  end.

End Accessors.

(** The [promote-to] that the constructor of a snap arrives at, from the
    mapping [m] it is given. *)
Definition promoted (m : dict) : yaml :=
  match Dict.get "promote-to" m with
  | None =>
      YList (map YStr
               (KernelSnapEntry.expand KernelSnapEntry.risks
                  match Dict.get "stable" m with
                  | None => "edge"
                  | Some s => if is_True s then "stable" else "candidate"
                  end))
  | Some (YStr p) => YList (map YStr (KernelSnapEntry.expand KernelSnapEntry.risks p))
  | Some v => v
  end.

(** The view of series [A] of the two-series document. *)
Definition series_A : KernelSeriesEntry :=
  Eval cbv in
    match KS.lookup_series two_series (YStr "A") YNull (YBool false) with
    | Ok (Some e) => e
    | _ => {| se_name := ""; se_data := [] |}
    end.

(** A source with two snaps. *)
Definition snapped_source : KernelSourceEntry :=
  {| so_series := {| se_name := "18.04"; se_data := [("codename", YStr "bionic")] |};
     so_name := "linux";
     so_data := YMap [("snaps",
                       YMap [("pc-kernel", YMap [("arches", YList [YStr "amd64"]);
                                                 ("track", YStr "18")]);
                             ("core", YMap [("stable", YBool true)])])] |}.

(** [KernelSourceTestingFlavourEntry] *)
Record KernelSourceTestingFlavourEntry : Type := {
  fl_name : string;
  fl_arches : yaml;
  fl_clouds : yaml
}.

Module Testing.

(** The loop of [testable_flavours] over the keys of the flavours
    [flavours] *)
Fixpoint flavour_entries (flavours : yaml) (keys : list string)
  : res (list KernelSourceTestingFlavourEntry) :=
  match keys with
  | [] => Ok []
  | flavour :: rest =>
      fdata ← py_getitem flavours flavour;
      if negb (truthy fdata) then flavour_entries flavours rest else
      arches ← py_get fdata "arches" YNull;
      let arches := if negb (is_none arches) then arches else YList [] in
      clouds ← py_get fdata "clouds" YNull;
      let clouds := if negb (is_none clouds) then clouds else YList [] in
      retval ← flavour_entries flavours rest;
      Ok ({| fl_name := flavour; fl_arches := arches; fl_clouds := clouds |} :: retval)
  end.

(** [KernelSourceEntry.testable_flavours] *)
Definition testable_flavours (s : KernelSourceEntry)
  : res (list KernelSourceTestingFlavourEntry) :=
  testing ← py_get (so_data s) "testing" YNull;
  if is_none testing then Ok [] else
  testing ← py_getitem (so_data s) "testing";
  flavours ← py_get testing "flavours" YNull;
  if is_none flavours then Ok [] else
  match flavours with
  | YMap m => flavour_entries flavours (Dict.keys m)
  | _ => Raise AttributeError
  end.

End Testing.

(** A series that is being opened: its repositories are ready, its builds
    are not. *)
Definition opening_series : KernelSeriesEntry :=
  {| se_name := "24.10";
     se_data := [("codename", YStr "oracular");
                 ("opening", YMap [("repositories", YBool true);
                                   ("builds", YBool false);
                                   ("tasks", YNull)])] |}.

(** A source with three flavours, one of them without data. *)
Definition flavoured_source : KernelSourceEntry :=
  {| so_series := {| se_name := "18.04"; se_data := [("codename", YStr "bionic")] |};
     so_name := "linux";
     so_data := YMap [("testing",
                       YMap [("flavours",
                              YMap [("generic", YMap [("arches", YList [YStr "amd64"])]);
                                    ("lowlatency", YNull);
                                    ("aws", YMap [("clouds", YList [YStr "aws"])])])])] |}.

(** A source derived from a source of a series that the document lacks. *)
Definition dangling_source : KernelSourceEntry :=
  {| so_series := series_A;
     so_name := "linux-hwe";
     so_data := YMap [("derived-from", YList [YStr "C"; YStr "linux"])] |}.

(** ** Updates through the QA-tracker client *)

(** A record filter as the getters send it: indexes of [status_list], each
    one once, and at least one. *)
Definition valid_filter (status_list : list string) (ids : list Z) : Prop :=
  ids ≠ [] ∧ List.NoDup ids ∧ ∀ i, In i ids → 0 <= i < Z.of_nat (length status_list).

(** The remote methods used by [QATrackerResult] and [QATrackerRebuild]. *)
Inductive update_call : Type :=
| results_delete (id : attr)
| results_update (id result comment hardware bugs : attr)
| rebuilds_update_status (id status : attr).

(** A [QATrackerResult]: its attributes and its private flag [__deleted]. *)
Record QATrackerResult : Type := {
  rs_object : qobject;
  rs_deleted : bool
}.

(** [retval is not True] *)
Definition is_not_True (retval : xval) : bool :=
  match retval with XBool true => false | _ => true end.

Section QATrackerUpdates.

(** The remote end and the access level, as for the getters. *)
Variable server : list update_call → update_call → res xval.
Variable access : option string.

(** [QATrackerResult.delete]; the result is the object as the method
    leaves it, and an exception leaves it as it was. *)
Definition delete (self : QATrackerResult) (tr : list update_call)
  : res QATrackerResult * list update_call :=
  if match access with
     | Some a => negb (String.eqb a "user" || String.eqb a "admin")
     | None => false
     end
  then (Raise PyException, tr) else
  if rs_deleted self then (Raise IndexError, tr) else
  match getattr (rs_object self) "id" with
  | Raise e => (Raise e, tr)
  | Ok id =>
      let call := results_delete id in
      match server tr call with
      | Raise e => (Raise e, tr ++ [call])
      | Ok retval =>
          if is_not_True retval then (Raise PyException, tr ++ [call]) else
          (Ok {| rs_object :=
                   {| q_class := q_class (rs_object self);
                      q_attrs := Dict.set "status" (AInt 1) (q_attrs (rs_object self)) |};
                 rs_deleted := true |},
           tr ++ [call])
      end
  end.

(** [QATrackerResult.save] *)
Definition save (self : QATrackerResult) (tr : list update_call)
  : res xval * list update_call :=
  if match access with
     | Some a => negb (String.eqb a "user" || String.eqb a "admin")
     | None => false
     end
  then (Raise PyException, tr) else
  if rs_deleted self then (Raise IndexError, tr) else
  match (id ← getattr (rs_object self) "id";
         result ← getattr (rs_object self) "result";
         comment ← getattr (rs_object self) "comment";
         hardware ← getattr (rs_object self) "hardware";
         bugs ← getattr (rs_object self) "bugs";
         Ok (results_update id result comment hardware bugs)) with
  | Raise e => (Raise e, tr)
  | Ok call =>
      match server tr call with
      | Raise e => (Raise e, tr ++ [call])
      | Ok retval =>
          if is_not_True retval then (Raise PyException, tr ++ [call])
          else (Ok retval, tr ++ [call])
      end
  end.

(** [QATrackerRebuild.save] *)
Definition rebuild_save (self : qobject) (tr : list update_call)
  : res xval * list update_call :=
  if match access with
     | Some a => negb (String.eqb a "admin")
     | None => false
     end
  then (Raise PyException, tr) else
  match (id ← getattr self "id";
         status ← getattr self "status";
         Ok (rebuilds_update_status id status)) with
  | Raise e => (Raise e, tr)
  | Ok call =>
      match server tr call with
      | Raise e => (Raise e, tr ++ [call])
      | Ok retval =>
          if is_not_True retval then (Raise PyException, tr ++ [call])
          else (Ok retval, tr ++ [call])
      end
  end.

End QATrackerUpdates.

(** ** The ISO tracker *)

Section ISOTracker.

Variable lower : string → string.

(** The loop of [get_product_by_name] and of [get_milestone_by_name] *)
Fixpoint get_by_name (entries : list qobject) (name : string) : res qobject :=
  match entries with
  | [] => Raise KeyError
  | entry :: rest =>
      title ← getattr entry "title";
      match title with
      | AStr title =>
          if String.eqb (lower title) (lower name) then Ok entry
          else get_by_name rest name
      | _ => Raise AttributeError
      end
  end.

(** [ISOTracker.get_product_by_name(product)] and
    [ISOTracker.get_milestone_by_name(milestone)], over the products and
    the milestones that the constructor fetched *)
Definition get_product_by_name (tracker_products : list qobject) (product : string)
  : res qobject :=
  get_by_name tracker_products product.
Definition get_milestone_by_name (tracker_milestones : list qobject) (milestone : string)
  : res qobject :=
  get_by_name tracker_milestones milestone.

(** [ISOTracker.default_milestone]; [config section option] is the value
    that the configuration file gives, [None] where [config.get] raises
    [NoSectionError] or [NoOptionError]. *)
Definition default_milestone (target : option string)
           (config : string → string → option string)
           (tracker_milestones : list qobject) : res qobject :=
  let milestone_name : option string := None in
  let milestone_name :=
    match target with
    | Some t =>
        if negb (String.eqb t "") then
          match config t "default_milestone" with
          | Some name => Some name
          | None => milestone_name
          end
        else milestone_name
    | None => milestone_name
    end in
  let milestone_name :=
    match milestone_name with
    | Some (String _ _) => milestone_name
    | _ =>
        match config "general" "default_milestone" with
        | Some name => Some name
        | None => milestone_name
        end
    end in
  match milestone_name with
  | Some (String c name) => get_milestone_by_name tracker_milestones (String c name)
  | _ => Raise KeyError
  end.

End ISOTracker.

(** A result entry, and a server that accepts every update. *)
Definition posted_result : QATrackerResult :=
  {| rs_object :=
       {| q_class := QResult;
          q_attrs := [("id", AInt 41); ("result", AInt 1); ("status", AInt 0);
                      ("comment", AStr "boots"); ("hardware", AStr "");
                      ("bugs", AStr "")] |};
     rs_deleted := false |}.
Definition accepting_server (tr : list update_call) (c : update_call) : res xval :=
  Ok (XBool true).

(** ** Notions used to state the properties of the QA-tracker client *)

(** The build that [add_build] looks for among the builds of the
    milestone, and the product that it looks for among the products. *)
Definition build_matches (product_id : attr) (version : string) (b : qobject) : Prop :=
  ∃ p v, getattr b "productid" = Ok p ∧ attr_eq p product_id = true ∧
         getattr b "version" = Ok v ∧ attr_eq v (AStr version) = true.

Definition product_matches (lower : string → string) (py_str : yaml → string)
           (product : yaml) (p : qobject) : Prop :=
  (∃ t, getattr p "title" = Ok (AStr t) ∧ lower t = lower (py_str product)) ∨
  (∃ id, getattr p "id" = Ok id ∧ attr_eq_value id product = true).

(** The kind of attribute that the constructor of an object of class [c]
    leaves under [key]. *)
Definition converted (c : qclass) (key : string) (a : attr) : Prop :=
  if mem_str key (CONVERT_INT c) then a = ANone ∨ ∃ z, a = AInt z
  else if mem_str key (CONVERT_BOOL c) then ∃ b, a = ABool b
  else if mem_str key (CONVERT_DATE c) then a = ANone ∨ ∃ t, a = ADate t
  else ∃ s, a = AStr s.

(** A bug number with its importance, as [add_result] accepts them. *)
Definition valid_bug (item : yaml * yaml) : Prop :=
  is_int (fst item) = true ∧ 0 < int_of (fst item) ∧
  is_int (snd item) = true ∧ (int_of (snd item) = 0 ∨ int_of (snd item) = 1).

(** A build of product 3 among builds of other products and versions. *)
Definition some_builds : list qobject :=
  [ {| q_class := QBuild;
       q_attrs := [("id", AInt 10); ("productid", AInt 2); ("version", AStr "20240101")] |};
    {| q_class := QBuild;
       q_attrs := [("id", AInt 11); ("productid", AInt 3); ("version", AStr "20231231")] |};
    {| q_class := QBuild;
       q_attrs := [("id", AInt 12); ("productid", AInt 3); ("version", AStr "20240101")] |} ].

(** An object with a title, as the tracker sends every product and
    milestone. *)
Definition titled (o : qobject) : Prop := ∃ t, getattr o "title" = Ok (AStr t).

(** A configuration file with a default milestone for the target
    [noble] and one for every target. *)
Definition some_config (section key : string) : option string :=
  if String.eqb key "default_milestone" then
    if String.eqb section "noble" then Some "noble daily"
    else if String.eqb section "general" then Some "Jammy Final"
    else None
  else None.

(** * Properties *)

(** ** Dictionaries *)

Section DictFacts.

Context {V : Type}.
Implicit Types (m : list (string * V)) (k : string) (v : V).

Lemma get_set_eq m k v : Dict.get k (Dict.set k v m) = Some v.
Proof.
  induction m as [|[k' v'] m IH]; simpl.
  - now rewrite String.eqb_refl.
  - destruct (String.eqb k k') eqn:E; simpl; rewrite E; auto.
Qed.

Lemma get_set_ne m k k' v : k ≠ k' → Dict.get k' (Dict.set k v m) = Dict.get k' m.
Proof.
  intros Hne. induction m as [|[k0 v0] m IH]; simpl.
  - destruct (String.eqb k' k) eqn:E; auto.
    apply String.eqb_eq in E. congruence.
  - destruct (String.eqb k k0) eqn:E; simpl.
    + apply String.eqb_eq in E. subst k0.
      destruct (String.eqb k' k) eqn:E'; auto.
      apply String.eqb_eq in E'. congruence.
    + now rewrite IH.
Qed.

Lemma get_set m k k' v :
  Dict.get k' (Dict.set k v m) = if String.eqb k k' then Some v else Dict.get k' m.
Proof.
  destruct (String.eqb k k') eqn:E.
  - apply String.eqb_eq in E. subst. apply get_set_eq.
  - apply String.eqb_neq in E. now apply get_set_ne.
Qed.

Lemma mem_get m k : Dict.mem k m = true ↔ ∃ v, Dict.get k m = Some v.
Proof.
  unfold Dict.mem. destruct (Dict.get k m); split; eauto; try discriminate.
  intros [v Hv]. discriminate.
Qed.

Lemma mem_get_none m k : Dict.mem k m = false ↔ Dict.get k m = None.
Proof. unfold Dict.mem. destruct (Dict.get k m); split; auto; discriminate. Qed.

Lemma get_in m k v : Dict.get k m = Some v → In (k, v) m.
Proof.
  induction m as [|[k' v'] m IH]; simpl; [discriminate|].
  destruct (String.eqb k k') eqn:E.
  - apply String.eqb_eq in E. intros [= ->]. subst. now left.
  - intros H. right. auto.
Qed.

Lemma get_in_keys m k v : Dict.get k m = Some v → In k (Dict.keys m).
Proof. intros H. apply get_in in H. apply (in_map fst) in H. exact H. Qed.

Lemma get_not_in_keys m k : ¬ In k (Dict.keys m) → Dict.get k m = None.
Proof.
  intros H. destruct (Dict.get k m) eqn:E; auto.
  apply get_in_keys in E. contradiction.
Qed.

Lemma in_get_nodup m k v : List.NoDup (Dict.keys m) → In (k, v) m → Dict.get k m = Some v.
Proof.
  induction m as [|[k' v'] m IH]; simpl; [tauto|].
  intros Hnd [H|H].
  - injection H as -> ->. now rewrite String.eqb_refl.
  - apply NoDup_cons_iff in Hnd as [Hk Hnd].
    destruct (String.eqb k k') eqn:E.
    + apply String.eqb_eq in E. subst k'.
      exfalso. apply Hk. apply (in_map fst) in H. exact H.
    + auto.
Qed.

End DictFacts.

(** ** Snap normalization *)

Module SnapFacts.
Import KernelSnapEntry.

Lemma or_empty_map (m : dict) : or_empty (YMap m) = YMap m.
Proof. now destruct m. Qed.

Lemma publish_loop_strings (m : dict) (archs : list string) (acc : dict) :
  publish_loop (YMap m) (map YStr archs) acc
  = Ok (fold_left (fun acc a => Dict.set a (YList [track_of m]) acc) archs acc).
Proof.
  revert acc. induction archs as [|a archs IH]; intros acc; simpl; auto.
Qed.

Lemma fold_publish_get (t : yaml) (archs : list string) (acc : dict) (a : string) :
  Dict.get a (fold_left (fun acc a => Dict.set a (YList [t]) acc) archs acc)
  = if existsb (String.eqb a) archs then Some (YList [t]) else Dict.get a acc.
Proof.
  revert acc. induction archs as [|b archs IH]; intros acc; simpl; auto.
  rewrite IH, get_set.
  destruct (existsb (String.eqb a) archs); [now rewrite orb_true_r|].
  rewrite orb_false_r, (String.eqb_sym b a). reflexivity.
Qed.

Lemma strings_of (l : list yaml) :
  forallb is_string l = true → ∃ archs, l = map YStr archs.
Proof.
  induction l as [|x l IH]; simpl; intros H.
  - now exists [].
  - apply andb_true_iff in H as [Hx Hl]. destruct (IH Hl) as [archs ->].
    destruct x; try discriminate. now exists (s :: archs).
Qed.

Lemma convert_arches_map (m : dict) :
  convert_arches (YMap m) =
    if Dict.mem "publish-to" m then Ok (YMap m) else
    match Dict.get "arches" m with
    | None => Ok (YMap m)
    | Some arches =>
        items ← py_iter arches;
        publish_to ← publish_loop (YMap m) items [];
        Ok (YMap (Dict.set "publish-to" (YMap publish_to) m))
    end.
Proof.
  unfold convert_arches. simpl. destruct (Dict.mem "publish-to" m); simpl; auto.
  unfold Dict.mem. destruct (Dict.get "arches" m); simpl; auto.
Qed.

Lemma convert_stable_map (m : dict) :
  convert_stable (YMap m) =
    Ok (YMap (if Dict.mem "promote-to" m then m else
              match Dict.get "stable" m with
              | None => m
              | Some s =>
                  Dict.set "promote-to"
                    (YStr (if is_True s then "stable" else "candidate")) m
              end)).
Proof.
  unfold convert_stable. simpl. destruct (Dict.mem "promote-to" m); simpl; auto.
  unfold Dict.mem. destruct (Dict.get "stable" m) as [s|]; simpl; auto.
  now destruct (is_True s).
Qed.

Lemma expand_promote_to_map (m : dict) :
  expand_promote_to (YMap m) =
    Ok (YMap (match Dict.get "promote-to" m with
              | None => Dict.set "promote-to" (YList (map YStr (expand risks "edge"))) m
              | Some (YStr p) => Dict.set "promote-to" (YList (map YStr (expand risks p))) m
              | Some _ => m
              end)).
Proof.
  unfold expand_promote_to. simpl.
  destruct (Dict.get "promote-to" m) as [[]|]; reflexivity.
Qed.

Lemma ensure_stable_map (m : dict) :
  ensure_stable (YMap m) =
    match Dict.get "promote-to" m with
    | None => Ok (YMap m)
    | Some pt =>
        if Dict.mem "stable" m then Ok (YMap m) else
        b ← py_contains pt "stable";
        Ok (YMap (Dict.set "stable" (YBool b) m))
    end.
Proof.
  unfold ensure_stable. simpl. unfold Dict.mem at 1.
  destruct (Dict.get "promote-to" m); simpl; auto.
  destruct (Dict.mem "stable" m); simpl; auto.
Qed.

(** The risks kept are always a prefix of the ladder. *)
Lemma expand_prefix (ladder : list string) (p : string) :
  ∃ n, expand ladder p = firstn n ladder.
Proof.
  induction ladder as [|r ladder [n IH]]; simpl.
  - now exists O.
  - destruct (String.eqb r p).
    + now exists 1%nat.
    + exists (S n). simpl. now rewrite IH.
Qed.

Lemma ladder_prefix_expand (p : string) :
  ladder_prefix (YList (map YStr (expand risks p))).
Proof. destruct (expand_prefix risks p) as [n ->]. now exists n. Qed.

(** The constructor on a mapping, block by block. *)
Lemma init_map (m : dict) :
  init (YMap m) =
    m1 ← convert_arches (YMap m);
    m2 ← convert_stable m1;
    m3 ← expand_promote_to m2;
    ensure_stable m3.
Proof. unfold init. now rewrite or_empty_map. Qed.

End SnapFacts.

Module SnapProps.
Import KernelSnapEntry SnapFacts.

Ltac snap_gets :=
  repeat first
    [ rewrite get_set_eq
    | rewrite get_set_ne by discriminate ].

Ltac conjs := repeat match goal with |- _ ∧ _ => split end.

#[local] Arguments expand : simpl never.

Lemma facts_of_string (m d : dict) (p : string) :
  Dict.get "promote-to" m = Some (YStr p) →
  Dict.get "promote-to" d = Some (YList (map YStr (expand risks p))) →
  (Dict.get "stable" m = None →
     Dict.get "stable" d
     = Some (YBool (existsb (is_str_eq "stable") (map YStr (expand risks p))))) →
  promote_facts m d.
Proof.
  intros Hm Hd Hs. unfold promote_facts. rewrite Hm, Hd. conjs.
  - discriminate.
  - intros [= ->] Hn. split; [reflexivity|]. now rewrite (Hs Hn).
  - discriminate.
  - intros _. eexists; split; [reflexivity|]. apply ladder_prefix_expand.
  - discriminate.
Qed.

Lemma facts_of_other (m d : dict) (pt : yaml) :
  Dict.get "promote-to" m = Some pt → (∀ p, pt ≠ YStr p) →
  Dict.get "promote-to" d = Some pt →
  promote_facts m d.
Proof.
  intros Hm Hns Hd. unfold promote_facts. rewrite Hm, Hd. conjs.
  - discriminate.
  - intros [= E]. now destruct (Hns "beta").
  - discriminate.
  - intros [E|[p [= E]]]; [discriminate|]. now destruct (Hns p).
  - intros l [= ->]. reflexivity.
Qed.

Lemma facts_of_absent (m d : dict) :
  Dict.get "promote-to" m = None →
  (∀ s, Dict.get "stable" m = Some s →
     Dict.get "promote-to" d
     = Some (YList (map YStr (expand risks (if is_True s then "stable" else "candidate")))) ∧
     Dict.get "stable" d = Some s) →
  (Dict.get "stable" m = None →
     Dict.get "promote-to" d = Some (YList [YStr "edge"])) →
  promote_facts m d.
Proof.
  intros Hm Hs Hn. unfold promote_facts. rewrite Hm. conjs.
  - intros _ Ht. destruct (Hs _ Ht) as [-> ->]. now split.
  - discriminate.
  - intros _ Hnone. auto.
  - intros _. destruct (Dict.get "stable" m) as [s|] eqn:E.
    + destruct (Hs s eq_refl) as [-> _]. eexists; split; [reflexivity|].
      apply ladder_prefix_expand.
    + rewrite (Hn eq_refl). eexists; split; [reflexivity|]. now exists 1%nat.
  - discriminate.
Qed.

Lemma promote_blocks (m : dict) :
  promote_ok m = true →
  ∃ d, (m2 ← convert_stable (YMap m); m3 ← expand_promote_to m2; ensure_stable m3)
       = Ok (YMap d) ∧
       Dict.get "publish-to" d = Dict.get "publish-to" m ∧
       promote_facts m d.
Proof.
  intros Hok. rewrite convert_stable_map.
  change (∃ d, (m3 ← expand_promote_to
                      (YMap (if Dict.mem "promote-to" m then m else
                             match Dict.get "stable" m with
                             | None => m
                             | Some s =>
                                 Dict.set "promote-to"
                                   (YStr (if is_True s then "stable" else "candidate")) m
                             end)); ensure_stable m3) = Ok (YMap d) ∧
               Dict.get "publish-to" d = Dict.get "publish-to" m ∧ promote_facts m d).
  rewrite expand_promote_to_map.
  match goal with |- ∃ d, (m3 ← Ok ?x; _) = _ ∧ _ => change (∃ d, ensure_stable x = Ok (YMap d) ∧
               Dict.get "publish-to" d = Dict.get "publish-to" m ∧ promote_facts m d) end.
  rewrite ensure_stable_map.
  unfold promote_ok in Hok. unfold Dict.mem in *.
  destruct (Dict.get "promote-to" m) as [pt|] eqn:Hpt.
  - rewrite Hpt.
    assert (Hcases :
      (∃ p, pt = YStr p) ∨
      ((∀ p, pt ≠ YStr p) ∧
       ((∃ s, Dict.get "stable" m = Some s) ∨ ∃ b, py_contains pt "stable" = Ok b))).
    { destruct pt; eauto; right; (split; [discriminate|]); simpl; eauto;
        destruct (Dict.get "stable" m); eauto; discriminate. }
    destruct Hcases as [[p ->]|[Hns Hst]].
    + snap_gets. destruct (Dict.get "stable" m) as [s|] eqn:Hs.
      * eexists; split; [reflexivity|]. snap_gets. split; [reflexivity|].
        eapply facts_of_string; eauto; snap_gets; auto. congruence.
      * unfold py_contains.
        eexists; split; [reflexivity|]. snap_gets. split; [reflexivity|].
        eapply facts_of_string; eauto; snap_gets; auto.
    + assert (Hm3 :
        match pt with
        | YStr p => Dict.set "promote-to" (YList (map YStr (expand risks p))) m
        | _ => m
        end = m).
      { destruct pt; auto. now destruct (Hns s). }
      rewrite Hm3, Hpt.
      destruct (Dict.get "stable" m) as [s|] eqn:Hs.
      * exists m. conjs; auto. eapply facts_of_other; eauto.
      * destruct Hst as [[s Hst]|[b Hb]]; [discriminate|].
        rewrite Hb. eexists; split; [reflexivity|].
        snap_gets. split; [reflexivity|].
        eapply facts_of_other; eauto. now snap_gets.
  - destruct (Dict.get "stable" m) as [s|] eqn:Hs.
    + snap_gets. rewrite Hs.
      eexists; split; [reflexivity|]. snap_gets. split; [reflexivity|].
      apply facts_of_absent; auto.
      * intros s' Hs'. rewrite Hs in Hs'. injection Hs' as <-.
        snap_gets. now split.
      * congruence.
    + rewrite Hpt. snap_gets. rewrite Hs.
      eexists; split; [reflexivity|]. snap_gets. split; [reflexivity|].
      apply facts_of_absent; auto.
      * congruence.
      * intros _. now snap_gets.
Qed.

Lemma promote_facts_ext (m m' d : dict) :
  Dict.get "promote-to" m' = Dict.get "promote-to" m →
  Dict.get "stable" m' = Dict.get "stable" m →
  promote_facts m' d → promote_facts m d.
Proof. unfold promote_facts. now intros -> ->. Qed.

Lemma arches_block (m : dict) :
  arches_ok m = true →
  ∃ m1, convert_arches (YMap m) = Ok (YMap m1) ∧
        (∀ k, k ≠ "publish-to" → Dict.get k m1 = Dict.get k m) ∧
        (Dict.get "publish-to" m = None →
         ∀ archs, Dict.get "arches" m = Some (YList (map YStr archs)) →
         ∃ pt, Dict.get "publish-to" m1 = Some (YMap pt) ∧
               ∀ a, Dict.get a pt =
                    if existsb (String.eqb a) archs
                    then Some (YList [track_of m]) else None).
Proof.
  intros Hok. rewrite convert_arches_map. unfold arches_ok in Hok.
  destruct (Dict.mem "publish-to" m) eqn:Hp.
  - exists m. conjs; auto. intros Hn. apply mem_get in Hp as [v Hv]. congruence.
  - simpl in Hok. destruct (Dict.get "arches" m) as [arches|] eqn:Ha.
    + destruct arches; try discriminate.
      destruct (strings_of _ Hok) as [archs ->].
      simpl. rewrite publish_loop_strings. simpl.
      eexists; split; [reflexivity|]. split.
      * intros k Hk. apply get_set_ne. congruence.
      * intros _ archs' [= E]. apply (f_equal (map (fun v =>
          match v with YStr s => s | _ => "" end))) in E.
        rewrite !map_map, !map_id in E. subst archs'.
        eexists; split; [apply get_set_eq|].
        intros a. now rewrite fold_publish_get.
    + exists m. conjs; auto. discriminate.
Qed.

(** C1, as the constructor has it.  For every snap mapping [m] whose
    [arches], where they are to be converted, are a list of strings, and
    whose [promote-to], where it is neither a string nor a container,
    comes with a [stable], the constructor returns, and in the data [d]
    that it leaves:
    - if [m] has [arches] and no [publish-to], [publish-to] maps exactly
      the listed arches, each to the one-element list of the [track]
      value (["latest"] when there is no [track]);
    - [stable: true] without [promote-to] gives the whole ladder and
      keeps [stable] true;
    - [promote-to: "beta"] without [stable] gives [edge, beta] and
      [stable] false;
    - with neither, [promote-to] is [edge] alone;
    - whenever [m] has no [promote-to] or a string one, [promote-to] is
      a prefix of the ladder edge, beta, candidate, stable;
    - a [promote-to] given as a list is kept as it is. *)
Theorem snap_normalization (m : dict) :
  arches_ok m = true → promote_ok m = true →
  ∃ d, init (YMap m) = Ok (YMap d) ∧
    (Dict.get "publish-to" m = None →
     ∀ archs, Dict.get "arches" m = Some (YList (map YStr archs)) →
     ∃ pt, publish_to (YMap d) = Ok (YMap pt) ∧
           ∀ a, Dict.get a pt =
                if existsb (String.eqb a) archs
                then Some (YList [track_of m]) else None) ∧
    (Dict.get "promote-to" m = None → Dict.get "stable" m = Some (YBool true) →
       Dict.get "promote-to" d = Some (YList (map YStr risks)) ∧
       Dict.get "stable" d = Some (YBool true)) ∧
    (Dict.get "promote-to" m = Some (YStr "beta") → Dict.get "stable" m = None →
       Dict.get "promote-to" d = Some (YList [YStr "edge"; YStr "beta"]) ∧
       Dict.get "stable" d = Some (YBool false)) ∧
    (Dict.get "promote-to" m = None → Dict.get "stable" m = None →
       Dict.get "promote-to" d = Some (YList [YStr "edge"])) ∧
    (Dict.get "promote-to" m = None ∨ (∃ p, Dict.get "promote-to" m = Some (YStr p)) →
       ∃ v, Dict.get "promote-to" d = Some v ∧ ladder_prefix v) ∧
    (∀ l, Dict.get "promote-to" m = Some (YList l) →
       Dict.get "promote-to" d = Some (YList l)).
Proof.
  intros Ha Hp. rewrite init_map.
  destruct (arches_block m Ha) as (m1 & -> & Hsame & Hpub).
  assert (Hpt : Dict.get "promote-to" m1 = Dict.get "promote-to" m)
    by (apply Hsame; discriminate).
  assert (Hst : Dict.get "stable" m1 = Dict.get "stable" m)
    by (apply Hsame; discriminate).
  destruct (promote_blocks m1) as (d & Hd & Hpd & Hfacts).
  { unfold promote_ok, Dict.mem in *. now rewrite Hpt, Hst. }
  exists d. split; [exact Hd|]. split.
  - intros Hn archs Harch. destruct (Hpub Hn archs Harch) as (pt & Hget & Hall).
    exists pt. split; auto. unfold publish_to. simpl. now rewrite Hpd, Hget.
  - apply (promote_facts_ext m m1 d Hpt Hst Hfacts).
Qed.

(** The input of the specification: [{arches: [amd64, arm64], track: "18"}]. *)
Lemma snap_normalization_witness :
  ∃ d, init (YMap [("arches", YList [YStr "amd64"; YStr "arm64"]); ("track", YStr "18")])
       = Ok (YMap d) ∧
       Dict.get "promote-to" d = Some (YList [YStr "edge"]).
Proof.
  destruct (snap_normalization
              [("arches", YList [YStr "amd64"; YStr "arm64"]); ("track", YStr "18")]
              eq_refl eq_refl) as (d & Hd & _ & _ & _ & Hedge & _).
  exists d. split; [exact Hd|]. now apply Hedge.
Defined.

(** C1 as stated fails: a [promote-to] given as a list is not expanded,
    and [[stable]] is no prefix of the ladder. *)
Lemma snap_promote_to_list_kept :
  ∃ d, init (YMap [("promote-to", YList [YStr "stable"])]) = Ok d ∧
       promote_to d = Ok (YList [YStr "stable"]) ∧
       ¬ ladder_prefix (YList [YStr "stable"]).
Proof.
  eexists. split; [reflexivity|]. split; [reflexivity|].
  intros [n Hn]. destruct n as [|[|n]]; discriminate.
Qed.

End SnapProps.

(** ** Defaults inheritance *)

Module SeriesFacts.

Lemma get_update (m other : dict) (k : string) :
  List.NoDup (Dict.keys other) →
  Dict.get k (Dict.update m other)
  = match Dict.get k other with Some v => Some v | None => Dict.get k m end.
Proof.
  unfold Dict.update. revert m.
  induction other as [|[k1 v1] other IH]; intros m Hnd; simpl; auto.
  simpl in Hnd. apply List.NoDup_cons_iff in Hnd as [Hk Hnd].
  rewrite (IH _ Hnd). simpl.
  destruct (String.eqb k k1) eqn:E.
  - apply String.eqb_eq in E. subst k1.
    rewrite (get_not_in_keys _ _ Hk). apply get_set_eq.
  - destruct (Dict.get k other); auto.
    apply get_set_ne. intros ->. now rewrite String.eqb_refl in E.
Qed.

Lemma update_false (m m' : dict) (v : yaml) :
  truthy v = false → (∀ o, v ≠ YMap o) → py_update m v = Ok m' → m' = m.
Proof.
  intros Hf Hn. destruct v as [| | |s|l|o]; simpl; try discriminate.
  - destruct s; [|discriminate]. simpl. now intros [= ->].
  - destruct l; [|discriminate]. simpl. now intros [= ->].
  - now destruct (Hn o).
Qed.

Lemma update_get (m m' : dict) (v : yaml) (k : string) :
  map_or_false v → (v ≠ YNull → py_update m v = Ok m') → (v = YNull → m' = m) →
  Dict.get k m' = match get_of v k with Some x => Some x | None => Dict.get k m end.
Proof.
  intros [(o & -> & Hnd)|[Hf Hn]] Hu Hnull.
  - simpl in *. specialize (Hu ltac:(discriminate)). injection Hu as <-.
    now apply get_update.
  - assert (get_of v k = None) as -> by (destruct v; auto; now destruct (Hn m0)).
    destruct v; try (rewrite (update_false m m' _ Hf Hn (Hu ltac:(discriminate))); auto).
    now rewrite Hnull.
Qed.

Lemma init_get (name : string) (data defaults : yaml) (e : KernelSeriesEntry) (k : string) :
  map_or_false data → map_or_false defaults →
  Series.init name data defaults = Ok e →
  se_name e = name ∧
  Dict.get k (se_data e)
  = match get_of data k with Some x => Some x | None => get_of defaults k end.
Proof.
  intros Hdata Hdef. unfold Series.init.
  destruct (if negb (is_none defaults) then py_update [] defaults else Ok [])
    as [d1|] eqn:E1; simpl; [|discriminate].
  destruct (if negb (is_none data) then py_update d1 data else Ok d1)
    as [d2|] eqn:E2; simpl; [|discriminate].
  intros [= <-]. simpl. split; auto.
  rewrite (update_get d1 d2 data k Hdata).
  - rewrite (update_get [] d1 defaults k Hdef).
    + simpl. now destruct (get_of defaults k).
    + intros Hn. destruct defaults; simpl in *; congruence.
    + intros ->. simpl in E1. congruence.
  - intros Hn. destruct data; simpl in *; congruence.
  - intros ->. simpl in E2. congruence.
Qed.

Lemma scan_values (items : dict) dev c2s r :
  KS.scan items dev c2s = Ok r →
  ∀ k v, In (k, v) items → truthy v = true → ∃ m, v = YMap m.
Proof.
  revert dev c2s. induction items as [|[k0 v0] items IH]; intros dev c2s; simpl.
  - intros _ k v [].
  - intros Hscan k v [[= -> ->]|Hin] Ht.
    + rewrite Ht in Hscan. simpl in Hscan. destruct v; try discriminate. eauto.
    + destruct (truthy v0); simpl in Hscan; [|eauto].
      destruct (py_get v0 "development" (YBool false)); simpl in Hscan; [|discriminate].
      destruct (py_contains v0 "codename") as [[]|]; simpl in Hscan; try discriminate; eauto.
      destruct (py_getitem v0 "codename"); simpl in Hscan; [|discriminate].
      destruct (as_key a0); simpl in Hscan; [|discriminate]. eauto.
Qed.

Lemma in_del {V} (m : list (string * V)) (k0 : string) (kv : string * V) :
  In kv (Dict.del k0 m) → In kv m.
Proof.
  induction m as [|[k1 v1] m IH]; simpl; auto.
  destruct (String.eqb k0 k1); simpl; intuition.
Qed.

Lemma nodup_del {V} (m : list (string * V)) (k0 : string) :
  List.NoDup (Dict.keys m) → List.NoDup (Dict.keys (Dict.del k0 m)).
Proof.
  induction m as [|[k1 v1] m IH]; simpl; auto.
  intros Hnd. apply List.NoDup_cons_iff in Hnd as [Hk Hnd].
  destruct (String.eqb k0 k1); simpl; auto.
  apply List.NoDup_cons; auto.
  intros Hin. apply Hk. apply in_map_iff in Hin as ([k v] & <- & Hin).
  apply in_del in Hin. apply (in_map fst) in Hin. exact Hin.
Qed.

Lemma falsy_or_map (v : yaml) :
  distinct_keys v → (truthy v = true → ∃ m, v = YMap m) → map_or_false v.
Proof.
  intros Hd Ht. destruct (truthy v) eqn:E.
  - destruct (Ht eq_refl) as [m ->]. left. eauto.
  - destruct v; try (right; split; [exact E|discriminate]).
    left. eauto.
Qed.

(** What the constructor guarantees about the document it keeps. *)
Lemma init_invariant (document : yaml) (ks : KernelSeries) :
  wf_document document → KS.init document = Ok ks →
  List.NoDup (Dict.keys (ks_data ks)) ∧
  (∀ k v, In (k, v) (ks_data ks) → map_or_false v) ∧
  map_or_false (ks_defaults_series ks).
Proof.
  intros [Htop Hvals]. destruct document as [| | | | |data]; try discriminate.
  simpl in Htop. specialize (Hvals data eq_refl).
  unfold KS.init.
  destruct (KS.scan data None []) as [[dev c2s]|] eqn:Hscan; simpl; [|discriminate].
  assert (Hall : ∀ k v, In (k, v) data → map_or_false v).
  { intros k v Hin. apply falsy_or_map; eauto using scan_values. }
  destruct (Dict.get "defaults" data) as [defaults|] eqn:Hd; intros [= <-]; simpl.
  - repeat split.
    + now apply nodup_del.
    + intros k v Hin. apply in_del in Hin. eauto.
    + apply get_in in Hd. eauto.
  - repeat split; auto.
    left. exists []. split; auto. constructor.
Qed.

Lemma entries_in (defaults : yaml) (items : dict) (es : list KernelSeriesEntry) :
  KS.entries defaults items = Ok es →
  ∀ e, In e es → ∃ k v, In (k, v) items ∧ Series.init k v defaults = Ok e.
Proof.
  revert es. induction items as [|[k0 v0] items IH]; simpl; intros es.
  - intros [= <-] e [].
  - destruct (Series.init k0 v0 defaults) as [e0|] eqn:E0; simpl; [|discriminate].
    destruct (KS.entries defaults items) as [es0|]; simpl; [|discriminate].
    intros [= <-] e [<-|Hin].
    + exists k0, v0. auto.
    + destruct (IH es0 eq_refl e Hin) as (k & v & Hkv & He). exists k, v. auto.
Qed.

Lemma lookup_by_key_some (ks : KernelSeries) (series : yaml) (e : KernelSeriesEntry) :
  KS.lookup_by_key ks series = Ok (Some e) →
  ∃ name data, series = YStr name ∧ Dict.get name (ks_data ks) = Some data ∧
               Series.init name data (ks_defaults_series ks) = Ok e.
Proof.
  unfold KS.lookup_by_key.
  destruct (if truthy series then _ else _) as [[]|]; simpl; try discriminate.
  destruct series as [| | |name| |]; simpl; try discriminate.
  destruct (Dict.get name (ks_data ks)) as [data|] eqn:Hg; simpl; [|discriminate].
  destruct (Series.init name data (ks_defaults_series ks)) as [e'|] eqn:E;
    simpl; [|discriminate].
  intros [= <-]. exists name, data. auto.
Qed.

Lemma lookup_series_some (ks : KernelSeries) (series codename development : yaml)
      (e : KernelSeriesEntry) :
  KS.lookup_series ks series codename development = Ok (Some e) →
  ∃ name data, Dict.get name (ks_data ks) = Some data ∧
               Series.init name data (ks_defaults_series ks) = Ok e.
Proof.
  unfold KS.lookup_series. intros H.
  assert (Hk : ∃ key, KS.lookup_by_key ks key = Ok (Some e)).
  { revert H.
    destruct (negb (truthy series) && negb (truthy codename) && negb (truthy development));
      [discriminate|].
    destruct (truthy series); [eauto|].
    destruct (truthy codename).
    - destruct (dict_contains (ks_codename_to_series ks) codename) as [[]|];
        simpl; try discriminate.
      destruct (dict_getitem (ks_codename_to_series ks) codename) as [key|];
        simpl; [|discriminate].
      match goal with |- context [if ?b then _ else _] => destruct b end; [|eauto].
      destruct (ks_development_series ks) as [dev|]; [|simpl; discriminate].
      match goal with |- context [if ?b then _ else _] => destruct b end;
        [eauto|simpl; discriminate].
    - destruct (ks_development_series ks) as [dev|]; [|simpl; discriminate].
      destruct (truthy (YStr dev)); [eauto|simpl; discriminate]. }
  destruct Hk as [key Hk]. apply lookup_by_key_some in Hk as (name & data & _ & ? & ?).
  eauto.
Qed.

Lemma produced_init (ks : KernelSeries) (e : KernelSeriesEntry) :
  List.NoDup (Dict.keys (ks_data ks)) → produced ks e →
  ∃ name data, Dict.get name (ks_data ks) = Some data ∧
               Series.init name data (ks_defaults_series ks) = Ok e.
Proof.
  intros Hnd [(es & Hes & Hin)|(s & c & d & Hl)].
  - destruct (entries_in _ _ _ Hes e Hin) as (k & v & Hkv & He).
    exists k, v. split; auto. now apply in_get_nodup.
  - eauto using lookup_series_some.
Qed.

End SeriesFacts.

(** C3.  In a document that [KernelSeries] accepts, every Series view that
    [series] lists or [lookup_series] returns holds, for every key, the
    value of the [defaults] block unless the series' own data gives that
    key a value; and the [development] and [supported] of a Source are
    those of its Series unless the source data carries the key. *)
Theorem defaults_inheritance (document : yaml) (ks : KernelSeries) :
  wf_document document → KS.init document = Ok ks →
  (∀ e, produced ks e →
     ∀ k, Dict.get k (se_data e)
          = match own_value ks (se_name e) k with
            | Some v => Some v
            | None => default_value ks k
            end) ∧
  (∀ s d, so_data s = YMap d →
     Source.development s
     = Ok (match Dict.get "development" d with
           | Some v => v
           | None => Series.development (so_series s)
           end) ∧
     Source.supported s
     = Ok (match Dict.get "supported" d with
           | Some v => v
           | None => Series.supported (so_series s)
           end)).
Proof.
  intros Hwf Hinit.
  destruct (SeriesFacts.init_invariant _ _ Hwf Hinit) as (Hnd & Hvals & Hdef).
  split.
  - intros e He k.
    destruct (SeriesFacts.produced_init ks e Hnd He) as (name & data & Hget & Hi).
    destruct (SeriesFacts.init_get name data _ e k (Hvals _ _ (get_in _ _ _ Hget)) Hdef Hi)
      as [-> ->].
    unfold own_value, default_value. rewrite Hget.
    destruct data; reflexivity.
  - intros s d Hd. unfold Source.development, Source.supported. rewrite Hd. now split.
Qed.

(** The example of the specification: [defaults: {supported: true}], a
    series without override and one with [supported: false]. *)
Lemma defaults_inheritance_witness :
  ∃ ks a b,
    KS.init defaults_document = Ok ks ∧
    KS.lookup_series ks (YStr "A") YNull (YBool false) = Ok (Some a) ∧
    KS.lookup_series ks (YStr "B") YNull (YBool false) = Ok (Some b) ∧
    Dict.get "supported" (se_data a) = Some (YBool true) ∧
    Dict.get "supported" (se_data b) = Some (YBool false) ∧
    Series.supported a = YBool true ∧ Series.supported b = YBool false.
Proof.
  eexists _, _, _.
  split; [reflexivity|]. split; [reflexivity|]. split; [reflexivity|].
  assert (Hwf : wf_document defaults_document).
  { split.
    - simpl. repeat constructor; simpl; intuition discriminate.
    - intros m [= <-] k v [[= <- <-]|[[= <- <-]|[[= <- <-]|[]]]]; simpl;
        repeat constructor; simpl; intuition discriminate. }
  split.
  - refine (proj1 (defaults_inheritance defaults_document _ Hwf eq_refl) _ _ "supported").
    right. exists (YStr "A"), YNull, (YBool false). reflexivity.
  - split; [|split; reflexivity].
    refine (proj1 (defaults_inheritance defaults_document _ Hwf eq_refl) _ _ "supported").
    right. exists (YStr "B"), YNull, (YBool false). reflexivity.
Defined.

(** ** Routing *)

Module RoutingFacts.

Lemma get_app_skip {V} (pre l : list (string * V)) (k : string) :
  ¬ In k (Dict.keys pre) → Dict.get k (pre ++ l) = Dict.get k l.
Proof.
  induction pre as [|[k1 v1] pre IH]; simpl; auto.
  intros Hn. simpl in Hn. destruct (String.eqb k k1) eqn:E.
  - apply String.eqb_eq in E. subst. tauto.
  - apply IH. tauto.
Qed.

Lemma del_app_skip {V} (pre l : list (string * V)) (k : string) :
  ¬ In k (Dict.keys pre) → Dict.del k (pre ++ l) = pre ++ Dict.del k l.
Proof.
  induction pre as [|[k1 v1] pre IH]; simpl; auto.
  intros Hn. simpl in Hn. destruct (String.eqb k k1) eqn:E.
  - apply String.eqb_eq in E. subst. tauto.
  - f_equal. apply IH. tauto.
Qed.

Lemma strip_suffix (rest pre : dict) :
  List.NoDup (Dict.keys (pre ++ rest)) →
  fold_left Routing.clear_entry (Dict.keys rest) (pre ++ rest) = pre ++ without_nulls rest.
Proof.
  revert pre. induction rest as [|[k v] rest IH]; intros pre Hnd; simpl; auto.
  assert (Hk : ¬ In k (Dict.keys pre)).
  { unfold Dict.keys in Hnd. rewrite map_app in Hnd. simpl in Hnd.
    apply List.NoDup_remove_2 in Hnd. intros Hin. apply Hnd.
    apply in_or_app. now left. }
  assert (Hstep : Routing.clear_entry (pre ++ (k, v) :: rest) k
                  = if is_none v then pre ++ rest else pre ++ (k, v) :: rest).
  { unfold Routing.clear_entry. rewrite (get_app_skip pre _ k Hk). simpl. rewrite String.eqb_refl.
    destruct v; auto. rewrite (del_app_skip pre _ k Hk). simpl.
    now rewrite String.eqb_refl. }
  rewrite Hstep. unfold without_nulls at 1. simpl.
  fold (without_nulls rest). destruct (is_none v) eqn:Hv; simpl.
  - apply IH. unfold Dict.keys in *. rewrite map_app in *. simpl in Hnd.
    now apply List.NoDup_remove_1 in Hnd.
  - change (pre ++ (k, v) :: rest) with (pre ++ [(k, v)] ++ rest).
    rewrite app_assoc, IH.
    + now rewrite <- app_assoc.
    + now rewrite <- app_assoc.
Qed.

(** The clearing loop removes exactly the null entries. *)
Lemma strip_none_filter (m : dict) :
  List.NoDup (Dict.keys m) → Routing.strip_none m = without_nulls m.
Proof. intros Hnd. exact (strip_suffix m [] Hnd). Qed.

End RoutingFacts.

(** C4.  For a source [s] and a routing field that is the string [alias]:
    when the routing table of the owning series maps [alias] to a mapping
    [m], the entry is built, is named [alias], and holds the items of [m]
    whose value is not null, in their order; when the series has no
    routing table, or the table has no such alias, construction raises
    [ValueError]; and an inline mapping is likewise kept without its null
    entries. *)
Theorem routing_alias_resolution (s : KernelSourceEntry) (alias : string) :
  (∀ table m,
     Series.routing_table (so_series s) = YMap table →
     Dict.get alias table = Some (YMap m) → List.NoDup (Dict.keys m) →
     Routing.init s (YStr alias)
     = Ok {| rt_source := s; rt_name := RoutingAlias alias;
             rt_data := without_nulls m |}) ∧
  (Series.routing_table (so_series s) = YNull →
     Routing.init s (YStr alias) = Raise ValueError) ∧
  (∀ table,
     Series.routing_table (so_series s) = YMap table →
     Dict.get alias table = None →
     Routing.init s (YStr alias) = Raise ValueError) ∧
  (∀ m, List.NoDup (Dict.keys m) →
     ∃ r, Routing.init s (YMap m) = Ok r ∧ rt_data r = without_nulls m) ∧
  (∀ m dest, Dict.get dest (without_nulls m) ≠ Some YNull).
Proof.
  repeat match goal with |- _ ∧ _ => split end.
  - intros table m Ht Ha Hnd. unfold Routing.init. rewrite Ht. simpl.
    unfold Dict.mem. rewrite Ha. simpl.
    now rewrite RoutingFacts.strip_none_filter.
  - intros Ht. unfold Routing.init. now rewrite Ht.
  - intros table Ht Ha. unfold Routing.init. rewrite Ht. simpl.
    unfold Dict.mem. now rewrite Ha.
  - intros m Hnd. eexists. split; [reflexivity|]. simpl.
    now apply RoutingFacts.strip_none_filter.
  - intros m dest H. apply get_in in H. unfold without_nulls in H.
    apply filter_In in H as [_ H]. discriminate.
Qed.

(** The source of the specification, routed by [legacy]. *)
Lemma routing_alias_resolution_witness :
  Routing.init routed_source (YStr "legacy")
  = Ok {| rt_source := routed_source; rt_name := RoutingAlias "legacy";
          rt_data := [("build", YList [YStr "ppa"]);
                      ("updates", YList [YStr "archive"])] |}.
Proof.
  refine (proj1 (routing_alias_resolution routed_source "legacy") _ _ eq_refl eq_refl _).
  simpl. repeat constructor; simpl; intuition discriminate.
Defined.

(** C10.  For a source whose data has no [routing] key, [routing] builds
    the entry of the alias [esm] when the series has [esm] set, else of
    [devel] when the series is in development, else of [default]; for a
    source whose [routing] is null it returns [None]. *)
Theorem default_routing_selection (s : KernelSourceEntry) (d : dict) :
  so_data s = YMap d →
  (Dict.get "routing" d = None →
     Source.routing s
     = (r ← Routing.init s
              (YStr (if truthy (Series.esm (so_series s)) then "esm"
                     else if truthy (Series.development (so_series s)) then "devel"
                     else "default"));
        Ok (Some r))) ∧
  (Dict.get "routing" d = Some YNull → Source.routing s = Ok None).
Proof.
  intros Hd. unfold Source.routing, Source.default_routing. rewrite Hd. simpl.
  split; intros ->; simpl; auto.
Qed.

Lemma default_routing_selection_witness :
  Source.routing unrouted_source = Ok None ∧
  Source.routing esm_source
  = Ok (Some {| rt_source := esm_source; rt_name := RoutingAlias "esm";
                rt_data := [("build", YList [YStr "esm-ppa"])] |}).
Proof.
  split.
  - exact (proj2 (default_routing_selection unrouted_source [("routing", YNull)] eq_refl)
             eq_refl).
  - exact (proj1 (default_routing_selection esm_source
                    [("versions", YList [YStr "5.4"])] eq_refl) eq_refl).
Defined.

(** ** The selectors of [lookup_series] *)

Lemma two_series_init : KS.init two_series_document = Ok two_series.
Proof. reflexivity. Qed.

(** C5 as stated fails: a call that supplies two selectors does not fail;
    the series key decides. *)
Lemma lookup_series_two_selectors :
  ∃ e, KS.lookup_series two_series (YStr "A") (YStr "b") (YBool true) = Ok (Some e) ∧
       se_name e = "A".
Proof. eexists. split; reflexivity. Qed.

(** C5, as the code has it.  A selector is supplied when it is a true
    object.  With none supplied the call raises [ValueError]; with a
    series key supplied, the key alone decides, whatever the codename and
    the flag; with a codename and no key, a codename unknown to the
    document gives [None] and a known one selects its series; with the
    flag alone, the development series is selected, and [None] is the
    answer when there is none.  A key that the document lacks gives
    [None]. *)
Theorem lookup_series_selectors (ks : KernelSeries) (series codename development : yaml) :
  (truthy series = false → truthy codename = false → truthy development = false →
     KS.lookup_series ks series codename development = Raise ValueError) ∧
  (truthy series = true →
     KS.lookup_series ks series codename development = KS.lookup_by_key ks series) ∧
  (∀ c, truthy series = false → codename = YStr c → c ≠ "" →
     Dict.get c (ks_codename_to_series ks) = None →
     KS.lookup_series ks series codename development = Ok None) ∧
  (∀ c key, truthy series = false → codename = YStr c → c ≠ "" →
     Dict.get c (ks_codename_to_series ks) = Some key → key ≠ "" →
     KS.lookup_series ks series codename development = KS.lookup_by_key ks (YStr key)) ∧
  (truthy series = false → truthy codename = false → truthy development = true →
     KS.lookup_series ks series codename development
     = match ks_development_series ks with
       | Some dev => if String.eqb dev "" then Ok None else KS.lookup_by_key ks (YStr dev)
       | None => Ok None
       end) ∧
  (∀ name, name ≠ "" → Dict.get name (ks_data ks) = None →
     KS.lookup_by_key ks (YStr name) = Ok None).
Proof.
  unfold KS.lookup_series.
  repeat match goal with |- _ ∧ _ => split end.
  - now intros -> -> ->.
  - now intros ->.
  - intros c -> -> Hc Hget. simpl.
    apply String.eqb_neq in Hc. rewrite Hc. simpl.
    unfold Dict.mem. now rewrite Hget.
  - intros c key -> -> Hc Hget Hkey. simpl.
    apply String.eqb_neq in Hc, Hkey. rewrite Hc. simpl.
    unfold Dict.mem. rewrite Hget. simpl. now rewrite Hkey.
  - intros -> -> ->. simpl.
    destruct (ks_development_series ks) as [dev|]; auto.
    now destruct (String.eqb dev "").
  - intros name Hname Hget. unfold KS.lookup_by_key. simpl.
    apply String.eqb_neq in Hname. rewrite Hname. simpl.
    unfold Dict.mem. now rewrite Hget.
Qed.

(** On the two-series document: no selector, an unknown codename, and
    the development flag. *)
Lemma lookup_series_selectors_witness :
  KS.lookup_series two_series YNull YNull (YBool false) = Raise ValueError ∧
  KS.lookup_series two_series YNull (YStr "zesty") (YBool false) = Ok None ∧
  (∃ e, KS.lookup_series two_series YNull YNull (YBool true) = Ok (Some e) ∧
        se_name e = "B").
Proof.
  destruct (lookup_series_selectors two_series YNull YNull (YBool false))
    as (Hnone & _).
  destruct (lookup_series_selectors two_series YNull (YStr "zesty") (YBool false))
    as (_ & _ & Hunknown & _).
  destruct (lookup_series_selectors two_series YNull YNull (YBool true))
    as (_ & _ & _ & _ & Hdev & _).
  split; [exact (Hnone eq_refl eq_refl eq_refl)|].
  split; [refine (Hunknown "zesty" eq_refl eq_refl _ eq_refl); discriminate|].
  rewrite (Hdev eq_refl eq_refl eq_refl).
  eexists. split; reflexivity.
Defined.

(** ** Equality of the entity views *)

(** C9 as stated fails: the repositories of two different packages are
    equal views, although their owners differ. *)
Lemma repo_equal_across_owners :
  Source.lookup_package packaged_source "linux" = Ok (Some package_main) ∧
  Source.lookup_package packaged_source "linux-meta" = Ok (Some package_meta) ∧
  Package.eq package_main package_meta = false ∧
  ∃ r r', Package.repo package_main = Ok (Some r) ∧
          Package.repo package_meta = Ok (Some r') ∧
          re_owner r = OwnerPackage package_main ∧
          re_owner r' = OwnerPackage package_meta ∧
          Repo.eq r r' = Ok true.
Proof.
  split; [reflexivity|]. split; [reflexivity|]. split; [reflexivity|].
  eexists _, _. repeat split; reflexivity.
Qed.

(** C9, as the code has it.  Series views are equal exactly when their
    names are; Source views when their names and their series are;
    Package and Snap views when their names and their sources are; a view
    is equal to itself rebuilt.  The equality of routing entries compares
    their items and that of repository entries their url and branch:
    neither consults the name or the owner. *)
Theorem view_equality :
  (∀ a b, Series.eq a b = true ↔ se_name a = se_name b) ∧
  (∀ a b, Source.eq a b = true ↔
          so_name a = so_name b ∧ Series.eq (so_series a) (so_series b) = true) ∧
  (∀ a b, Package.eq a b = true ↔
          pk_name a = pk_name b ∧ Source.eq (pk_source a) (pk_source b) = true) ∧
  (∀ a b, Snap.eq a b = true ↔
          sn_name a = sn_name b ∧ Source.eq (sn_source a) (sn_source b) = true) ∧
  (∀ a, Series.eq a a = true) ∧ (∀ a, Source.eq a a = true) ∧
  (∀ a, Package.eq a a = true) ∧ (∀ a, Snap.eq a a = true) ∧
  (∀ a b source name source' name',
     Routing.eq a b
     = Routing.eq {| rt_source := source; rt_name := name; rt_data := rt_data a |}
                  {| rt_source := source'; rt_name := name'; rt_data := rt_data b |}) ∧
  (∀ a b owner owner',
     Repo.eq a b
     = Repo.eq {| re_owner := owner; re_data := re_data a |}
               {| re_owner := owner'; re_data := re_data b |}).
Proof.
  assert (Hseries : ∀ a b, Series.eq a b = true ↔ se_name a = se_name b).
  { intros a b. unfold Series.eq. apply String.eqb_eq. }
  assert (Hsource : ∀ a b, Source.eq a b = true ↔
                           so_name a = so_name b ∧
                           Series.eq (so_series a) (so_series b) = true).
  { intros a b. unfold Source.eq. rewrite andb_true_iff, String.eqb_eq. tauto. }
  assert (Hrefl : ∀ a, Source.eq a a = true).
  { intros a. apply Hsource. split; auto. now apply Hseries. }
  repeat match goal with |- _ ∧ _ => split end; auto.
  - intros a b. unfold Package.eq. rewrite andb_true_iff, String.eqb_eq. tauto.
  - intros a b. unfold Snap.eq. rewrite andb_true_iff, String.eqb_eq. tauto.
  - intros a. now apply Hseries.
  - intros a. unfold Package.eq. now rewrite String.eqb_refl, Hrefl.
  - intros a. unfold Snap.eq. now rewrite String.eqb_refl, Hrefl.
Qed.

Lemma view_equality_witness :
  Package.eq package_main package_main = true ∧
  Package.eq package_main package_meta ≠ true.
Proof.
  destruct view_equality as (_ & _ & Hpackage & _ & _ & _ & Hrefl & _).
  split; [apply Hrefl|].
  intros H. apply Hpackage in H as [H _]. discriminate H.
Defined.

(** ** The chain of [versions] *)

Module VersionsFacts.

Lemma versions_explicit (ks : KernelSeries) (s : KernelSourceEntry) (d : dict) (v : yaml)
      (fuel : nat) :
  so_data s = YMap d → Dict.get "versions" d = Some v →
  Source.versions (S fuel) ks s = Some (Ok v).
Proof.
  intros Hd Hv. simpl. rewrite Hd. simpl. unfold Dict.mem. now rewrite Hv.
Qed.

Lemma versions_derived (ks : KernelSeries) (s t : KernelSourceEntry) (fuel : nat) :
  py_contains (so_data s) "versions" = Ok false →
  Source.derived_from ks s = Ok (Some t) →
  Source.versions (S fuel) ks s = Source.versions fuel ks t.
Proof. intros Hc Hd. simpl. now rewrite Hc, Hd. Qed.

Lemma versions_copied (ks : KernelSeries) (s t : KernelSourceEntry) (fuel : nat) :
  py_contains (so_data s) "versions" = Ok false →
  Source.derived_from ks s = Ok None →
  Source.copy_forward ks s = Ok (CopySource t) →
  Source.versions (S fuel) ks s = Source.versions fuel ks t.
Proof. intros Hc Hd Hf. simpl. now rewrite Hc, Hd, Hf. Qed.

Lemma versions_absent (ks : KernelSeries) (s : KernelSourceEntry) (fuel : nat) :
  py_contains (so_data s) "versions" = Ok false →
  Source.derived_from ks s = Ok None →
  Source.copy_forward ks s = Ok CopyNone →
  Source.versions (S fuel) ks s = Some (Ok YNull).
Proof. intros Hc Hd Hf. simpl. now rewrite Hc, Hd, Hf. Qed.

Lemma versions_next (ks : KernelSeries) (s t : KernelSourceEntry) (fuel : nat) :
  next ks s = Some t → Source.versions (S fuel) ks s = Source.versions fuel ks t.
Proof.
  unfold next. simpl.
  destruct (py_contains (so_data s) "versions") as [[]|]; try discriminate.
  destruct (Source.derived_from ks s) as [[d|]|]; try discriminate.
  - now intros [= ->].
  - destruct (Source.copy_forward ks s) as [[]|]; try discriminate.
    now intros [= ->].
Qed.

Lemma versions_stop (ks : KernelSeries) (s : KernelSourceEntry) (fuel : nat) :
  next ks s = None → Source.versions (S fuel) ks s ≠ None.
Proof.
  unfold next. simpl.
  destruct (py_contains (so_data s) "versions") as [[]|]; try discriminate.
  destruct (Source.derived_from ks s) as [[d|]|]; try discriminate.
  destruct (Source.copy_forward ks s) as [[]|]; discriminate.
Qed.

(** The end-to-end example: the first source of the development series
    has the versions of the source it derives from. *)
Lemma versions_of_development_series :
  ∃ e s a,
    KS.lookup_series two_series YNull YNull (YBool true) = Ok (Some e) ∧
    se_name e = "B" ∧
    first_source two_series "B" = Some s ∧
    first_source two_series "A" = Some a ∧
    Source.versions 2 two_series s = Some (Ok (YList [YStr "4.4"; YStr "4.15"])) ∧
    Source.versions 1 two_series a = Some (Ok (YList [YStr "4.4"; YStr "4.15"])).
Proof. eexists _, _, _. repeat split; reflexivity. Qed.

End VersionsFacts.

(** C2, at the input on which the code leaves the chain: a source with
    [copy-forward: true], no [versions] and no [derived-from].  The
    accessor [copy_forward] returns [True], and [versions] raises
    [AttributeError] on it instead of returning [None]. *)
Theorem versions_copy_forward_flag :
  ∃ s, first_source copy_flag_series "A" = Some s ∧
       so_data s = YMap [("copy-forward", YBool true)] ∧
       Source.derived_from copy_flag_series s = Ok None ∧
       Source.copy_forward copy_flag_series s = Ok CopyTrue ∧
       ∀ fuel, Source.versions (S fuel) copy_flag_series s = Some (Raise AttributeError).
Proof. eexists. repeat split; reflexivity. Qed.

(** ** Termination of the derivation chase *)

Module ChaseFacts.

Lemma init_name (name : string) (data defaults : yaml) (e : KernelSeriesEntry) :
  Series.init name data defaults = Ok e → se_name e = name.
Proof.
  unfold Series.init.
  destruct (if negb (is_none defaults) then _ else _) as [d1|]; simpl; [|discriminate].
  destruct (if negb (is_none data) then _ else _) as [d2|]; simpl; [|discriminate].
  now intros [= <-].
Qed.

Lemma lookup_key_some (ks : KernelSeries) (key : yaml) (e : KernelSeriesEntry) :
  KS.lookup_series ks key YNull (YBool false) = Ok (Some e) →
  key = YStr (se_name e) ∧
  ∃ data, Dict.get (se_name e) (ks_data ks) = Some data ∧
          Series.init (se_name e) data (ks_defaults_series ks) = Ok e.
Proof.
  unfold KS.lookup_series. simpl. rewrite !andb_true_r.
  destruct (truthy key); simpl; [|discriminate].
  intros H. apply SeriesFacts.lookup_by_key_some in H as (name & data & -> & Hget & Hinit).
  rewrite (init_name _ _ _ _ Hinit). eauto.
Qed.

Lemma lookup_source_some (e : KernelSeriesEntry) (key : yaml) (t : KernelSourceEntry) :
  Series.lookup_source e key = Ok (Some t) →
  key = YStr (so_name t) ∧ so_series t = e ∧
  ∃ m, Series.field e "sources" YNull = YMap m ∧ In (so_name t) (Dict.keys m).
Proof.
  unfold Series.lookup_source.
  destruct (truthy (Series.field e "sources" YNull)); simpl; [|discriminate].
  destruct (Series.field e "sources" YNull) as [| | |str|l|m].
  1-5: destruct key; simpl; try discriminate;
       match goal with |- context [if negb ?b then _ else _] => destruct b end;
       simpl; discriminate.
  destruct key as [| | |k| |]; simpl; try discriminate.
  unfold Dict.mem. destruct (Dict.get k m) as [data|] eqn:Hget; simpl; [|discriminate].
  intros [= <-]. simpl. repeat split. exists m. split; auto.
  eapply get_in_keys; eauto.
Qed.

(** A source that a reference resolves to is a source of the document. *)
Lemma lookups_view (ks : KernelSeries) (series_key source_key : yaml)
      (e : KernelSeriesEntry) (t : KernelSourceEntry) :
  KS.lookup_series ks series_key YNull (YBool false) = Ok (Some e) →
  Series.lookup_source e source_key = Ok (Some t) →
  view_of ks (node_of t) = Some t.
Proof.
  intros He Ht.
  destruct (lookup_key_some _ _ _ He) as [-> _].
  destruct (lookup_source_some _ _ _ Ht) as (-> & Hs & _).
  unfold view_of, node_of. simpl. rewrite Hs, He, Ht. reflexivity.
Qed.

Lemma resolve_view (ks : KernelSeries) (pair : yaml) (t : KernelSourceEntry) :
  Source.resolve ks pair = Ok (Some t) → view_of ks (node_of t) = Some t.
Proof.
  unfold Source.resolve.
  destruct (py_iter pair) as [[|series_key [|source_key [|]]]|]; simpl; try discriminate.
  destruct (KS.lookup_series ks series_key YNull (YBool false)) as [[e|]|] eqn:He;
    simpl; try discriminate.
  intros Ht. eapply lookups_view; eauto.
Qed.

Lemma derived_from_view (ks : KernelSeries) (s t : KernelSourceEntry) :
  Source.derived_from ks s = Ok (Some t) → view_of ks (node_of t) = Some t.
Proof.
  unfold Source.derived_from.
  destruct (py_contains (so_data s) "derived-from") as [[]|]; simpl; try discriminate.
  destruct (py_getitem (so_data s) "derived-from") as [pair|]; simpl; [|discriminate].
  apply resolve_view.
Qed.

Lemma copy_forward_view (ks : KernelSeries) (s t : KernelSourceEntry) :
  Source.copy_forward ks s = Ok (CopySource t) → view_of ks (node_of t) = Some t.
Proof.
  unfold Source.copy_forward.
  destruct (py_contains (so_data s) "copy-forward") as [[]|]; simpl; try discriminate.
  destruct (py_getitem (so_data s) "copy-forward") as [flag|]; simpl; [|discriminate].
  destruct (is_False flag); [discriminate|].
  destruct (is_True flag).
  - destruct (Source.derived_from ks s) as [[d|]|] eqn:Hd; simpl; try discriminate.
    intros [= <-]. eapply derived_from_view; eauto.
  - destruct (Source.resolve ks flag) as [[src|]|] eqn:Hr; simpl; try discriminate.
    intros [= <-]. eapply resolve_view; eauto.
Qed.

Lemma view_node (ks : KernelSeries) (n : node) (s : KernelSourceEntry) :
  view_of ks n = Some s → node_of s = n ∧ In n (all_nodes ks).
Proof.
  unfold view_of. destruct n as [n1 n2]. simpl.
  destruct (KS.lookup_series ks (YStr n1) YNull (YBool false)) as [[e|]|] eqn:He;
    try discriminate.
  destruct (Series.lookup_source e (YStr n2)) as [[t|]|] eqn:Ht; try discriminate.
  intros [= <-].
  destruct (lookup_key_some _ _ _ He) as ([= Hn1] & data & Hget & Hinit).
  destruct (lookup_source_some _ _ _ Ht) as ([= Hn2] & Hs & m & Hm & Hin).
  unfold node_of. rewrite Hs, <- Hn1, <- Hn2. split; auto.
  unfold all_nodes. apply in_flat_map. exists (se_name e, data). split.
  - rewrite Hn1 in *. eapply get_in; eauto.
  - unfold series_nodes. simpl. rewrite Hinit, Hm.
    apply in_map_iff. exists (so_name t). split; auto. congruence.
Qed.

Lemma next_refers (ks : KernelSeries) (s t : KernelSourceEntry) :
  view_of ks (node_of s) = Some s → next ks s = Some t →
  refers ks (node_of s) (node_of t) ∧ view_of ks (node_of t) = Some t.
Proof.
  intros Hs. unfold next.
  destruct (py_contains (so_data s) "versions") as [[]|]; try discriminate.
  destruct (Source.derived_from ks s) as [[d|]|] eqn:Hd; try discriminate.
  - intros [= <-]. split; [|eapply derived_from_view; eauto].
    exists s, d. auto.
  - destruct (Source.copy_forward ks s) as [[| |c]|] eqn:Hc; try discriminate.
    intros [= <-]. split; [|eapply copy_forward_view; eauto].
    exists s, c. auto.
Qed.

(** The chase cannot visit more sources than the document has: the
    sources already left behind are distinct, and each of them reaches
    the current one. *)
Lemma chase_bounded (ks : KernelSeries) :
  acyclic ks →
  ∀ fuel visited s,
    view_of ks (node_of s) = Some s →
    List.NoDup visited → incl visited (all_nodes ks) →
    (∀ v, In v visited → clos_trans node (refers ks) v (node_of s)) →
    (length (all_nodes ks) < fuel + length visited)%nat →
    Source.versions fuel ks s ≠ None.
Proof.
  intros Hacyclic. induction fuel as [|fuel IH]; intros visited s Hs Hnd Hincl Hreach Hlen.
  - pose proof (List.NoDup_incl_length Hnd Hincl). simpl in Hlen. lia.
  - destruct (next ks s) as [t|] eqn:Hnext.
    + rewrite (VersionsFacts.versions_next _ _ _ _ Hnext).
      destruct (next_refers _ _ _ Hs Hnext) as [Href Ht].
      apply (IH (node_of s :: visited)); auto.
      * constructor; auto. intros Hin. apply (Hacyclic (node_of s)). auto.
      * intros v [<-|Hv]; auto. apply (view_node _ _ _ Hs).
      * intros v [<-|Hv].
        -- now apply t_step.
        -- eapply t_trans; [apply Hreach; auto|now apply t_step].
      * simpl. lia.
    + now apply VersionsFacts.versions_stop.
Qed.

Lemma versions_more_fuel (ks : KernelSeries) (fuel : nat) :
  ∀ s r, Source.versions fuel ks s = Some r → Source.versions (S fuel) ks s = Some r.
Proof.
  induction fuel as [|fuel IH]; intros s r; [discriminate|].
  destruct (next ks s) as [t|] eqn:Hnext.
  - rewrite !(VersionsFacts.versions_next _ _ _ _ Hnext). apply IH.
  - revert Hnext. unfold next. simpl.
    destruct (py_contains (so_data s) "versions") as [[]|]; auto.
    destruct (Source.derived_from ks s) as [[d|]|]; auto; try discriminate.
    destruct (Source.copy_forward ks s) as [[]|]; auto; discriminate.
Qed.

Lemma cyclic_chase (fuel : nat) (s : KernelSourceEntry) :
  first_source cyclic_series "A" = Some s → Source.versions fuel cyclic_series s = None.
Proof.
  intros [= <-]. induction fuel as [|fuel IH]; [reflexivity|].
  exact IH.
Qed.

(** References that go down along a rank cannot form a cycle. *)
Lemma ranked_acyclic (ks : KernelSeries) (rank : node → nat) :
  (∀ a b, refers ks a b → (rank b < rank a)%nat) → acyclic ks.
Proof.
  intros Hrank n Hn.
  assert (Hdown : ∀ a b, clos_trans node (refers ks) a b → (rank b < rank a)%nat).
  { intros a b H. induction H as [a b H|a b c _ IH1 _ IH2]; [auto|lia]. }
  specialize (Hdown n n Hn). lia.
Qed.

Lemma two_series_acyclic : acyclic two_series.
Proof.
  apply (ranked_acyclic two_series
           (fun n => if String.eqb (fst n) "B" then 1%nat else 0%nat)).
  intros a b (s & t & Hview & <- & Href).
  destruct (view_node _ _ _ Hview) as [_ Hin].
  cbv in Hin. destruct Hin as [<-|[<-|[]]]; cbv in Hview; injection Hview as <-.
  - destruct Href as [H|H]; cbv in H; discriminate H.
  - destruct Href as [H|H]; cbv in H; [|discriminate H].
    injection H as <-. cbv. lia.
Qed.

End ChaseFacts.

(** C8.  In a document whose references between sources, by
    [derived-from] and by [copy-forward], form no cycle, [versions]
    returns (a value or an exception) on every source, within as many
    calls as the document has sources plus one, and with any larger
    bound the answer is the same.  Nothing in the traversal detects a
    cycle: on a source that derives from itself it is still running after
    any number of calls. *)
Theorem versions_terminates :
  (∀ ks n s, acyclic ks → view_of ks n = Some s →
     ∃ r, ∀ fuel, (length (all_nodes ks) < fuel)%nat →
                  Source.versions fuel ks s = Some r) ∧
  (∃ s, view_of cyclic_series ("A", "linux") = Some s ∧
        refers cyclic_series ("A", "linux") ("A", "linux") ∧
        ∀ fuel, Source.versions fuel cyclic_series s = None).
Proof.
  split.
  - intros ks n s Hacyclic Hview.
    destruct (ChaseFacts.view_node _ _ _ Hview) as [<- _].
    destruct (Source.versions (S (length (all_nodes ks))) ks s) as [r|] eqn:Hr.
    + exists r. intros fuel Hfuel.
      induction Hfuel as [|fuel Hle IH]; auto.
      now apply ChaseFacts.versions_more_fuel.
    + exfalso. revert Hr.
      apply (ChaseFacts.chase_bounded ks Hacyclic _ [] s Hview); simpl; auto.
      * constructor.
      * intros v [].
      * intros v [].
      * lia.
  - eexists. split; [reflexivity|]. split.
    + eexists _, _. split; [reflexivity|]. split; [|left; reflexivity]. reflexivity.
    + intros fuel. now apply ChaseFacts.cyclic_chase.
Qed.

(** The two-series document has no cycle, and the source of series [B]
    gets the versions of the source of series [A]. *)
Lemma versions_terminates_witness :
  ∃ s, view_of two_series ("B", "linux") = Some s ∧
       ∃ r, ∀ fuel, (length (all_nodes two_series) < fuel)%nat →
                    Source.versions fuel two_series s = Some r.
Proof.
  eexists. split; [reflexivity|].
  exact (proj1 versions_terminates two_series ("B", "linux") _
           ChaseFacts.two_series_acyclic eq_refl).
Defined.

(** ** Status filters *)

Module FilterFacts.

Lemma index_of_nth (s : string) (l : list string) (i : nat) :
  index_of s l = Some i → nth_error l i = Some s.
Proof.
  revert i. induction l as [|x l IH]; intros i; simpl; [discriminate|].
  destruct (String.eqb s x) eqn:E.
  - apply String.eqb_eq in E. now intros [= <-]; subst.
  - destruct (index_of s l) as [j|]; simpl; [|discriminate].
    intros [= <-]. simpl. now apply IH.
Qed.

Lemma index_of_first (s : string) (l : list string) (i : nat) :
  index_of s l = Some i → ∀ j, (j < i)%nat → nth_error l j ≠ Some s.
Proof.
  revert i. induction l as [|x l IH]; intros i; simpl; [discriminate|].
  destruct (String.eqb s x) eqn:E.
  - intros [= <-] j Hj. lia.
  - destruct (index_of s l) as [k|]; simpl; [|discriminate].
    intros [= <-] [|j] Hj; simpl.
    + intros [= ->]. now rewrite String.eqb_refl in E.
    + apply (IH k eq_refl). lia.
Qed.

Lemma index_of_none (s : string) (l : list string) :
  index_of s l = None ↔ ¬ In s l.
Proof.
  destruct (index_of s l) as [i|] eqn:Hi.
  - split; [discriminate|]. intros H. exfalso. apply H.
    apply index_of_nth in Hi. eapply nth_error_In; eauto.
  - split; auto. intros _. revert Hi.
    induction l as [|x l IH]; simpl; [tauto|].
    destruct (String.eqb s x) eqn:E; [discriminate|].
    apply String.eqb_neq in E.
    destruct (index_of s l); simpl; [discriminate|].
    intros _ [H|H]; [congruence|]. now apply IH.
Qed.

Lemma process_resolves (lower : string → string) (sl : list string) (entry : status_filter) :
  name_or_position entry →
  process lower sl entry
  = match resolves lower sl entry with Some i => Ok i | None => Raise IndexError end.
Proof.
  destruct entry as [z|s| |]; simpl; try tauto; intros _.
  - rewrite length_map.
    destruct (z <? 0) eqn:E1, (z >=? Z.of_nat (length sl)) eqn:E2,
             (0 <=? z) eqn:E3, (z <? Z.of_nat (length sl)) eqn:E4; simpl; auto; lia.
  - now destruct (index_of (lower s) (map lower sl)).
Qed.

Lemma process_entries_ok (lower : string → string) (sl : list string)
      (entries : list status_filter) (acc : gset Z) :
  Forall (fun e => name_or_position e ∧ resolves lower sl e ≠ None) entries →
  ∃ X : gset Z,
    process_entries lower sl entries acc = Ok X ∧
    ∀ i, i ∈ X ↔ i ∈ acc ∨ ∃ e, In e entries ∧ resolves lower sl e = Some i.
Proof.
  revert acc. induction entries as [|e entries IH]; intros acc Hall; simpl.
  - exists acc. split; auto. intros i. split; auto. intros [H|(e & [] & _)]; auto.
  - apply Forall_cons_iff in Hall as [[Hn Hr] Hall].
    rewrite (process_resolves lower sl e Hn).
    destruct (resolves lower sl e) as [j|] eqn:Hj; [|congruence]. simpl.
    destruct (IH (acc ∪ {[j]}) Hall) as (X & -> & HX).
    exists X. split; auto. intros i. rewrite HX. split.
    + intros [H|(e' & He' & Hi)].
      * apply elem_of_union in H as [H|H]; auto.
        apply elem_of_singleton in H. subst. right. exists e. auto.
      * right. exists e'. auto.
    + intros [H|(e' & [<-|He'] & Hi)].
      * left. apply elem_of_union. auto.
      * left. apply elem_of_union. right. apply elem_of_singleton. congruence.
      * right. exists e'. auto.
Qed.

Lemma process_entries_bad (lower : string → string) (sl : list string)
      (entries : list status_filter) (acc : gset Z) :
  Forall name_or_position entries →
  Exists (fun e => resolves lower sl e = None) entries →
  process_entries lower sl entries acc = Raise IndexError.
Proof.
  revert acc. induction entries as [|e entries IH]; intros acc Hall Hex; simpl.
  - inversion Hex.
  - apply Forall_cons_iff in Hall as [Hn Hall].
    rewrite (process_resolves lower sl e Hn).
    destruct (resolves lower sl e) as [j|] eqn:Hj; simpl; auto.
    apply IH; auto. inversion Hex; subst; auto. congruence.
Qed.

Lemma single (lower : string → string) (sl : list string) (entry : status_filter) :
  name_or_position entry →
  _get_valid_id_list lower sl entry
  = match resolves lower sl entry with Some i => Ok [i] | None => Raise IndexError end.
Proof.
  intros Hn. unfold _get_valid_id_list.
  assert (E : (match entry with
               | FList l => process_entries lower sl l ∅
               | _ => i ← process lower sl entry; Ok (∅ ∪ {[i]})
               end) = (i ← process lower sl entry; Ok (∅ ∪ {[i]}))).
  { destruct entry; simpl in *; tauto. }
  rewrite E, (process_resolves lower sl entry Hn).
  destruct (resolves lower sl entry) as [i|]; simpl; auto.
  now rewrite (left_id_L ∅ (∪)), elements_singleton.
Qed.

End FilterFacts.

(** C6.  For every status list and every way of lowering the case:
    a name that equals a status of the list once both are lowered
    resolves to the position of that status (the first one so named);
    a position inside the list resolves to itself; a list of names and
    positions that all denote a status resolves to the set of the indexes
    they denote; an integer outside the list, a string that names no
    status, and a list of names and positions one of which denotes none,
    raise [IndexError]. *)
Theorem status_filter_resolution (lower : string → string) (status_list : list string) :
  (∀ s name, In name status_list → lower s = lower name →
     ∃ i, _get_valid_id_list lower status_list (FStr s) = Ok [Z.of_nat i] ∧
          nth_error (map lower status_list) i = Some (lower name) ∧
          (∀ j, (j < i)%nat → nth_error (map lower status_list) j ≠ Some (lower name))) ∧
  (∀ z, 0 <= z < Z.of_nat (length status_list) →
     _get_valid_id_list lower status_list (FInt z) = Ok [z]) ∧
  (∀ l, Forall (fun e => name_or_position e ∧ resolves lower status_list e ≠ None) l →
     ∃ ids, _get_valid_id_list lower status_list (FList l) = Ok ids ∧
            List.NoDup ids ∧
            ∀ i, In i ids ↔ ∃ e, In e l ∧ resolves lower status_list e = Some i) ∧
  (∀ z, z < 0 ∨ Z.of_nat (length status_list) <= z →
     _get_valid_id_list lower status_list (FInt z) = Raise IndexError) ∧
  (∀ s, (∀ name, In name status_list → lower s ≠ lower name) →
     _get_valid_id_list lower status_list (FStr s) = Raise IndexError) ∧
  (∀ l, Forall name_or_position l →
     Exists (fun e => resolves lower status_list e = None) l →
     _get_valid_id_list lower status_list (FList l) = Raise IndexError).
Proof.
  repeat match goal with |- _ ∧ _ => split end.
  - intros s name Hin Heq. rewrite (FilterFacts.single lower status_list (FStr s) I).
    simpl. destruct (index_of (lower s) (map lower status_list)) as [i|] eqn:Hi.
    + exists i. split; auto. rewrite <- Heq. split.
      * now apply FilterFacts.index_of_nth.
      * now apply FilterFacts.index_of_first.
    + apply FilterFacts.index_of_none in Hi. exfalso. apply Hi.
      rewrite Heq. now apply in_map.
  - intros z Hz. rewrite (FilterFacts.single lower status_list (FInt z) I). simpl.
    destruct (0 <=? z) eqn:E1, (z <? Z.of_nat (length status_list)) eqn:E2; simpl; auto; lia.
  - intros l Hall. unfold _get_valid_id_list.
    destruct (FilterFacts.process_entries_ok lower status_list l ∅ Hall) as (X & HX & Hmem).
    simpl. rewrite HX. simpl. exists (elements X). split; auto. split.
    + apply NoDup_ListNoDup, NoDup_elements.
    + intros i. rewrite <- list_elem_of_In, elem_of_elements, Hmem. split.
      * intros [H|H]; auto. now apply not_elem_of_empty in H.
      * auto.
  - intros z Hz. rewrite (FilterFacts.single lower status_list (FInt z) I). simpl.
    destruct (0 <=? z) eqn:E1, (z <? Z.of_nat (length status_list)) eqn:E2; simpl; auto; lia.
  - intros s Hs. rewrite (FilterFacts.single lower status_list (FStr s) I). simpl.
    assert (Hi : index_of (lower s) (map lower status_list) = None).
    { apply FilterFacts.index_of_none. intros Hin.
      apply in_map_iff in Hin as (name & Hname & Hin). now apply (Hs name). }
    now rewrite Hi.
  - intros l Hall Hex. unfold _get_valid_id_list. simpl.
    now rewrite (FilterFacts.process_entries_bad lower status_list l ∅ Hall Hex).
Qed.

(** On the milestone statuses, with the ASCII lowering: [RELEASED] names
    the status of index 1, and 3 is out of range. *)
Lemma status_filter_resolution_witness :
  _get_valid_id_list ascii_lower qatracker_milestone_status (FStr "RELEASED") = Ok [1] ∧
  _get_valid_id_list ascii_lower qatracker_milestone_status (FInt 3) = Raise IndexError.
Proof.
  destruct (status_filter_resolution ascii_lower qatracker_milestone_status)
    as (Hname & _ & _ & Hint & _).
  split.
  - destruct (Hname "RELEASED" "Released") as (i & Hi & Hnth & _).
    + simpl. auto.
    + reflexivity.
    + destruct i as [|[|[|i]]]; try discriminate Hnth; [exact Hi|].
      destruct i; discriminate Hnth.
  - apply Hint. simpl. lia.
Defined.

(** ** Mutating calls *)

Section Gating.

Variable lower : string → string.
Variable parse_int : string → option Z.
Variable strptime : string → option Z.
Variable py_str : yaml → string.
Variable x_str : xval → string.
Variable server : list rpc_call → rpc_call → res xval.
Variable access : option string.

Local Abbreviation do_add_build := (add_build lower parse_int strptime py_str x_str server access).
Local Abbreviation do_add_result := (add_result lower parse_int strptime py_str x_str server access).
Local Abbreviation to_objects := (objects_of parse_int strptime x_str).

Lemma valid_zero (status_list : list string) :
  status_list ≠ [] → _get_valid_id_list lower status_list (FInt 0) = Ok [0].
Proof.
  intros Hne. rewrite (FilterFacts.single lower status_list (FInt 0) I). simpl.
  destruct status_list; [congruence|reflexivity].
Qed.

Lemma add_build_denied (a : string) self product version note notify tr :
  access = Some a → a ≠ "admin" →
  ∃ e, do_add_build self product version note notify tr = (Raise e, tr) ∧
       (getattr self "status" = Ok (AInt 0) → e = PyException).
Proof.
  intros Ha Hne. apply String.eqb_neq in Hne.
  unfold add_build.
  unfold mbind, M_bind, mlift, mraise. rewrite Ha, Hne. simpl.
  destruct (getattr self "status") as [status|e].
  - destruct (attr_is_zero status) eqn:Hz; simpl.
    + eexists. split; [reflexivity|]. auto.
    + eexists. split; [reflexivity|]. intros [= ->]. discriminate.
  - eexists. split; [reflexivity|]. discriminate.
Qed.

Lemma add_result_denied (a : string) self testcase result comment hardware bugs tr :
  access = Some a → a ≠ "user" → a ≠ "admin" →
  do_add_result self testcase result comment hardware bugs tr = (Raise PyException, tr).
Proof.
  intros Ha Hu Hadm. apply String.eqb_neq in Hu, Hadm.
  unfold add_result. now rewrite Ha, Hu, Hadm.
Qed.

Local Abbreviation build_outcome := (add_build_outcome parse_int strptime py_str x_str server).
Local Abbreviation result_outcome := (add_result_outcome parse_int strptime py_str x_str server).

Ltac atomic x :=
  lazymatch x with
  | context [match _ with _ => _ end] => fail
  | _ => idtac
  end.

Ltac cases :=
  repeat (simpl;
          match goal with
          | |- context [match ?x with _ => _ end] => atomic x; destruct x eqn:?
          end).

Ltac use_answers :=
  repeat match goal with
         | H : server _ _ = _ |- _ => rewrite H; clear H; simpl
         | H : objects_of _ _ _ _ _ = _ |- _ => rewrite H; clear H; simpl
         | H : int_of_answer _ _ = _ |- _ => rewrite H; clear H; simpl
         end.

Lemma add_build_outcomes self product version note notify tr :
  build_outcome version note tr (do_add_build self product version note notify tr).
Proof.
  unfold add_build, get_builds, get_products.
  rewrite !valid_zero by discriminate.
  unfold mbind, M_bind, mret, M_ret, mlift, mraise, rpc.
  cases.
  all: rewrite <- ?app_assoc in *; simpl in *.
  all: try (left; eexists _, []; rewrite app_nil_r;
            split; [reflexivity|]; split; [reflexivity|constructor]).
  all: try (left; eexists _, [products_get_list [0]];
            split; [reflexivity|]; split; [reflexivity|repeat constructor]).
  all: right.
  all: first [ exists (@nil rpc_call); eexists _, _, _; split; [apply List.Forall_nil|];
               rewrite app_nil_r; simpl; use_answers;
               first [ split; reflexivity
                     | split; [reflexivity|]; use_answers; reflexivity ]
             | exists [products_get_list [0]]; eexists _, _, _;
               split; [repeat constructor|];
               simpl; use_answers;
               first [ split; reflexivity
                     | split; [reflexivity|]; use_answers; reflexivity ] ].
Qed.



Lemma add_result_outcomes self testcase result comment hardware bugs tr z :
  testcase_id testcase = Ok (AInt z) →
  result_outcome (AInt z) comment hardware tr
    (do_add_result self testcase result comment hardware bugs tr).
Proof.
  intros Htc. unfold add_result, get_results.
  rewrite !valid_zero by discriminate.
  unfold mbind, M_bind, mret, M_ret, mlift, mraise, rpc.
  rewrite Htc. simpl.
  cases.
  all: rewrite <- ?app_assoc in *; simpl in *.
  all: try (left; eexists; split; reflexivity).
  all: right; eexists _, _, _; use_answers.
  all: repeat match goal with
              | H : (_ =? _) = _ |- _ => rewrite H; clear H
              end.
  all: try (split; reflexivity).
  all: split; [reflexivity|]; use_answers; reflexivity.
Qed.

(** C7, as the code has it.  An access level that is not [None] and is
    not the required one stops the call before any remote call: [add_build]
    raises then, the permission error when the milestone is active, and
    [add_result] raises the permission error.  Whatever the access level,
    [add_build] either raises before any mutating call, or calls
    [builds.add] and, when that call succeeds, asks once for the active
    builds of the milestone and returns the one found among them (the
    answer of [builds.add] is not returned); and [add_result], for a test
    case identified by an integer, either raises before any call, or calls
    [results.add] and, when the answer is an identifier other than -1,
    asks once for the active results of the test case and returns the one
    with that identifier. *)
Theorem mutating_calls_gated :
  (∀ a self product version note notify tr,
     access = Some a → a ≠ "admin" →
     ∃ e, do_add_build self product version note notify tr = (Raise e, tr) ∧
          (getattr self "status" = Ok (AInt 0) → e = PyException)) ∧
  (∀ a self testcase result comment hardware bugs tr,
     access = Some a → a ≠ "user" → a ≠ "admin" →
     do_add_result self testcase result comment hardware bugs tr
     = (Raise PyException, tr)) ∧
  (∀ self product version note notify tr,
     build_outcome version note tr
       (do_add_build self product version note notify tr)) ∧
  (∀ self testcase result comment hardware bugs tr z,
     testcase_id testcase = Ok (AInt z) →
     result_outcome (AInt z) comment hardware tr
       (do_add_result self testcase result comment hardware bugs tr)).
Proof.
  repeat match goal with |- _ ∧ _ => split end.
  - intros. eapply add_build_denied; eauto.
  - intros. eapply add_result_denied; eauto.
  - intros. apply add_build_outcomes.
  - intros. now apply add_result_outcomes.
Qed.

End Gating.

(** A user who is not an administrator is denied [add_build] on an active
    milestone, and no call reaches the server. *)
Lemma mutating_calls_gated_witness :
  add_build ascii_lower no_number no_number text_of xtext_of quiet_server (Some "user")
    active_milestone (Obj active_product) (YStr "20240101") (YStr "") (YBool true) []
  = (Raise PyException, []).
Proof.
  destruct (proj1 (mutating_calls_gated ascii_lower no_number no_number text_of xtext_of
                     quiet_server (Some "user"))
              "user" active_milestone (Obj active_product)
              (YStr "20240101") (YStr "") (YBool true) [] eq_refl)
    as (e & Hrun & He).
  - discriminate.
  - rewrite Hrun, (He eq_refl). reflexivity.
Defined.

(** C7 as stated fails: with the access level [None] the check lets the
    call through and [builds.add] is called; and on a milestone that is not
    active a plain user gets [TypeError], not the permission error. *)
Lemma add_build_gate_exceptions :
  add_build ascii_lower no_number no_number text_of xtext_of quiet_server None
    active_milestone (Obj active_product) (YStr "20240101") (YStr "") (YBool true) []
  = (Ok None, [builds_add (AInt 3) (AInt 7) "20240101" "" true;
               builds_get_list (AInt 7) [0]]) ∧
  add_build ascii_lower no_number no_number text_of xtext_of quiet_server (Some "user")
    archived_milestone (Obj active_product) (YStr "20240101") (YStr "") (YBool true) []
  = (Raise TypeError, []).
Proof. split; reflexivity. Qed.

(** The sources that [sources] lists are those that the lookups find. *)
Lemma sources_are_views (ks : KernelSeries) (name : string) (e : KernelSeriesEntry)
      (l : list KernelSourceEntry) :
  KS.lookup_series ks (YStr name) YNull (YBool false) = Ok (Some e) →
  Series.sources e = Ok l →
  distinct_keys (Series.field e "sources" YNull) →
  ∀ s, In s l → view_of ks (node_of s) = Some s.
Proof.
  intros He Hl Hnd s Hs.
  destruct (ChaseFacts.lookup_key_some _ _ _ He) as ([= ->] & _).
  unfold Series.sources in Hl. unfold view_of, Series.lookup_source.
  destruct (truthy (Series.field e "sources" YNull)) eqn:Ht; simpl in Hl.
  - destruct (Series.field e "sources" YNull) as [| | | | |m] eqn:Hf; try discriminate.
    injection Hl as <-. apply in_map_iff in Hs as ([k v] & <- & Hin).
    unfold node_of. simpl. rewrite He, Hf. simpl.
    apply (in_get_nodup m k v Hnd) in Hin.
    unfold Dict.mem. rewrite Hin. simpl. simpl in Ht. now rewrite Ht.
  - injection Hl as <-. destruct Hs.
Qed.

(** ** The constructors and the shared document

    [KernelSnapEntry.__init__] and [KernelRoutingEntry.__init__] write
    the data they normalise back into the document, which later views
    share.  Building a view again from the data so written gives the
    same data: the views are functions of the document as it was loaded. *)

Module SharedDocument.
Import KernelSnapEntry SnapFacts.

Lemma mem_set {V} (m : list (string * V)) (k k' : string) (v : V) :
  Dict.mem k' (Dict.set k v m) = String.eqb k k' || Dict.mem k' m.
Proof. unfold Dict.mem. rewrite get_set. now destruct (String.eqb k k'). Qed.

Lemma bind_ok {A B} (a : A) (f : A → res B) : (Ok a ≫= f) = f a.
Proof. reflexivity. Qed.

Lemma init_normalizes (m : dict) (d : yaml) :
  init (YMap m) = Ok d → ∃ d', d = YMap d' ∧ normalized_snap d'.
Proof.
  rewrite init_map, convert_arches_map.
  assert (H1 : ∀ m1, (Dict.mem "publish-to" m1 = true ∨ Dict.get "arches" m1 = None) →
               (m2 ← convert_stable (YMap m1); m3 ← expand_promote_to m2; ensure_stable m3)
               = Ok d → ∃ d', d = YMap d' ∧ normalized_snap d').
  { clear m. intros m1 Hp. rewrite convert_stable_map, bind_ok.
    set (m2 := if Dict.mem "promote-to" m1 then m1 else
               match Dict.get "stable" m1 with
               | None => m1
               | Some s => Dict.set "promote-to"
                             (YStr (if is_True s then "stable" else "candidate")) m1
               end).
    assert (Hp2 : Dict.mem "publish-to" m2 = true ∨ Dict.get "arches" m2 = None).
    { subst m2. destruct (Dict.mem "promote-to" m1); auto.
      destruct (Dict.get "stable" m1); auto.
      rewrite mem_set, get_set. simpl. exact Hp. }
    clearbody m2. rewrite expand_promote_to_map, bind_ok.
    set (m3 := match Dict.get "promote-to" m2 with
               | None => Dict.set "promote-to" (YList (map YStr (expand risks "edge"))) m2
               | Some (YStr p) =>
                   Dict.set "promote-to" (YList (map YStr (expand risks p))) m2
               | Some _ => m2
               end).
    assert (Hp3 : (Dict.mem "publish-to" m3 = true ∨ Dict.get "arches" m3 = None) ∧
                  ∃ v, Dict.get "promote-to" m3 = Some v ∧ is_string v = false).
    { subst m3. destruct (Dict.get "promote-to" m2) as [[]|] eqn:E;
        try (split; [exact Hp2|eexists; split; [exact E|reflexivity]]);
        (split; [rewrite mem_set, get_set; exact Hp2
                |eexists; split; [apply get_set_eq|reflexivity]]). }
    clearbody m3. destruct Hp3 as [Hp3 (v & Hv & Hs)].
    rewrite ensure_stable_map, Hv.
    destruct (Dict.mem "stable" m3) eqn:Hst.
    - intros [= <-]. exists m3. repeat split; eauto.
    - destruct (py_contains v "stable") as [b|]; simpl; [|discriminate].
      intros [= <-]. eexists. split; [reflexivity|].
      repeat split.
      + rewrite mem_set, get_set. exact Hp3.
      + exists v. rewrite get_set. auto.
      + now rewrite mem_set. }
  destruct (Dict.mem "publish-to" m) eqn:Hpub; [apply H1; auto|].
  destruct (Dict.get "arches" m) as [arches|] eqn:Ha; [|apply H1; auto].
  destruct (py_iter arches) as [items|]; simpl; [|discriminate].
  destruct (publish_loop (YMap m) items []) as [pt|]; simpl; [|discriminate].
  apply H1. left. now rewrite mem_set.
Qed.

Lemma init_normalized (d : dict) :
  normalized_snap d → init (YMap d) = Ok (YMap d).
Proof.
  intros (Hp & (v & Hv & Hs) & Hst).
  rewrite init_map, convert_arches_map.
  assert (E : (if Dict.mem "publish-to" d then Ok (YMap d) else
               match Dict.get "arches" d with
               | None => Ok (YMap d)
               | Some arches =>
                   items ← py_iter arches;
                   publish_to ← publish_loop (YMap d) items [];
                   Ok (YMap (Dict.set "publish-to" (YMap publish_to) d))
               end) = Ok (YMap d)).
  { destruct Hp as [-> | ->]; auto. now destruct (Dict.mem "publish-to" d). }
  rewrite E, bind_ok, convert_stable_map, bind_ok.
  unfold Dict.mem at 1. rewrite Hv.
  rewrite expand_promote_to_map, bind_ok, Hv.
  assert (E3 : match v with
               | YStr p => Dict.set "promote-to" (YList (map YStr (expand risks p))) d
               | _ => d
               end = d) by (destruct v; auto; discriminate).
  rewrite E3, ensure_stable_map, Hv, Hst. reflexivity.
Qed.

(** A snap rebuilt from the data that its constructor wrote has the same
    data. *)
Lemma snap_init_again (m : dict) (d : yaml) :
  init (YMap m) = Ok d → init d = Ok d.
Proof.
  intros H. destruct (init_normalizes m d H) as (d' & -> & Hn).
  now apply init_normalized.
Qed.

Lemma without_nulls_again (m : dict) : without_nulls (without_nulls m) = without_nulls m.
Proof.
  unfold without_nulls. induction m as [|[k v] m IH]; simpl; auto.
  destruct (is_none v) eqn:E; simpl; auto. now rewrite E, IH.
Qed.

Lemma nodup_without_nulls (m : dict) :
  List.NoDup (Dict.keys m) → List.NoDup (Dict.keys (without_nulls m)).
Proof.
  unfold without_nulls. induction m as [|[k v] m IH]; simpl; auto.
  intros Hnd. apply List.NoDup_cons_iff in Hnd as [Hk Hnd].
  destruct (is_none v); simpl; auto.
  apply List.NoDup_cons; auto. intros Hin. apply Hk.
  apply in_map_iff in Hin as (kv & <- & Hin). apply filter_In in Hin as [Hin _].
  now apply (in_map fst).
Qed.

(** A routing entry rebuilt from the mapping that its constructor cleared
    has the same data. *)
Lemma routing_clear_again (m : dict) :
  List.NoDup (Dict.keys m) →
  Routing.clear (YMap (Routing.strip_none m)) = Routing.clear (YMap m).
Proof.
  intros Hnd. simpl.
  rewrite !RoutingFacts.strip_none_filter; auto.
  - now rewrite without_nulls_again.
  - rewrite RoutingFacts.strip_none_filter; auto. now apply nodup_without_nulls.
Qed.

End SharedDocument.

(** * Further properties *)

(** ** Snaps *)

Module SnapMore.
Import KernelSnapEntry SnapFacts.

#[local] Arguments expand : simpl never.

Ltac gets :=
  repeat first [ rewrite get_set_eq | rewrite get_set_ne by discriminate ].

(** The data that the constructor leaves, read at [promote-to] and at
    [stable]. *)
Lemma init_shape (m : dict) :
  arches_ok m = true → promote_ok m = true →
  ∃ d, init (YMap m) = Ok (YMap d) ∧
       Dict.get "promote-to" d = Some (promoted m) ∧
       match Dict.get "stable" m with
       | Some s => Dict.get "stable" d = Some s
       | None => ∃ b, py_contains (promoted m) "stable" = Ok b ∧
                      Dict.get "stable" d = Some (YBool b)
       end.
Proof.
  intros Ha Hp. rewrite init_map.
  destruct (SnapProps.arches_block m Ha) as (m1 & -> & Hsame & _).
  assert (Hpt : Dict.get "promote-to" m1 = Dict.get "promote-to" m)
    by (apply Hsame; discriminate).
  assert (Hst : Dict.get "stable" m1 = Dict.get "stable" m)
    by (apply Hsame; discriminate).
  rewrite SharedDocument.bind_ok, convert_stable_map, SharedDocument.bind_ok.
  rewrite expand_promote_to_map, SharedDocument.bind_ok, ensure_stable_map.
  unfold promote_ok, promoted, Dict.mem in *. rewrite <- Hpt, <- Hst in *.
  clear Hpt Hst Hsame Ha m. rename m1 into m.
  destruct (Dict.get "promote-to" m) as [pt|] eqn:Hpt.
  - rewrite Hpt.
    destruct (Dict.get "stable" m) as [s|] eqn:Hs.
    + destruct pt; gets; rewrite ?Hpt, ?Hs; eexists; (split; [reflexivity|]); gets; auto.
    + destruct pt; try discriminate; gets; rewrite ?Hpt, ?Hs; simpl;
        eexists; (split; [reflexivity|]); gets; eauto.
  - destruct (Dict.get "stable" m) as [s|] eqn:Hs.
    + gets. rewrite Hs. eexists; (split; [reflexivity|]); gets; auto.
    + rewrite Hpt. gets. rewrite Hs. simpl.
      eexists; (split; [reflexivity|]); gets; eauto.
Qed.

Lemma risk_read (d : dict) (pt : yaml) (risk : string) :
  Dict.get "promote-to" d = Some pt →
  Accessors.promote_to_risk (YMap d) risk = py_contains pt risk.
Proof. intros H. unfold Accessors.promote_to_risk. simpl. now rewrite H. Qed.

Lemma expand_unknown (p : string) : ¬ In p risks → expand risks p = risks.
Proof.
  intros Hp. unfold risks, expand.
  repeat match goal with
         | |- context [String.eqb ?r p] =>
             let E := fresh in
             destruct (String.eqb r p) eqn:E;
             [apply String.eqb_eq in E; exfalso; apply Hp; subst p; simpl; tauto|]
         end.
  reflexivity.
Qed.

Lemma risk_index (r : string) (i : nat) :
  index_of r risks = Some i →
  (i = 0%nat ∧ r = "edge") ∨ (i = 1%nat ∧ r = "beta") ∨
  (i = 2%nat ∧ r = "candidate") ∨ (i = 3%nat ∧ r = "stable").
Proof.
  intros H. apply FilterFacts.index_of_nth in H.
  destruct i as [|[|[|[|i]]]]; simpl in H.
  1-4: injection H as <-; tauto.
  destruct i; discriminate.
Qed.

End SnapMore.

(** X1.  When the mapping of a snap has no [stable], the [stable] that the
    constructor derives agrees with [promote_to_risk("stable")]; a
    [stable] that the mapping gives is kept as it is. *)
Theorem snap_stable_consistent (m : dict) :
  KernelSnapEntry.arches_ok m = true → KernelSnapEntry.promote_ok m = true →
  ∃ d, KernelSnapEntry.init (YMap m) = Ok d ∧
       (Dict.get "stable" m = None →
        ∃ b, KernelSnapEntry.stable d = Ok (YBool b) ∧
             Accessors.promote_to_risk d "stable" = Ok b) ∧
       (∀ s, Dict.get "stable" m = Some s → KernelSnapEntry.stable d = Ok s).
Proof.
  intros Ha Hp. destruct (SnapMore.init_shape m Ha Hp) as (d & Hd & Hpt & Hst).
  exists (YMap d). split; [exact Hd|]. split.
  - intros Hn. rewrite Hn in Hst. destruct Hst as (b & Hb & Hs).
    exists b. split.
    + unfold KernelSnapEntry.stable. simpl. now rewrite Hs.
    + now rewrite (SnapMore.risk_read d _ _ Hpt).
  - intros s Hs. rewrite Hs in Hst. unfold KernelSnapEntry.stable. simpl. now rewrite Hst.
Qed.

Lemma snap_stable_consistent_witness :
  ∃ d, KernelSnapEntry.init (YMap [("promote-to", YStr "candidate")]) = Ok d ∧
       KernelSnapEntry.stable d = Ok (YBool false) ∧
       Accessors.promote_to_risk d "stable" = Ok false.
Proof.
  destruct (snap_stable_consistent [("promote-to", YStr "candidate")] eq_refl eq_refl)
    as (d & Hd & Hderived & _).
  exists d. split; [exact Hd|].
  destruct (Hderived eq_refl) as (b & Hs & Hr).
  assert (Hd' : d = YMap [("promote-to",
                           YList [YStr "edge"; YStr "beta"; YStr "candidate"]);
                          ("stable", YBool false)]).
  { assert (E : KernelSnapEntry.init (YMap [("promote-to", YStr "candidate")])
                = Ok (YMap [("promote-to",
                             YList [YStr "edge"; YStr "beta"; YStr "candidate"]);
                            ("stable", YBool false)])) by reflexivity.
    rewrite E in Hd. now injection Hd as <-. }
  subst d. split; reflexivity.
Defined.

(** X2.  When the mapping of a snap has no [promote-to] or a string one,
    a snap promoted to a risk is promoted to every risk that comes before
    it on the ladder edge, beta, candidate, stable. *)
Theorem snap_promotion_downward (m : dict) (r1 r2 : string) (i j : nat) :
  KernelSnapEntry.arches_ok m = true →
  (Dict.get "promote-to" m = None ∨ ∃ p, Dict.get "promote-to" m = Some (YStr p)) →
  index_of r1 KernelSnapEntry.risks = Some i →
  index_of r2 KernelSnapEntry.risks = Some j →
  (i <= j)%nat →
  ∃ d, KernelSnapEntry.init (YMap m) = Ok d ∧
       (Accessors.promote_to_risk d r2 = Ok true →
        Accessors.promote_to_risk d r1 = Ok true).
Proof.
  intros Ha Hm H1 H2 Hij.
  assert (Hp : KernelSnapEntry.promote_ok m = true).
  { unfold KernelSnapEntry.promote_ok. destruct Hm as [-> | [p ->]]; reflexivity. }
  destruct (SnapMore.init_shape m Ha Hp) as (d & Hd & Hpt & _).
  exists (YMap d). split; [exact Hd|].
  rewrite !(SnapMore.risk_read d _ _ Hpt).
  assert (Hn : ∃ n, promoted m
                    = YList (map YStr (firstn n KernelSnapEntry.risks))).
  { unfold promoted. destruct Hm as [-> | [p ->]].
    - destruct (SnapFacts.expand_prefix KernelSnapEntry.risks
                  match Dict.get "stable" m with
                  | None => "edge"
                  | Some s => if is_True s then "stable" else "candidate"
                  end) as [n ->]. eauto.
    - destruct (SnapFacts.expand_prefix KernelSnapEntry.risks p) as [n ->]. eauto. }
  destruct Hn as [n ->].
  apply SnapMore.risk_index in H1, H2.
  destruct H1 as [[-> ->]|[[-> ->]|[[-> ->]|[-> ->]]]];
    destruct H2 as [[-> ->]|[[-> ->]|[[-> ->]|[-> ->]]]];
    try lia;
    destruct n as [|[|[|[|n]]]]; simpl; auto; discriminate.
Qed.

Lemma snap_promotion_downward_witness :
  ∃ d, KernelSnapEntry.init (YMap [("stable", YBool false)]) = Ok d ∧
       (Accessors.promote_to_risk d "candidate" = Ok true →
        Accessors.promote_to_risk d "beta" = Ok true).
Proof.
  apply (snap_promotion_downward [("stable", YBool false)] "beta" "candidate" 1 2 eq_refl).
  - left. reflexivity.
  - reflexivity.
  - reflexivity.
  - lia.
Defined.

(** X3.  A string [promote-to] that names no risk of the ladder is
    expanded to the whole ladder, stable included: without a [stable] of
    its own, such a snap is marked stable. *)
Theorem snap_unknown_risk (m : dict) (p : string) :
  KernelSnapEntry.arches_ok m = true →
  Dict.get "promote-to" m = Some (YStr p) →
  ¬ In p KernelSnapEntry.risks →
  ∃ d, KernelSnapEntry.init (YMap m) = Ok d ∧
       KernelSnapEntry.promote_to d
       = Ok (YList [YStr "edge"; YStr "beta"; YStr "candidate"; YStr "stable"]) ∧
       (Dict.get "stable" m = None → KernelSnapEntry.stable d = Ok (YBool true)).
Proof.
  intros Ha Hm Hp.
  assert (Hok : KernelSnapEntry.promote_ok m = true).
  { unfold KernelSnapEntry.promote_ok. now rewrite Hm. }
  destruct (SnapMore.init_shape m Ha Hok) as (d & Hd & Hpt & Hst).
  assert (E : promoted m
              = YList [YStr "edge"; YStr "beta"; YStr "candidate"; YStr "stable"]).
  { unfold promoted. rewrite Hm, (SnapMore.expand_unknown p Hp). reflexivity. }
  rewrite E in *. exists (YMap d). split; [exact Hd|]. split.
  - unfold KernelSnapEntry.promote_to. simpl. now rewrite Hpt.
  - intros Hn. rewrite Hn in Hst. destruct Hst as (b & [= <-] & Hs).
    unfold KernelSnapEntry.stable. simpl. now rewrite Hs.
Qed.

Lemma snap_unknown_risk_witness :
  ∃ d, KernelSnapEntry.init (YMap [("promote-to", YStr "Stable")]) = Ok d ∧
       KernelSnapEntry.stable d = Ok (YBool true).
Proof.
  destruct (snap_unknown_risk [("promote-to", YStr "Stable")] "Stable" eq_refl eq_refl)
    as (d & Hd & _ & Hs).
  - simpl. intuition discriminate.
  - exists d. split; [exact Hd|]. now apply Hs.
Defined.

(** X4.  The data that the constructor of a snap leaves have [arches]
    converted, a [promote-to] that is no longer a string and a [stable];
    rebuilding the snap from these data, which the constructor wrote back
    into the document, gives the same data again. *)
Theorem snap_init_idempotent (m : dict) (d : yaml) :
  KernelSnapEntry.init (YMap m) = Ok d →
  (∃ d', d = YMap d' ∧ normalized_snap d') ∧ KernelSnapEntry.init d = Ok d.
Proof.
  intros H. split.
  - now apply (SharedDocument.init_normalizes m).
  - now apply (SharedDocument.snap_init_again m).
Qed.

Lemma snap_init_idempotent_witness :
  KernelSnapEntry.init
    (YMap [("arches", YList [YStr "amd64"]);
           ("publish-to", YMap [("amd64", YList [YStr "latest"])]);
           ("promote-to", YList [YStr "edge"]);
           ("stable", YBool false)])
  = Ok (YMap [("arches", YList [YStr "amd64"]);
              ("publish-to", YMap [("amd64", YList [YStr "latest"])]);
              ("promote-to", YList [YStr "edge"]);
              ("stable", YBool false)]).
Proof.
  apply (proj2 (snap_init_idempotent [("arches", YList [YStr "amd64"])] _ eq_refl)).
Defined.

(** ** Routing entries, repositories and versions *)

Module EntryFacts.

Lemma get_without_nulls (m : dict) (dest : string) :
  List.NoDup (Dict.keys m) →
  Dict.get dest (without_nulls m)
  = match Dict.get dest m with Some YNull => None | o => o end.
Proof.
  unfold without_nulls. induction m as [|[k v] m IH]; simpl; auto.
  intros Hnd. apply List.NoDup_cons_iff in Hnd as [Hk Hnd].
  destruct (String.eqb dest k) eqn:E.
  - apply String.eqb_eq in E. subst k.
    destruct (is_none v) eqn:Hv; simpl.
    + destruct v; try discriminate. rewrite (IH Hnd).
      now rewrite (get_not_in_keys _ _ Hk).
    + rewrite String.eqb_refl. now destruct v.
  - destruct (is_none v); simpl; rewrite ?E; auto.
Qed.

Lemma last_rev (l : list yaml) :
  match rev l with x :: _ => x | [] => YNull end = List.last l YNull.
Proof.
  induction l as [|x l _] using rev_ind; auto.
  now rewrite rev_unit, List.last_last.
Qed.

Lemma py_last_list (l : list yaml) :
  (if negb (truthy (YList l)) then Ok YNull else py_last (YList l)) = Ok (List.last l YNull).
Proof.
  rewrite <- last_rev. destruct l as [|x l]; simpl; auto.
  destruct (rev l ++ [x]) eqn:E; auto.
  apply (f_equal (@length yaml)) in E. rewrite length_app in E. simpl in E. lia.
Qed.

End EntryFacts.

(** X5.  For a routing entry built from a mapping [m], inline or through
    an alias of the routing table, [lookup_destination(dest)] returns what
    [m] holds for [dest], and [None] when it holds nothing: that null
    entries were cleared does not show.  With [primary], the first branch
    of the destination is returned, and an empty list of branches raises
    [IndexError]. *)
Theorem routing_lookup_destination (s : KernelSourceEntry) (m : dict)
        (r : KernelRoutingEntry) :
  List.NoDup (Dict.keys m) →
  (Routing.init s (YMap m) = Ok r ∨
   ∃ alias table, Series.routing_table (so_series s) = YMap table ∧
                  Dict.get alias table = Some (YMap m) ∧
                  Routing.init s (YStr alias) = Ok r) →
  ∀ dest,
    Accessors.lookup_destination r dest false
    = Ok (match Dict.get dest m with Some v => v | None => YNull end) ∧
    (∀ first rest, Dict.get dest m = Some (YList (first :: rest)) →
       Accessors.lookup_destination r dest true = Ok first) ∧
    (Dict.get dest m = Some (YList []) →
       Accessors.lookup_destination r dest true = Raise IndexError) ∧
    (Dict.get dest m = None ∨ Dict.get dest m = Some YNull →
       Accessors.lookup_destination r dest true = Ok YNull).
Proof.
  intros Hnd Hr dest.
  assert (Hdata : rt_data r = without_nulls m).
  { destruct Hr as [Hr|(alias & table & Ht & Ha & Hr)]; unfold Routing.init in Hr.
    - simpl in Hr. injection Hr as <-. simpl. now apply RoutingFacts.strip_none_filter.
    - rewrite Ht in Hr. simpl in Hr. unfold Dict.mem in Hr. rewrite Ha in Hr.
      simpl in Hr. injection Hr as <-. simpl. now apply RoutingFacts.strip_none_filter. }
  unfold Accessors.lookup_destination. rewrite Hdata, (EntryFacts.get_without_nulls m dest Hnd).
  repeat split.
  - destruct (Dict.get dest m) as [[]|]; reflexivity.
  - intros first rest ->. reflexivity.
  - intros ->. reflexivity.
  - intros [-> | ->]; reflexivity.
Qed.

Lemma routing_lookup_destination_witness :
  ∃ r, Routing.init routed_source (YStr "legacy") = Ok r ∧
       Accessors.lookup_destination r "proposed" false = Ok YNull ∧
       Accessors.lookup_destination r "build" true = Ok (YStr "ppa").
Proof.
  eexists. split; [reflexivity|].
  assert (Hnd : List.NoDup (Dict.keys [("build", YList [YStr "ppa"]); ("proposed", YNull);
                                       ("updates", YList [YStr "archive"])])).
  { simpl. repeat constructor; simpl; intuition discriminate. }
  split.
  - refine (proj1 (routing_lookup_destination routed_source _ _ Hnd _ "proposed")).
    right. eexists "legacy", _. repeat split; reflexivity.
  - refine (proj1 (proj2 (routing_lookup_destination routed_source _ _ Hnd _ "build"))
              _ _ eq_refl).
    right. eexists "legacy", _. repeat split; reflexivity.
Defined.

(** X6.  The repository of a package given as a list: [[url]] has the
    branch [master], [[url, branch]] has that branch, and a longer list
    has no branch at all; a package without [repo], or with an empty one,
    has no repository; a [repo] mapping without [url] makes [url] raise
    [KeyError]. *)
Theorem package_repo_normalized (p : KernelPackageEntry) (d : dict) :
  pk_data p = YMap d →
  (∀ url rest, Dict.get "repo" d = Some (YList (url :: rest)) →
     ∃ r, Package.repo p = Ok (Some r) ∧ re_owner r = OwnerPackage p ∧
          Repo.url r = Ok url ∧
          Repo.branch r = Ok (match rest with
                              | [] => YStr "master"
                              | [branch] => branch
                              | _ => YNull
                              end)) ∧
  (Dict.get "repo" d = None → Package.repo p = Ok None) ∧
  (∀ v, Dict.get "repo" d = Some v → truthy v = false → Package.repo p = Ok None) ∧
  (∀ kv rd, Dict.get "repo" d = Some (YMap (kv :: rd)) →
     Dict.get "url" (kv :: rd) = None →
     ∃ r, Package.repo p = Ok (Some r) ∧ Repo.url r = Raise KeyError).
Proof.
  intros Hd. unfold Package.repo. rewrite Hd. simpl.
  repeat split.
  - intros url rest ->. simpl.
    destruct rest as [|branch [|x rest]]; eexists; repeat split; reflexivity.
  - now intros ->.
  - intros v -> Hv. now rewrite Hv.
  - intros kv rd -> Hurl. simpl. eexists. split; [reflexivity|].
    unfold Repo.url. simpl. simpl in Hurl. now rewrite Hurl.
Qed.

Lemma package_repo_normalized_witness :
  ∃ r, Package.repo package_main = Ok (Some r) ∧
       Repo.url r = Ok (YStr "git://k/bionic") ∧ Repo.branch r = Ok (YStr "master").
Proof.
  destruct (proj1 (package_repo_normalized package_main _ eq_refl)
              (YStr "git://k/bionic") [] eq_refl) as (r & Hr & _ & Hu & Hb).
  exists r. auto.
Defined.

(** X7.  [version] is the last entry of the versions of a source, and
    [None] when the list is empty; a source that goes to another source
    for its versions has the version of that source. *)
Theorem source_version (ks : KernelSeries) (s : KernelSourceEntry) (d : dict) :
  so_data s = YMap d →
  (∀ l fuel, Dict.get "versions" d = Some (YList l) →
     Accessors.version (S fuel) ks s = Some (Ok (List.last l YNull))) ∧
  (∀ t fuel, next ks s = Some t →
     Accessors.version (S fuel) ks s = Accessors.version fuel ks t).
Proof.
  intros Hd. split.
  - intros l fuel Hl. unfold Accessors.version.
    rewrite (VersionsFacts.versions_explicit ks s d _ fuel Hd Hl).
    now rewrite EntryFacts.py_last_list.
  - intros t fuel Hn. unfold Accessors.version.
    now rewrite (VersionsFacts.versions_next ks s t fuel Hn).
Qed.

Lemma source_version_witness :
  ∃ b, first_source two_series "B" = Some b ∧
       Accessors.version 2 two_series b = Some (Ok (YStr "4.15")).
Proof.
  eexists. split; [reflexivity|].
  match goal with |- Accessors.version _ _ ?b = _ => set (sb := b) end.
  destruct (source_version two_series sb _ eq_refl) as [_ Hnext].
  rewrite (Hnext _ 1%nat eq_refl).
  match goal with |- Accessors.version _ _ ?a = _ => set (sa := a) end.
  destruct (source_version two_series sa _ eq_refl) as [Hlast _].
  now rewrite (Hlast _ 0%nat eq_refl).
Defined.

(** ** Listing and looking up *)

Module ListingFacts.

Lemma in_items_get {V} (m : list (string * V)) (k : string) (v : V) :
  List.NoDup (Dict.keys m) → (In (k, v) m ↔ Dict.get k m = Some v).
Proof. intros Hnd. split; [now apply in_get_nodup|apply get_in]. Qed.

Lemma snap_entries_spec (s : KernelSourceEntry) (items : dict) (l : list KernelSnapEntry) :
  Accessors.snap_entries s items = Ok l →
  map sn_name l = Dict.keys items ∧
  ∀ sn, In sn l ↔ ∃ v, In (sn_name sn, v) items ∧
                       KernelSnapEntry.init v = Ok (sn_data sn) ∧ sn_source sn = s.
Proof.
  revert l. induction items as [|[k v] items IH]; simpl; intros l.
  - intros [= <-]. split; auto. intros sn. split; [intros []|intros (? & [] & _)].
  - destruct (KernelSnapEntry.init v) as [d|] eqn:Hd; simpl; [|discriminate].
    destruct (Accessors.snap_entries s items) as [l0|]; simpl; [|discriminate].
    intros [= <-]. destruct (IH l0 eq_refl) as [Hnames Hin]. simpl. split.
    + now rewrite Hnames.
    + intros sn. rewrite Hin. split.
      * intros [<-|(v' & Hv' & Hi & Hs)]; simpl; [exists v|exists v']; auto.
      * intros (v' & [[= Hk <-]|Hv'] & Hi & Hs).
        -- left. destruct sn; simpl in *. congruence.
        -- right. exists v'. auto.
Qed.

End ListingFacts.



(** X9.  When [snaps] returns, it lists the keys of the [snaps] mapping
    in order, and [lookup_snap(k)] returns a snap exactly when the list
    has a snap named [k], and then that one. *)
Theorem snaps_lookup (s : KernelSourceEntry) (d m : dict) (l : list KernelSnapEntry) :
  so_data s = YMap d → Dict.get "snaps" d = Some (YMap m) →
  List.NoDup (Dict.keys m) →
  Accessors.snaps s = Ok l →
  map sn_name l = Dict.keys m ∧
  ∀ k sn, Source.lookup_snap s k = Ok (Some sn) ↔ In sn l ∧ sn_name sn = k.
Proof.
  intros Hd Hm Hnd. unfold Accessors.snaps, Source.lookup_snap.
  rewrite Hd. simpl. rewrite Hm.
  destruct m as [|kv m'] eqn:Em.
  - simpl. intros [= <-]. repeat split; try discriminate. intros [[] _].
  - rewrite <- Em in *. assert (Ht : truthy (YMap m) = true) by now rewrite Em.
    rewrite Ht. simpl. intros Hl.
    destruct (ListingFacts.snap_entries_spec s m l Hl) as [Hnames Hin].
    split; auto. intros k sn. unfold Dict.mem. rewrite Hin. split.
    + destruct (Dict.get k m) as [v|] eqn:Hk; simpl; [|discriminate].
      destruct (KernelSnapEntry.init v) as [dv|] eqn:Hv; simpl; [|discriminate].
      intros [= <-]. simpl. split; auto. exists v. repeat split; auto.
      now apply get_in.
    + intros [(v & Hv & Hi & Hs) <-].
      apply (in_get_nodup m _ v Hnd) in Hv. rewrite Hv. simpl. rewrite Hi. simpl.
      destruct sn; simpl in *. now subst.
Qed.

Lemma snaps_lookup_witness :
  ∃ l, Accessors.snaps snapped_source = Ok l ∧
       map sn_name l = ["pc-kernel"; "core"] ∧
       ∀ sn, Source.lookup_snap snapped_source "core" = Ok (Some sn) → In sn l.
Proof.
  eexists. split; [reflexivity|].
  refine ((fun H => conj (proj1 H) (fun sn Hsn => proj1 (proj1 (proj2 H "core" sn) Hsn)))
            (snaps_lookup snapped_source _ _ _ eq_refl eq_refl _ eq_refl)).
  simpl. repeat constructor; simpl; intuition discriminate.
Defined.

(** X10.  The sources of a series as [sources] lists them are the keys of
    its [sources] mapping, in order, and [lookup_source(k)] returns a
    source exactly when the list has a source named [k], and then that
    one; for a key that is absent it returns [None]. *)
Theorem sources_lookup (e : KernelSeriesEntry) (m : dict) :
  Series.field e "sources" YNull = YMap m → List.NoDup (Dict.keys m) →
  ∃ l, Series.sources e = Ok l ∧ map so_name l = Dict.keys m ∧
       (∀ k t, Series.lookup_source e (YStr k) = Ok (Some t) ↔ In t l ∧ so_name t = k) ∧
       (∀ k, Dict.get k m = None → Series.lookup_source e (YStr k) = Ok None).
Proof.
  intros Hm Hnd. unfold Series.sources, Series.lookup_source. rewrite Hm.
  destruct m as [|kv m'] eqn:Em.
  - simpl. exists []. repeat split; try discriminate. intros [[] _].
  - rewrite <- Em in *. assert (Ht : truthy (YMap m) = true) by now rewrite Em.
    rewrite Ht. simpl.
    eexists. split; [reflexivity|]. split.
    { rewrite map_map. reflexivity. }
    unfold Dict.mem. split.
    + intros k t. split.
      * destruct (Dict.get k m) as [v|] eqn:Hk; simpl; [|discriminate].
        intros [= <-]. split; auto. apply in_map_iff. exists (k, v). split; auto.
        now apply get_in.
      * intros [Hin <-]. apply in_map_iff in Hin as ([k v] & <- & Hin). simpl.
        apply (in_get_nodup m k v Hnd) in Hin. now rewrite Hin.
    + intros k ->. reflexivity.
Qed.

Lemma sources_lookup_witness :
  KS.lookup_series two_series (YStr "A") YNull (YBool false) = Ok (Some series_A) ∧
  ∃ l, Series.sources series_A = Ok l ∧ map so_name l = ["linux"] ∧
       Series.lookup_source series_A (YStr "linux-aws") = Ok None.
Proof.
  split; [reflexivity|].
  destruct (sources_lookup series_A _ eq_refl) as (l & Hl & Hn & _ & Habsent).
  - simpl. repeat constructor; simpl; intuition discriminate.
  - exists l. split; [exact Hl|]. split; [exact Hn|].
    now apply Habsent.
Defined.


(** ** The series of a document *)

Module DocumentFacts.

Lemma entries_spec (defaults : yaml) (items : dict) (l : list KernelSeriesEntry) :
  KS.entries defaults items = Ok l →
  map se_name l = Dict.keys items ∧
  ∀ e, In e l ↔ ∃ v, In (se_name e, v) items ∧ Series.init (se_name e) v defaults = Ok e.
Proof.
  revert l. induction items as [|[k v] items IH]; simpl; intros l.
  - intros [= <-]. split; auto. intros e. split; [intros []|intros (? & [] & _)].
  - destruct (Series.init k v defaults) as [e0|] eqn:He0; simpl; [|discriminate].
    destruct (KS.entries defaults items) as [l0|]; simpl; [|discriminate].
    intros [= <-]. destruct (IH l0 eq_refl) as [Hnames Hin].
    pose proof (ChaseFacts.init_name _ _ _ _ He0) as Hn0. simpl. split.
    + now rewrite Hnames, Hn0.
    + intros e. rewrite Hin. split.
      * intros [<-|(v' & Hv' & Hi)]; [exists v|exists v']; rewrite ?Hn0; auto.
      * intros (v' & [[= Hk <-]|Hv'] & Hi).
        -- left. rewrite <- Hk in Hi. congruence.
        -- right. exists v'. auto.
Qed.

Lemma get_del_eq {V} (m : list (string * V)) (k : string) :
  List.NoDup (Dict.keys m) → Dict.get k (Dict.del k m) = None.
Proof.
  induction m as [|[k' v'] m IH]; simpl; auto.
  intros Hnd. apply List.NoDup_cons_iff in Hnd as [Hk Hnd].
  destruct (String.eqb k k') eqn:E.
  - apply String.eqb_eq in E. subst k'. now apply get_not_in_keys.
  - simpl. rewrite E. auto.
Qed.

Lemma in_get_some {V} (m : list (string * V)) (k : string) (v : V) :
  In (k, v) m → ∃ v', Dict.get k m = Some v'.
Proof.
  induction m as [|[k' v'] m IH]; simpl; [tauto|].
  destruct (String.eqb k k') eqn:E; eauto.
  intros [[= -> _]|Hin]; auto. now rewrite String.eqb_refl in E.
Qed.

Lemma lookup_key (ks : KernelSeries) (name : string) (codename development : yaml) :
  name ≠ "" →
  KS.lookup_series ks (YStr name) codename development
  = match Dict.get name (ks_data ks) with
    | None => Ok None
    | Some data =>
        e ← Series.init name data (ks_defaults_series ks); Ok (Some e)
    end.
Proof.
  intros Hn. apply String.eqb_neq in Hn.
  unfold KS.lookup_series, KS.lookup_by_key. simpl. rewrite Hn. simpl.
  unfold Dict.mem. destruct (Dict.get name (ks_data ks)); reflexivity.
Qed.

(** What the loop of the constructor has recorded. *)
Lemma scan_records (items : dict) dev c2s dev' c2s' :
  KS.scan items dev c2s = Ok (dev', c2s') →
  (∀ k, dev' = Some k → dev = Some k ∨
        ∃ m, In (k, YMap m) items ∧
             truthy (match Dict.get "development" m with
                     | Some x => x
                     | None => YBool false
                     end) = true) ∧
  (∀ c k, Dict.get c c2s' = Some k → Dict.get c c2s = Some k ∨
          ∃ m, In (k, YMap m) items ∧ Dict.get "codename" m = Some (YStr c)).
Proof.
  revert dev c2s. induction items as [|[k0 v0] items IH]; intros dev c2s; simpl.
  - intros [= <- <-]. split; auto.
  - destruct (truthy v0) eqn:Ht; simpl.
    + destruct v0 as [| | | | |m0]; simpl; try discriminate.
      set (dev1 := if truthy match Dict.get "development" m0 with
                             | Some x => x
                             | None => YBool false
                             end then Some k0 else dev).
      assert (Hdev1 : ∀ k, dev1 = Some k → dev = Some k ∨
                (k = k0 ∧ truthy match Dict.get "development" m0 with
                                 | Some x => x
                                 | None => YBool false
                                 end = true)).
      { intros k. subst dev1.
        destruct (truthy match Dict.get "development" m0 with
                         | Some x => x
                         | None => YBool false
                         end); auto. intros [= <-]. auto. }
      clearbody dev1. unfold Dict.mem.
      destruct (Dict.get "codename" m0) as [cn|] eqn:Hcn; simpl.
      * destruct (as_key cn) as [c0|] eqn:Hc0; simpl; [|discriminate].
        destruct cn; try discriminate. injection Hc0 as ->.
        intros Hscan. destruct (IH _ _ Hscan) as [Hd Hc]. split.
        -- intros k Hk. destruct (Hd k Hk) as [H|(m & Hin & Hm)].
           ++ destruct (Hdev1 k H) as [?|[-> ?]]; eauto.
           ++ right. exists m. auto.
        -- intros c k Hk. destruct (Hc c k Hk) as [H|(m & Hin & Hm)].
           ++ rewrite get_set in H. destruct (String.eqb c0 c) eqn:E; auto.
              apply String.eqb_eq in E. subst c0. injection H as <-. eauto.
           ++ right. exists m. auto.
      * intros Hscan. destruct (IH _ _ Hscan) as [Hd Hc]. split.
        -- intros k Hk. destruct (Hd k Hk) as [H|(m & Hin & Hm)].
           ++ destruct (Hdev1 k H) as [?|[-> ?]]; eauto.
           ++ right. exists m. auto.
        -- intros c k Hk. destruct (Hc c k Hk) as [H|(m & Hin & Hm)]; auto.
           right. exists m. auto.
    + intros Hscan. destruct (IH _ _ Hscan) as [Hd Hc]. split.
      * intros k Hk. destruct (Hd k Hk) as [H|(m & Hin & Hm)]; auto.
        right. exists m. auto.
      * intros c k Hk. destruct (Hc c k Hk) as [H|(m & Hin & Hm)]; auto.
        right. exists m. auto.
Qed.

(** The parts of a constructed [KernelSeries], from its document. *)
Lemma init_parts (document : yaml) (ks : KernelSeries) :
  KS.init document = Ok ks →
  ∃ data, document = YMap data ∧
          KS.scan data None [] = Ok (ks_development_series ks, ks_codename_to_series ks) ∧
          (∀ kv, In kv (ks_data ks) → In kv data) ∧
          (List.NoDup (Dict.keys data) → Dict.get "defaults" (ks_data ks) = None).
Proof.
  destruct document as [| | | | |data]; try discriminate. unfold KS.init.
  destruct (KS.scan data None []) as [[dev c2s]|] eqn:Hscan; simpl; [|discriminate].
  destruct (Dict.get "defaults" data) as [defaults|] eqn:Hd; intros [= <-]; simpl;
    exists data; repeat split; auto.
  - intros kv. apply SeriesFacts.in_del.
  - apply get_del_eq.
Qed.

End DocumentFacts.

(** X11.  [series] lists one view per key of the document, in order, and
    for a key other than the empty string [lookup_series(key)] returns a
    view exactly when the list has a view of that name, and then that
    one.  A series keyed by the empty string is listed, but asking for it
    by key raises [ValueError]. *)
Theorem series_lookup (ks : KernelSeries) (l : list KernelSeriesEntry) :
  List.NoDup (Dict.keys (ks_data ks)) → KS.series ks = Ok l →
  map se_name l = Dict.keys (ks_data ks) ∧
  (∀ name e, name ≠ "" →
     (KS.lookup_series ks (YStr name) YNull (YBool false) = Ok (Some e)
      ↔ In e l ∧ se_name e = name)) ∧
  KS.lookup_series ks (YStr "") YNull (YBool false) = Raise ValueError.
Proof.
  intros Hnd Hl. unfold KS.series in Hl.
  destruct (DocumentFacts.entries_spec _ _ _ Hl) as [Hnames Hin].
  split; [exact Hnames|]. split; [|reflexivity].
  intros name e Hname. rewrite (DocumentFacts.lookup_key ks name _ _ Hname), Hin. split.
  - destruct (Dict.get name (ks_data ks)) as [data|] eqn:Hget; [|discriminate].
    destruct (Series.init name data (ks_defaults_series ks)) as [e'|] eqn:He;
      simpl; [|discriminate].
    intros [= <-]. pose proof (ChaseFacts.init_name _ _ _ _ He) as Hn.
    split; auto. exists data. rewrite Hn. split; auto. now apply get_in.
  - intros [(v & Hv & Hi) <-].
    apply (in_get_nodup _ _ _ Hnd) in Hv. now rewrite Hv, Hi.
Qed.

Lemma series_lookup_witness :
  ∃ l, KS.series two_series = Ok l ∧ map se_name l = ["A"; "B"] ∧ In series_A l.
Proof.
  eexists. split; [reflexivity|].
  match goal with |- map se_name ?l = _ ∧ _ =>
    destruct (series_lookup two_series l) as (Hnames & Hiff & _)
  end.
  - simpl. repeat constructor; simpl; intuition discriminate.
  - reflexivity.
  - split; [exact Hnames|].
    apply (proj1 (Hiff "A" series_A ltac:(discriminate))). reflexivity.
Defined.

(** X12.  The [defaults] block is not a series: once the document is
    loaded, [lookup_series("defaults")] returns [None] and [series] lists
    no view of that name. *)
Theorem defaults_not_a_series (document : yaml) (ks : KernelSeries) :
  distinct_keys document → KS.init document = Ok ks →
  (∀ codename development,
     KS.lookup_series ks (YStr "defaults") codename development = Ok None) ∧
  (∀ l, KS.series ks = Ok l → ¬ In "defaults" (map se_name l)).
Proof.
  intros Hnd Hinit.
  destruct (DocumentFacts.init_parts _ _ Hinit) as (data & -> & _ & _ & Hdef).
  specialize (Hdef Hnd). split.
  - intros c d. rewrite DocumentFacts.lookup_key by discriminate. now rewrite Hdef.
  - intros l Hl Hin. unfold KS.series in Hl.
    destruct (DocumentFacts.entries_spec _ _ _ Hl) as [Hnames _].
    rewrite Hnames in Hin. apply in_map_iff in Hin as ([k v] & Hk & Hin).
    simpl in Hk. subst k.
    destruct (DocumentFacts.in_get_some _ _ _ Hin) as [v' Hv']. congruence.
Qed.

Lemma defaults_not_a_series_witness :
  ∃ ks, KS.init defaults_document = Ok ks ∧
        KS.lookup_series ks (YStr "defaults") YNull (YBool false) = Ok None.
Proof.
  eexists. split; [reflexivity|].
  refine (proj1 (defaults_not_a_series defaults_document _ _ eq_refl) YNull (YBool false)).
  simpl. repeat constructor; simpl; intuition discriminate.
Defined.

Module SelectorFacts.

Lemma same_value {V} (m : list (string * V)) (k : string) (v v' : V) :
  List.NoDup (Dict.keys m) → In (k, v) m → In (k, v') m → v = v'.
Proof.
  intros Hnd H H'. apply (in_get_nodup _ _ _ Hnd) in H, H'. congruence.
Qed.

(** The view that [lookup_series] builds for a key recorded by the
    constructor holds what the series itself gives to a key [f]. *)
Lemma recorded_view (document : yaml) (ks : KernelSeries) (data m : dict)
      (key f : string) (x : yaml) (e : KernelSeriesEntry) :
  wf_document document → KS.init document = Ok ks → document = YMap data →
  In (key, YMap m) data → Dict.get f m = Some x →
  KS.lookup_by_key ks (YStr key) = Ok (Some e) →
  Dict.get f (se_data e) = Some x.
Proof.
  intros Hwf Hinit -> Hin Hf Hl.
  destruct (SeriesFacts.init_invariant _ _ Hwf Hinit) as (Hnd & Hvals & Hdef).
  destruct (DocumentFacts.init_parts _ _ Hinit) as (data' & [= <-] & _ & Hsub & _).
  apply SeriesFacts.lookup_by_key_some in Hl as (name & own & [= <-] & Hget & Hi).
  assert (Hown : own = YMap m).
  { destruct Hwf as [Hnd' _]. simpl in Hnd'.
    eapply (same_value data key); eauto. apply Hsub. now apply get_in. }
  subst own.
  destruct (SeriesFacts.init_get key (YMap m) _ e f
              (Hvals _ _ (get_in _ _ _ Hget)) Hdef Hi) as [_ ->].
  simpl. now rewrite Hf.
Qed.

End SelectorFacts.

(** X13.  In a document that [KernelSeries] accepts, the series that
    [lookup_series(codename=c)] returns has the codename [c]. *)
Theorem codename_lookup (document : yaml) (ks : KernelSeries) (c : string)
        (e : KernelSeriesEntry) :
  wf_document document → KS.init document = Ok ks →
  KS.lookup_series ks YNull (YStr c) (YBool false) = Ok (Some e) →
  Series.codename e = YStr c.
Proof.
  intros Hwf Hinit Hl.
  destruct (DocumentFacts.init_parts _ _ Hinit) as (data & Hdoc & Hscan & _ & _).
  destruct (DocumentFacts.scan_records _ _ _ _ _ Hscan) as [_ Hc2s].
  unfold KS.lookup_series in Hl. simpl in Hl.
  destruct (String.eqb c "") eqn:Hc; simpl in Hl; [discriminate|].
  unfold Dict.mem in Hl.
  destruct (Dict.get c (ks_codename_to_series ks)) as [key|] eqn:Hkey;
    simpl in Hl; [|discriminate].
  rewrite andb_false_r in Hl.
  destruct (Hc2s c key Hkey) as [H|(m & Hin & Hm)]; [discriminate|].
  unfold Series.codename, Series.field.
  now rewrite (SelectorFacts.recorded_view document ks data m key "codename" (YStr c) e).
Qed.

Lemma codename_lookup_witness :
  ∃ e, KS.lookup_series two_series YNull (YStr "b") (YBool false) = Ok (Some e) ∧
       se_name e = "B" ∧ Series.codename e = YStr "b".
Proof.
  eexists. split; [reflexivity|]. split; [reflexivity|].
  apply (codename_lookup two_series_document two_series "b"); try reflexivity.
  split.
  - simpl. repeat constructor; simpl; intuition discriminate.
  - intros m [= <-] k v [[= <- <-]|[[= <- <-]|[]]]; simpl;
      repeat constructor; simpl; intuition discriminate.
Defined.

(** X14.  In a document that [KernelSeries] accepts, the series that
    [lookup_series(development=True)] returns is marked as in
    development. *)
Theorem development_lookup (document : yaml) (ks : KernelSeries) (e : KernelSeriesEntry) :
  wf_document document → KS.init document = Ok ks →
  KS.lookup_series ks YNull YNull (YBool true) = Ok (Some e) →
  truthy (Series.development e) = true.
Proof.
  intros Hwf Hinit Hl.
  destruct (DocumentFacts.init_parts _ _ Hinit) as (data & Hdoc & Hscan & _ & _).
  destruct (DocumentFacts.scan_records _ _ _ _ _ Hscan) as [Hdev _].
  unfold KS.lookup_series in Hl. simpl in Hl.
  destruct (ks_development_series ks) as [dev|] eqn:Hd; [|discriminate].
  destruct (negb (String.eqb dev "")) eqn:Hne; [|discriminate].
  destruct (Hdev dev eq_refl) as [H|(m & Hin & Hm)]; [discriminate|].
  destruct (Dict.get "development" m) as [x|] eqn:Hx; [|discriminate].
  unfold Series.development, Series.field.
  now rewrite (SelectorFacts.recorded_view document ks data m dev "development" x e).
Qed.

Lemma development_lookup_witness :
  ∃ e, KS.lookup_series two_series YNull YNull (YBool true) = Ok (Some e) ∧
       se_name e = "B" ∧ truthy (Series.development e) = true.
Proof.
  eexists. split; [reflexivity|]. split; [reflexivity|].
  apply (development_lookup two_series_document two_series); try reflexivity.
  split.
  - simpl. repeat constructor; simpl; intuition discriminate.
  - intros m [= <-] k v [[= <- <-]|[[= <- <-]|[]]]; simpl;
      repeat constructor; simpl; intuition discriminate.
Defined.

Module OpeningFacts.

(** A mapping is neither [None] nor equal to [True] or [False]. *)
Lemma ready_mapping (s : KernelSeriesEntry) (m : dict) (flags : list string) :
  Dict.get "opening" (se_data s) = Some (YMap m) →
  Accessors.opening_ready s flags = Accessors.flags_allowed (YMap m) flags.
Proof.
  intros H. unfold Accessors.opening_ready. now rewrite H.
Qed.

Lemma flags_allowed_true (allow : yaml) (flags : list string) :
  Accessors.flags_allowed allow flags = Ok true ↔
  ∀ f, In f flags →
       ∃ v, py_get allow f (YBool false) = Ok v ∧ is_none v = false ∧ is_False v = false.
Proof.
  induction flags as [|flag rest IH]; simpl.
  - split; [intros _ f []|reflexivity].
  - destruct (py_get allow flag (YBool false)) as [v|e] eqn:Hv; simpl.
    + destruct (is_none v || is_False v) eqn:Hb.
      * split; [discriminate|]. intros H.
        destruct (H flag (or_introl eq_refl)) as (v' & Hv' & Hn & Hf).
        rewrite Hv in Hv'. injection Hv' as <-.
        rewrite Hn, Hf in Hb. discriminate.
      * apply orb_false_iff in Hb as [Hn Hf]. rewrite IH. split.
        -- intros H f [<-|Hin]; eauto.
        -- intros H f Hin. apply H. now right.
    + split; [discriminate|]. intros H.
      destruct (H flag (or_introl eq_refl)) as (v' & Hv' & _).
      rewrite Hv in Hv'. discriminate.
Qed.

Lemma flags_allowed_mapping (m : dict) (flags : list string) :
  ∃ b, Accessors.flags_allowed (YMap m) flags = Ok b.
Proof.
  induction flags as [|flag rest IH]; simpl; eauto.
  destruct (is_none _ || is_False _); eauto.
Qed.

End OpeningFacts.

(** X15.  A series that is not opening is ready, whatever flags are asked
    for: [opening] false makes [opening_ready] true. *)
Theorem opening_closed_is_ready (s : KernelSeriesEntry) (flags : list string) :
  Accessors.opening s = false → Accessors.opening_ready s flags = Ok true.
Proof.
  unfold Accessors.opening, Accessors.opening_ready.
  destruct (Dict.get "opening" (se_data s)) as [allow|]; [|reflexivity].
  destruct allow as [|[]| | | |]; simpl; try discriminate. reflexivity.
Qed.

Lemma opening_closed_is_ready_witness :
  Accessors.opening series_A = false ∧
  Accessors.opening_ready series_A ["repositories"; "builds"] = Ok true.
Proof.
  split; [reflexivity|]. apply opening_closed_is_ready. reflexivity.
Defined.

(** X16.  When [opening] is a mapping, [opening_ready] returns a boolean,
    and returns [True] exactly when every flag asked for is a key of the
    mapping with a value that is neither [None] nor [False]; a flag that
    the mapping lacks counts as not ready. *)
Theorem opening_ready_flags (s : KernelSeriesEntry) (m : dict) (flags : list string) :
  Dict.get "opening" (se_data s) = Some (YMap m) →
  (∃ b, Accessors.opening_ready s flags = Ok b) ∧
  (Accessors.opening_ready s flags = Ok true ↔
   ∀ f, In f flags →
        ∃ v, Dict.get f m = Some v ∧ is_none v = false ∧ is_False v = false).
Proof.
  intros H. rewrite (OpeningFacts.ready_mapping s m flags H). split.
  - apply OpeningFacts.flags_allowed_mapping.
  - rewrite OpeningFacts.flags_allowed_true. split; intros Hf f Hin.
    + destruct (Hf f Hin) as (v & Hv & Hn & Hfalse). simpl in Hv.
      destruct (Dict.get f m) as [x|]; injection Hv as <-; [eauto|discriminate].
    + destruct (Hf f Hin) as (v & Hv & Hn & Hfalse). exists v. simpl.
      rewrite Hv. auto.
Qed.

Lemma opening_ready_flags_witness :
  Accessors.opening_ready opening_series ["repositories"] = Ok true ∧
  Accessors.opening_ready opening_series ["repositories"; "builds"] = Ok false ∧
  Accessors.opening_ready opening_series ["snaps"] = Ok false.
Proof.
  destruct (opening_ready_flags opening_series
              [("repositories", YBool true); ("builds", YBool false); ("tasks", YNull)]
              ["repositories"] eq_refl) as [_ [_ H]].
  split; [|split; reflexivity].
  apply H. intros f [<-|[]]. exists (YBool true). auto.
Defined.

(** X17.  Asking [opening_ready] for two groups of flags at once gives
    [True] exactly when asking for each group gives [True]. *)
Theorem opening_ready_app (s : KernelSeriesEntry) (flags1 flags2 : list string) :
  Accessors.opening_ready s (flags1 ++ flags2) = Ok true ↔
  Accessors.opening_ready s flags1 = Ok true ∧
  Accessors.opening_ready s flags2 = Ok true.
Proof.
  unfold Accessors.opening_ready.
  destruct (Dict.get "opening" (se_data s)) as [allow|]; [|tauto].
  destruct (is_none allow); [split; [discriminate|intros [H _]; discriminate]|].
  destruct (Accessors.is_true_or_false allow); [tauto|].
  rewrite !OpeningFacts.flags_allowed_true. split.
  - intros H. split; intros f Hin; apply H, in_or_app; auto.
  - intros [H1 H2] f Hin. apply in_app_or in Hin as [Hin|Hin]; auto.
Qed.

(** X18.  A source whose [derived-from] is the pair of a series key and a
    source key: when the document has no series of that key,
    [derived_from] raises [AttributeError]; when it returns a source, that
    source has the two keys as the name of its series and as its name, and
    is the view that the two lookups give; and when it returns [None], the
    series is there and lacks the source. *)
Theorem derived_from_resolution (ks : KernelSeries) (s : KernelSourceEntry) (m : dict)
        (series_key source_key : string) :
  so_data s = YMap m →
  Dict.get "derived-from" m = Some (YList [YStr series_key; YStr source_key]) →
  series_key ≠ "" →
  (Dict.get series_key (ks_data ks) = None →
   Source.derived_from ks s = Raise AttributeError) ∧
  (∀ d, Source.derived_from ks s = Ok (Some d) →
        se_name (so_series d) = series_key ∧ so_name d = source_key ∧
        view_of ks (series_key, source_key) = Some d) ∧
  (Source.derived_from ks s = Ok None →
   ∃ e, KS.lookup_series ks (YStr series_key) YNull (YBool false) = Ok (Some e) ∧
        Series.lookup_source e (YStr source_key) = Ok None).
Proof.
  intros Hdata Hpair Hkey.
  assert (Hd : Source.derived_from ks s =
               (series ← KS.lookup_series ks (YStr series_key) YNull (YBool false);
                match series with
                | Some series => Series.lookup_source series (YStr source_key)
                | None => Raise AttributeError
                end)).
  { unfold Source.derived_from. rewrite Hdata. simpl. unfold Dict.mem.
    rewrite Hpair. reflexivity. }
  rewrite Hd. split; [|split].
  - intros Hnone. rewrite (DocumentFacts.lookup_key ks series_key _ _ Hkey), Hnone.
    reflexivity.
  - intros d H.
    destruct (KS.lookup_series ks (YStr series_key) YNull (YBool false))
      as [[e|]|] eqn:He; simpl in H; try discriminate.
    destruct (ChaseFacts.lookup_key_some _ _ _ He) as ([= Hn] & _).
    destruct (ChaseFacts.lookup_source_some _ _ _ H) as ([= Hs] & Hse & _).
    pose proof (ChaseFacts.lookups_view _ _ _ _ _ He H) as Hview.
    unfold node_of in Hview. rewrite Hse, <- Hn, <- Hs in Hview.
    rewrite Hse. auto.
  - intros H.
    destruct (KS.lookup_series ks (YStr series_key) YNull (YBool false))
      as [[e|]|]; simpl in H; try discriminate. eauto.
Qed.

Lemma derived_from_resolution_witness :
  Source.derived_from two_series dangling_source = Raise AttributeError.
Proof.
  apply (derived_from_resolution two_series dangling_source
           [("derived-from", YList [YStr "C"; YStr "linux"])] "C" "linux");
    try reflexivity. discriminate.
Defined.

Module TestingFacts.

Lemma flavour_entries_spec (fl : dict) :
  ∀ (items : dict) (l : list KernelSourceTestingFlavourEntry),
    (∀ k v, In (k, v) items → Dict.get k fl = Some v) →
    Testing.flavour_entries (YMap fl) (map fst items) = Ok l →
    map fl_name l = map fst (List.filter (fun kv => truthy (snd kv)) items) ∧
    ∀ e, In e l →
         ∃ d, In (fl_name e, YMap d) items ∧
              fl_arches e = match Dict.get "arches" d with
                            | Some x => if is_none x then YList [] else x
                            | None => YList []
                            end ∧
              fl_clouds e = match Dict.get "clouds" d with
                            | Some x => if is_none x then YList [] else x
                            | None => YList []
                            end.
Proof.
  induction items as [|[k v] rest IH]; intros l Hget; simpl.
  - intros [= <-]. split; [reflexivity|intros e []].
  - rewrite (Hget k v (or_introl eq_refl)). simpl.
    assert (Hrest : ∀ k v, In (k, v) rest → Dict.get k fl = Some v)
      by (intros; apply Hget; now right).
    destruct (truthy v) eqn:Hv; simpl.
    + destruct v as [| | | | |d]; simpl; try discriminate.
      destruct (Testing.flavour_entries (YMap fl) (map fst rest)) as [l'|] eqn:Hl';
        simpl; [|discriminate].
      intros [= <-]. destruct (IH l' Hrest eq_refl) as [Hn He]. split.
      * simpl. now rewrite Hn.
      * intros e [<-|Hin].
        -- exists d. simpl. split; [now left|].
           split; destruct (Dict.get _ d) as [x|]; try reflexivity;
             now destruct (is_none x).
        -- destruct (He e Hin) as (d' & Hd' & Ha & Hc). exists d'. auto.
    + intros Hl. destruct (IH l Hrest Hl) as [Hn He]. split; [exact Hn|].
      intros e Hin. destruct (He e Hin) as (d' & Hd' & Ha & Hc). exists d'. auto.
Qed.

End TestingFacts.



(** ** The getters of the QA-tracker client *)

Module IdFacts.

Lemma process_range (lower : string → string) (sl : list string) (st : status_filter) (i : Z) :
  process lower sl st = Ok i → 0 <= i < Z.of_nat (length sl).
Proof.
  destruct st as [z|s|l|]; simpl; try discriminate.
  - rewrite length_map.
    destruct (z <? 0) eqn:E1, (z >=? Z.of_nat (length sl)) eqn:E2; simpl;
      try discriminate.
    intros [= <-]. lia.
  - destruct (index_of (lower s) (map lower sl)) as [n|] eqn:Hn; [|discriminate].
    intros [= <-]. apply FilterFacts.index_of_nth in Hn.
    assert (Hlt : (n < length (map lower sl))%nat)
      by (apply nth_error_Some; congruence).
    rewrite length_map in Hlt. lia.
Qed.

Lemma process_entries_range (lower : string → string) (sl : list string)
      (entries : list status_filter) :
  ∀ (acc X : gset Z),
    process_entries lower sl entries acc = Ok X →
    (∀ i, i ∈ acc → 0 <= i < Z.of_nat (length sl)) →
    (∀ i, i ∈ X → 0 <= i < Z.of_nat (length sl)) ∧ (∀ i, i ∈ acc → i ∈ X) ∧
    (entries ≠ [] → ∃ i, i ∈ X).
Proof.
  induction entries as [|e entries IH]; intros acc X; simpl.
  - intros [= <-] Hacc. split; [exact Hacc|]. split; [auto|congruence].
  - destruct (process lower sl e) as [i|] eqn:Hi; simpl; [|discriminate].
    intros HX Hacc. apply process_range in Hi.
    destruct (IH _ _ HX) as (Hr & Hsub & _).
    + intros j Hj. apply elem_of_union in Hj as [Hj|Hj]; [auto|].
      apply elem_of_singleton in Hj. now subst.
    + split; [exact Hr|]. split.
      * intros j Hj. apply Hsub, elem_of_union. now left.
      * intros _. exists i. apply Hsub, elem_of_union. right.
        now apply elem_of_singleton.
Qed.

(** The identifiers returned are in the list of statuses, and there is
    one unless the filter is the empty list. *)
Lemma ids_range (lower : string → string) (sl : list string) (st : status_filter)
      (ids : list Z) :
  _get_valid_id_list lower sl st = Ok ids →
  (∀ i, In i ids → 0 <= i < Z.of_nat (length sl)) ∧ (st ≠ FList [] → ids ≠ []).
Proof.
  unfold _get_valid_id_list.
  assert (H : ∀ X : gset Z,
             (match st with
              | FList l => process_entries lower sl l ∅
              | _ => i ← process lower sl st; Ok (∅ ∪ {[i]})
              end) = Ok X →
             (∀ i, i ∈ X → 0 <= i < Z.of_nat (length sl)) ∧
             (st ≠ FList [] → ∃ i, i ∈ X)).
  { intros X HX.
    assert (Hsingle : ∀ i, process lower sl st = Ok i → X = ∅ ∪ {[i]} →
                           (∀ i, i ∈ X → 0 <= i < Z.of_nat (length sl)) ∧
                           (st ≠ FList [] → ∃ i, i ∈ X)).
    { intros i Hi ->. apply process_range in Hi. split.
      - intros j Hj. apply elem_of_union in Hj as [Hj|Hj].
        + now apply not_elem_of_empty in Hj.
        + apply elem_of_singleton in Hj. now subst.
      - intros _. exists i. apply elem_of_union. right. now apply elem_of_singleton. }
    destruct st as [z|s|l|].
    - destruct (process lower sl (FInt z)) as [i|] eqn:Hi;
        simpl in HX; [|discriminate]. injection HX as <-. eapply Hsingle; eauto.
    - destruct (process lower sl (FStr s)) as [i|] eqn:Hi;
        simpl in HX; [|discriminate]. injection HX as <-. eapply Hsingle; eauto.
    - destruct (process_entries_range lower sl l ∅ X HX) as (Hr & _ & Hne).
      + intros i Hi. now apply not_elem_of_empty in Hi.
      + split; [exact Hr|]. intros Hl. apply Hne. congruence.
    - discriminate. }
  destruct (match st with FList l => _ | _ => _ end) as [X|]; simpl; [|discriminate].
  intros [= <-]. destruct (H X eq_refl) as [Hr Hne]. split.
  - intros i Hi. apply Hr. now apply elem_of_elements, list_elem_of_In.
  - intros Hst Hnil. destruct (Hne Hst) as [i Hi].
    apply elem_of_elements in Hi. rewrite Hnil in Hi. now apply elem_of_nil in Hi.
Qed.

Lemma ids_nodup (lower : string → string) (sl : list string) (st : status_filter)
      (ids : list Z) :
  _get_valid_id_list lower sl st = Ok ids → List.NoDup ids.
Proof.
  unfold _get_valid_id_list.
  destruct (match st with FList l => _ | _ => _ end) as [X|]; simpl; [|discriminate].
  intros [= <-]. apply NoDup_ListNoDup, NoDup_elements.
Qed.

End IdFacts.

(** X20.  Whatever the filter, the identifiers that [_get_valid_id_list]
    returns are positions of the status list, each of them once; the list
    is empty for the empty list of filters, and for no other filter. *)
Theorem id_list_valid (lower : string → string) (status_list : list string)
        (status : status_filter) (ids : list Z) :
  _get_valid_id_list lower status_list status = Ok ids →
  List.NoDup ids ∧
  (∀ i, In i ids → 0 <= i < Z.of_nat (length status_list)) ∧
  (ids = [] ↔ status = FList []).
Proof.
  intros H. destruct (IdFacts.ids_range _ _ _ _ H) as [Hr Hne].
  split; [eapply IdFacts.ids_nodup; eauto|]. split; [exact Hr|]. split.
  - intros Hnil. destruct status as [z|s|[|e l]|]; try reflexivity;
      exfalso; apply Hne; auto; discriminate.
  - intros ->. revert H. unfold _get_valid_id_list. simpl.
    rewrite elements_empty. now intros [= <-].
Qed.

Lemma id_list_valid_witness :
  ∃ ids, _get_valid_id_list ascii_lower qatracker_milestone_status
           (FList [FStr "released"; FInt 0; FStr "RELEASED"]) = Ok ids ∧
         List.NoDup ids ∧ (∀ i, In i ids → 0 <= i < 3).
Proof.
  destruct (_get_valid_id_list ascii_lower qatracker_milestone_status
              (FList [FStr "released"; FInt 0; FStr "RELEASED"])) as [ids|] eqn:H.
  - exists ids. split; [reflexivity|].
    destruct (id_list_valid _ _ _ _ H) as (Hnd & Hr & _). auto.
  - exfalso. revert H. unfold _get_valid_id_list. simpl. discriminate.
Defined.

Section Getters.

Variable lower : string → string.
Variable parse_int : string → option Z.
Variable strptime : string → option Z.
Variable py_str : yaml → string.
Variable x_str : xval → string.
Variable server : list rpc_call → rpc_call → res xval.
Variable access : option string.

Local Abbreviation products := (get_products lower parse_int strptime x_str server).
Local Abbreviation builds := (get_builds lower parse_int strptime x_str server).
Local Abbreviation results := (get_results lower parse_int strptime x_str server).
Local Abbreviation decode := (objects_of parse_int strptime x_str).

(** What a getter does once the filter is resolved. *)
Lemma filter_cases (sl : list string) (status : status_filter) :
  (∃ e, _get_valid_id_list lower sl status = Raise e) ∨
  (_get_valid_id_list lower sl status = Ok [] ∧ status = FList []) ∨
  (∃ i ids, _get_valid_id_list lower sl status = Ok (i :: ids) ∧ valid_filter sl (i :: ids)).
Proof.
  destruct (_get_valid_id_list lower sl status) as [[|i ids]|e] eqn:H; eauto.
  - right. left. split; auto.
    destruct (IdFacts.ids_range _ _ _ _ H) as [_ Hne].
    destruct status as [z|s|[|x l]|]; auto; exfalso; apply Hne; auto; discriminate.
  - right. right. exists i, ids. split; auto.
    destruct (IdFacts.ids_range _ _ _ _ H) as [Hr _].
    split; [discriminate|]. split; [eapply IdFacts.ids_nodup; eauto|exact Hr].
Qed.

(** X21.  The getters of products, of the builds of a milestone and of the
    results of a build either return without calling the server (with an
    exception, or with the empty list when the filter is the empty list),
    or call it once, with the listing method and a filter of valid status
    positions, none twice and at least one, and return its answer as
    objects. *)
Theorem getters_call_once (status : status_filter) (tr : list rpc_call) :
  (∀ self testcase,
     (∃ r, results self testcase status tr = (r, tr) ∧
           ((∃ e, r = Raise e) ∨ (r = Ok [] ∧ status = FList []))) ∨
     (∃ ids id t,
        valid_filter qatracker_result_status ids ∧
        results self testcase status tr
        = (answer ← server tr (results_get_list id t ids); decode QResult answer,
           tr ++ [results_get_list id t ids]))) ∧
  (∀ self,
     (∃ r, builds self status tr = (r, tr) ∧
           ((∃ e, r = Raise e) ∨ (r = Ok [] ∧ status = FList []))) ∨
     (∃ ids id,
        valid_filter qatracker_build_milestone_status ids ∧
        getattr self "id" = Ok id ∧
        builds self status tr
        = (answer ← server tr (builds_get_list id ids); decode QBuild answer,
           tr ++ [builds_get_list id ids]))) ∧
  ((∃ r, products status tr = (r, tr) ∧
         ((∃ e, r = Raise e) ∨ (r = Ok [] ∧ status = FList []))) ∨
   (∃ ids,
      valid_filter qatracker_product_status ids ∧
      products status tr
      = (answer ← server tr (products_get_list ids); decode QProduct answer,
         tr ++ [products_get_list ids]))).
Proof.
  split; [|split].
  - intros self testcase.
    unfold get_results, mbind, M_bind, mlift, mraise, rpc, mret, M_ret.
    destruct (testcase_id testcase) as [t|e]; [|left; eauto].
    destruct (negb (attr_truthy t)); [left; eauto|].
    destruct (filter_cases qatracker_result_status status)
      as [[e ->]|[[-> Hs]|(i & ids & -> & Hv)]]; [left; eauto|left; eauto|].
    destruct (getattr self "id") as [id|e]; [|left; eauto].
    right. exists (i :: ids), id, t. split; [exact Hv|].
    unfold res_bind.
    destruct (server tr (results_get_list id t (i :: ids))); reflexivity.
  - intros self.
    unfold get_builds, mbind, M_bind, mlift, mraise, rpc, mret, M_ret.
    destruct (filter_cases qatracker_build_milestone_status status)
      as [[e ->]|[[-> Hs]|(i & ids & -> & Hv)]]; [left; eauto|left; eauto|].
    destruct (getattr self "id") as [id|e]; [|left; eauto].
    right. exists (i :: ids), id. split; [exact Hv|]. split; [reflexivity|].
    unfold res_bind.
    destruct (server tr (builds_get_list id (i :: ids))); reflexivity.
  - unfold get_products, mbind, M_bind, mlift, mraise, rpc, mret, M_ret.
    destruct (filter_cases qatracker_product_status status)
      as [[e ->]|[[-> Hs]|(i & ids & -> & Hv)]]; [left; eauto|left; eauto|].
    right. exists (i :: ids). split; [exact Hv|].
    unfold res_bind.
    destruct (server tr (products_get_list (i :: ids))); reflexivity.
Qed.

End Getters.

Lemma getters_call_once_witness :
  ∃ ids, valid_filter qatracker_product_status ids ∧
         get_products ascii_lower no_number no_number xtext_of quiet_server
           (FStr "ACTIVE") []
         = (Ok [], [products_get_list ids]).
Proof.
  destruct (getters_call_once ascii_lower no_number no_number xtext_of quiet_server
              (FStr "ACTIVE") []) as (_ & _ & [(r & Hr & _)|(ids & Hv & H)]).
  - exfalso. vm_compute in Hr. discriminate Hr.
  - exists ids. split; [exact Hv|]. rewrite H. reflexivity.
Defined.

(** ** The objects of the QA-tracker client *)

Module ObjectFacts.

Lemma set_attrs_spec (parse_int strptime : string → option Z) (x_str : xval → string)
      (c : qclass) (rpc_dict : list (string * xval)) :
  ∀ attrs attrs',
    set_attrs parse_int strptime x_str c rpc_dict attrs = Ok attrs' →
    (∀ key a, Dict.get key attrs = Some a → converted c key a) →
    (∀ key, (∃ a, Dict.get key attrs' = Some a)
            ↔ (∃ a, Dict.get key attrs = Some a) ∨ In key (map fst rpc_dict)) ∧
    (∀ key a, Dict.get key attrs' = Some a → converted c key a).
Proof.
  induction rpc_dict as [|[k v] rest IH]; intros attrs attrs'; simpl.
  - intros [= <-] Hc. split; [|exact Hc]. intros key. tauto.
  - destruct (convert parse_int strptime x_str c k v) as [a|] eqn:Ha; simpl;
      [|discriminate].
    intros H Hc.
    assert (Hka : converted c k a).
    { revert Ha. unfold convert, converted.
      destruct (mem_str k (CONVERT_INT c)).
      - destruct v as [s|z|b| |]; try discriminate; intros [= <-]; eauto.
        destruct (parse_int s); eauto.
      - destruct (mem_str k (CONVERT_BOOL c)); [intros [= <-]; eauto|].
        destruct (mem_str k (CONVERT_DATE c)); [|intros [= <-]; eauto].
        destruct v as [s| | | |]; try discriminate; intros [= <-].
        destruct (strptime s); eauto. }
    destruct (IH _ _ H) as [Hkeys Hconv].
    + intros key a'. rewrite get_set.
      destruct (String.eqb k key) eqn:E; [|apply Hc].
      apply String.eqb_eq in E. subst key. now intros [= <-].
    + split; [|exact Hconv]. intros key. rewrite Hkeys, get_set.
      destruct (String.eqb k key) eqn:E.
      * apply String.eqb_eq in E. subst key. split; eauto.
      * apply String.eqb_neq in E. split.
        -- intros [H'|H']; auto.
        -- intros [H'|[H'|H']]; auto. congruence.
Qed.

Lemma getattr_cases (o : qobject) (name : string) :
  (∃ a, getattr o name = Ok a) ∨ getattr o name = Raise AttributeError.
Proof. unfold getattr. destruct (Dict.get name (q_attrs o)); eauto. Qed.

End ObjectFacts.



(** X23.  The build that [add_build] picks among the builds got back is
    the first one of the product and of the version asked for; it picks
    none when no build is of both, and the search raises nothing but
    [AttributeError] (for a build that lacks an attribute). *)
Theorem find_build_first (product_id : attr) (version : string) (builds : list qobject) :
  (∀ b, find_build product_id version builds = Ok (Some b) →
        ∃ before after,
          builds = before ++ b :: after ∧ build_matches product_id version b ∧
          ∀ x, In x before → ¬ build_matches product_id version x) ∧
  (find_build product_id version builds = Ok None →
   ∀ x, In x builds → ¬ build_matches product_id version x) ∧
  (∀ e, find_build product_id version builds = Raise e → e = AttributeError).
Proof.
  induction builds as [|entry rest (IHsome & IHnone & IHraise)]; simpl.
  - split; [discriminate|]. split; [intros _ x []|discriminate].
  - destruct (ObjectFacts.getattr_cases entry "productid") as [[p Hp]|Hp];
      rewrite Hp; simpl.
    2:{ split; [discriminate|]. split; [discriminate|]. now intros e [= <-]. }
    assert (Hskip : attr_eq p product_id = false ∨
                    (∃ v, getattr entry "version" = Ok v ∧
                          attr_eq v (AStr version) = false) →
                    ¬ build_matches product_id version entry).
    { intros Hno (p' & v' & Hp' & Hpe & Hv' & Hve).
      rewrite Hp in Hp'. injection Hp' as <-.
      destruct Hno as [Hno|(v & Hv & Hno)]; [congruence|].
      rewrite Hv in Hv'. injection Hv' as <-. congruence. }
    assert (Hlater : ¬ build_matches product_id version entry →
              (∀ b, find_build product_id version rest = Ok (Some b) →
                    ∃ before after,
                      entry :: rest = before ++ b :: after ∧
                      build_matches product_id version b ∧
                      ∀ x, In x before → ¬ build_matches product_id version x) ∧
              (find_build product_id version rest = Ok None →
               ∀ x, entry = x ∨ In x rest → ¬ build_matches product_id version x) ∧
              (∀ e, find_build product_id version rest = Raise e → e = AttributeError)).
    { intros Hno. split; [|split; [|exact IHraise]].
      - intros b Hb. destruct (IHsome b Hb) as (before & after & -> & Hm & Hbefore).
        exists (entry :: before), after. split; [reflexivity|]. split; [exact Hm|].
        intros x [<-|Hin]; auto.
      - intros Hn x [<-|Hin]; auto. }
    destruct (attr_eq p product_id) eqn:Hpe.
    + destruct (ObjectFacts.getattr_cases entry "version") as [[v Hv]|Hv];
        rewrite Hv; simpl.
      2:{ split; [discriminate|]. split; [discriminate|]. now intros e [= <-]. }
      destruct (attr_eq v (AStr version)) eqn:Hve.
      * split; [|split; discriminate].
        intros b [= <-]. exists [], rest. split; [reflexivity|]. split.
        -- exists p, v. auto.
        -- intros x [].
      * apply Hlater, Hskip. eauto.
    + apply Hlater, Hskip. auto.
Qed.

Lemma find_build_first_witness :
  ∃ b, find_build (AInt 3) "20240101" some_builds = Ok (Some b) ∧
       getattr b "id" = Ok (AInt 12) ∧ build_matches (AInt 3) "20240101" b.
Proof.
  eexists. split; [reflexivity|]. split; [reflexivity|].
  destruct (find_build_first (AInt 3) "20240101" some_builds) as [H _].
  destruct (H _ eq_refl) as (before & after & _ & Hm & _). exact Hm.
Defined.

Section Products.

Variable lower : string → string.
Variable py_str : yaml → string.

(** X24.  The product that [add_build] picks among the valid products is
    the first one whose title is the text of the argument, whatever the
    case of the letters, or whose identifier equals the argument; it picks
    none when no product is either, and the search raises nothing but
    [AttributeError]. *)
Theorem find_product_first (product : yaml) (valid_products : list qobject) :
  (∀ p, find_product lower py_str product valid_products = Ok (Some p) →
        ∃ before after,
          valid_products = before ++ p :: after ∧
          product_matches lower py_str product p ∧
          ∀ x, In x before → ¬ product_matches lower py_str product x) ∧
  (find_product lower py_str product valid_products = Ok None →
   ∀ x, In x valid_products → ¬ product_matches lower py_str product x) ∧
  (∀ e, find_product lower py_str product valid_products = Raise e →
        e = AttributeError).
Proof.
  induction valid_products as [|entry rest (IHsome & IHnone & IHraise)]; simpl.
  - split; [discriminate|]. split; [intros _ x []|discriminate].
  - destruct (ObjectFacts.getattr_cases entry "title") as [[title Ht]|Ht];
      rewrite Ht; simpl.
    2:{ split; [discriminate|]. split; [discriminate|]. now intros e [= <-]. }
    destruct title as [| | |t|]; simpl;
      try (split; [discriminate|]; split; [discriminate|]; now intros e [= <-]).
    destruct (String.eqb (lower t) (lower (py_str product))) eqn:Hte.
    + apply String.eqb_eq in Hte. split; [|split; discriminate].
      intros p [= <-]. exists [], rest. split; [reflexivity|]. split.
      * left. exists t. auto.
      * intros x [].
    + apply String.eqb_neq in Hte.
      destruct (ObjectFacts.getattr_cases entry "id") as [[id Hid]|Hid];
        rewrite Hid; simpl.
      2:{ split; [discriminate|]. split; [discriminate|]. now intros e [= <-]. }
      destruct (attr_eq_value id product) eqn:Hide.
      * split; [|split; discriminate].
        intros p [= <-]. exists [], rest. split; [reflexivity|]. split.
        -- right. exists id. auto.
        -- intros x [].
      * assert (Hno : ¬ product_matches lower py_str product entry).
        { intros [(t' & Ht' & Hl)|(id' & Hid' & He)].
          - rewrite Ht in Ht'. injection Ht' as <-. contradiction.
          - rewrite Hid in Hid'. injection Hid' as <-. congruence. }
        split; [|split; [|exact IHraise]].
        -- intros p Hp. destruct (IHsome p Hp) as (before & after & -> & Hm & Hbefore).
           exists (entry :: before), after. split; [reflexivity|]. split; [exact Hm|].
           intros x [<-|Hin]; auto.
        -- intros Hn x [<-|Hin]; auto.
Qed.

End Products.

Lemma find_product_first_witness :
  ∃ p, find_product ascii_lower text_of (YStr "LUBUNTU desktop AMD64") [active_product]
       = Ok (Some p) ∧
       product_matches ascii_lower text_of (YStr "LUBUNTU desktop AMD64") p.
Proof.
  eexists. split; [reflexivity|].
  destruct (find_product_first ascii_lower text_of (YStr "LUBUNTU desktop AMD64")
              [active_product]) as [H _].
  destruct (H _ eq_refl) as (before & after & _ & Hm & _). exact Hm.
Defined.

Module BugFacts.

Lemma check_bugs_spec (bugs : list (yaml * yaml)) :
  (check_bugs bugs = Ok () ∧ Forall valid_bug bugs) ∨
  (check_bugs bugs = Raise ValueError ∧ ¬ Forall valid_bug bugs).
Proof.
  induction bugs as [|[bug importance] rest IH]; simpl.
  - left. split; [reflexivity|constructor].
  - destruct (negb (is_int bug) || (int_of bug <=? 0)) eqn:Hbug.
    { right. split; [reflexivity|]. intros H. apply Forall_cons_iff in H as [(Hi & Hp & _) _].
      simpl in Hi, Hp. rewrite Hi in Hbug. simpl in Hbug. lia. }
    destruct (negb (is_int importance) ||
              negb ((int_of importance =? 0) || (int_of importance =? 1))) eqn:Himp.
    { right. split; [reflexivity|]. intros H.
      apply Forall_cons_iff in H as [(_ & _ & Hi & Hv) _].
      simpl in Hi, Hv. rewrite Hi in Himp. simpl in Himp.
      destruct Hv as [Hv|Hv]; rewrite Hv in Himp; discriminate. }
    apply orb_false_iff in Hbug as [Hb1 Hb2], Himp as [Hi1 Hi2].
    apply negb_false_iff in Hb1, Hi1, Hi2.
    assert (Hvalid : valid_bug (bug, importance)).
    { repeat split; simpl; auto; lia. }
    destruct IH as [[-> Hall]|[-> Hno]].
    + left. split; [reflexivity|]. now constructor.
    + right. split; [reflexivity|]. intros H.
      apply Forall_cons_iff in H as [_ H]. contradiction.
Qed.

End BugFacts.

Section Bugs.

Variable lower : string → string.
Variable parse_int : string → option Z.
Variable strptime : string → option Z.
Variable py_str : yaml → string.
Variable x_str : xval → string.
Variable server : list rpc_call → rpc_call → res xval.
Variable access : option string.

Local Abbreviation post_result := (add_result lower parse_int strptime py_str x_str server access).

(** X25.  [add_result] accepts the bugs exactly when every bug number is
    an integer above zero and every importance is the integer 0 or 1;
    when one item is not so, it raises, and the server is not called. *)
Theorem bugs_checked_first (self : qobject) (testcase : object_or_value)
        (result : status_filter) (comment hardware : yaml)
        (bugs : list (yaml * yaml)) (tr : list rpc_call) :
  (check_bugs bugs = Ok () ↔ Forall valid_bug bugs) ∧
  (¬ Forall valid_bug bugs →
   ∃ e, post_result self testcase result comment hardware (Some bugs) tr = (Raise e, tr)).
Proof.
  split.
  - destruct (BugFacts.check_bugs_spec bugs) as [[H Hall]|[H Hno]]; rewrite H.
    + tauto.
    + split; [discriminate|contradiction].
  - intros Hno.
    destruct (BugFacts.check_bugs_spec bugs) as [[_ Hall]|[H _]]; [contradiction|].
    unfold add_result, mbind, M_bind, mlift, mraise.
    destruct (match access with Some a => _ | None => false end); [eauto|].
    destruct (testcase_id testcase) as [t|e]; [|eauto].
    destruct (negb (attr_truthy t)); [eauto|].
    destruct result as [z|s|l|]; [| |eauto|].
    all: match goal with
         | |- context [_get_valid_id_list ?l ?sl ?st] =>
             destruct (_get_valid_id_list l sl st); [rewrite H|]; eauto
         end.
Qed.

End Bugs.

Lemma bugs_checked_first_witness :
  ∃ e, add_result ascii_lower no_number no_number text_of xtext_of quiet_server None
         active_milestone (Val (YInt 5)) (FStr "passed") (YStr "") (YStr "")
         (Some [(YInt 2064123, YInt 0); (YInt 0, YInt 1)]) []
       = (Raise e, []).
Proof.
  apply bugs_checked_first. intros H.
  apply Forall_cons_iff in H as [_ H]. apply Forall_cons_iff in H as [(_ & Hp & _) _].
  simpl in Hp. lia.
Defined.

(** ** The ISO tracker *)

Section ByName.

Variable lower : string → string.

Local Abbreviation by_name := (get_by_name lower).

(** An entry found by name is one of the entries, with that title. *)
Lemma by_name_found (entries : list qobject) (name : string) (p : qobject) :
  by_name entries name = Ok p →
  In p entries ∧ ∃ t, getattr p "title" = Ok (AStr t) ∧ lower t = lower name.
Proof.
  induction entries as [|entry rest IH]; simpl; [discriminate|].
  destruct (getattr entry "title") as [[| | |t|]|] eqn:Ht; simpl; try discriminate.
  destruct (String.eqb (lower t) (lower name)) eqn:E.
  - intros [= <-]. apply String.eqb_eq in E. eauto.
  - intros H. destruct (IH H) as [Hin Hp]. auto.
Qed.

(** X26.  [get_product_by_name] and [get_milestone_by_name] return the
    first entry whose title is the name asked for, whatever the case of
    the letters; they raise [KeyError], and nothing else, exactly when no
    entry has such a title; and two names that differ by case only give
    the same answer. *)
Theorem get_by_name_first (entries : list qobject) (name : string) :
  Forall titled entries →
  (∀ p, by_name entries name = Ok p →
        ∃ before after t,
          entries = before ++ p :: after ∧
          getattr p "title" = Ok (AStr t) ∧ lower t = lower name ∧
          ∀ x t', In x before → getattr x "title" = Ok (AStr t') →
                  lower t' ≠ lower name) ∧
  (by_name entries name = Raise KeyError ↔
   ∀ x t, In x entries → getattr x "title" = Ok (AStr t) → lower t ≠ lower name) ∧
  (∀ e, by_name entries name = Raise e → e = KeyError) ∧
  (∀ name', lower name' = lower name → by_name entries name' = by_name entries name).
Proof.
  induction entries as [|entry rest IH]; intros Hall; simpl.
  - split; [discriminate|]. split; [|split; [now intros e [= <-]|reflexivity]].
    split; [intros _ x t []|reflexivity].
  - apply Forall_cons_iff in Hall as [[t Ht] Hall].
    destruct (IH Hall) as (IHsome & IHnone & IHraise & IHcase).
    rewrite Ht. simpl.
    destruct (String.eqb (lower t) (lower name)) eqn:E.
    + pose proof (proj1 (String.eqb_eq _ _) E) as E'. split; [|split; [|split]].
      * intros p [= <-]. exists [], rest, t. split; [reflexivity|].
        split; [exact Ht|]. split; [exact E'|]. intros x t' [].
      * split; [discriminate|]. intros H. exfalso.
        apply (H entry t); [now left|exact Ht|exact E'].
      * discriminate.
      * intros name' Hn. now rewrite Hn, E.
    + pose proof (proj1 (String.eqb_neq _ _) E) as E'. split; [|split; [|split]].
      * intros p Hp.
        destruct (IHsome p Hp) as (before & after & t' & -> & Ht' & Hl & Hbefore).
        exists (entry :: before), after, t'. split; [reflexivity|].
        split; [exact Ht'|]. split; [exact Hl|].
        intros x tx [<-|Hin] Hx; [|eauto].
        rewrite Ht in Hx. injection Hx as <-. exact E'.
      * rewrite IHnone. split.
        -- intros H x tx [<-|Hin] Hx; [|eauto].
           rewrite Ht in Hx. injection Hx as <-. exact E'.
        -- intros H x tx Hin. apply H. now right.
      * exact IHraise.
      * intros name' Hn. rewrite Hn, E. now apply IHcase.
Qed.

(** X27.  The milestone that [default_milestone] returns is one of the
    milestones fetched, and its title is, whatever the case of the
    letters, the default milestone that the configuration gives for the
    target or for every target; without any default milestone in the
    configuration, [default_milestone] raises [KeyError]. *)
Theorem default_milestone_configured (target : option string)
        (config : string → string → option string) (milestones : list qobject) :
  (∀ m, default_milestone lower target config milestones = Ok m →
        ∃ section name t,
          (target = Some section ∨ section = "general") ∧
          config section "default_milestone" = Some name ∧
          In m milestones ∧
          getattr m "title" = Ok (AStr t) ∧ lower t = lower name) ∧
  ((∀ section, config section "default_milestone" = None) →
   default_milestone lower target config milestones = Raise KeyError).
Proof.
  assert (Hfound : ∀ section name m,
            (target = Some section ∨ section = "general") →
            config section "default_milestone" = Some name →
            get_milestone_by_name lower milestones name = Ok m →
            ∃ section name t,
              (target = Some section ∨ section = "general") ∧
              config section "default_milestone" = Some name ∧
              In m milestones ∧
              getattr m "title" = Ok (AStr t) ∧ lower t = lower name).
  { intros section name m Hsec Hconf Hm.
    destruct (by_name_found milestones name m Hm) as (Hin & t & Ht & Hl).
    exists section, name, t. auto. }
  split.
  - intros m. unfold default_milestone.
    destruct target as [t|].
    + destruct (negb (String.eqb t "")) eqn:Et.
      * destruct (config t "default_milestone") as [[|c n]|] eqn:Hc.
        -- destruct (config "general" "default_milestone") as [[|c n]|] eqn:Hg;
             try discriminate.
           apply (Hfound "general"); auto.
        -- apply (Hfound t); auto.
        -- destruct (config "general" "default_milestone") as [[|c n]|] eqn:Hg;
             try discriminate.
           apply (Hfound "general"); auto.
      * destruct (config "general" "default_milestone") as [[|c n]|] eqn:Hg;
          try discriminate.
        apply (Hfound "general"); auto.
    + destruct (config "general" "default_milestone") as [[|c n]|] eqn:Hg;
        try discriminate.
      apply (Hfound "general"); auto.
  - intros Hnone. unfold default_milestone.
    destruct target as [t|]; rewrite ?Hnone; [|reflexivity].
    destruct (negb (String.eqb t "")); rewrite ?Hnone; reflexivity.
Qed.

End ByName.

Lemma get_by_name_first_witness :
  get_by_name ascii_lower [active_milestone; archived_milestone] "JAMMY final"
  = Ok archived_milestone ∧
  get_by_name ascii_lower [active_milestone; archived_milestone] "Focal Final"
  = Raise KeyError.
Proof.
  split; [reflexivity|].
  apply (get_by_name_first ascii_lower [active_milestone; archived_milestone]).
  - repeat constructor; eexists; reflexivity.
  - intros x t [<-|[<-|[]]] [= <-]; discriminate.
Defined.

Lemma default_milestone_configured_witness :
  ∃ m, default_milestone ascii_lower (Some "noble") some_config
         [active_milestone; archived_milestone] = Ok m ∧
       In m [active_milestone; archived_milestone] ∧
       getattr m "title" = Ok (AStr "Noble Daily").
Proof.
  exists active_milestone. split; [reflexivity|].
  destruct (default_milestone_configured ascii_lower (Some "noble") some_config
              [active_milestone; archived_milestone]) as [H _].
  destruct (H active_milestone eq_refl) as (_ & _ & _ & _ & _ & Hin & _).
  split; [exact Hin|reflexivity].
Defined.

(** ** Updates of results and rebuilds *)

Section Updates.

Variable server : list update_call → update_call → res xval.
Variable access : option string.

Local Abbreviation delete_result := (delete server access).
Local Abbreviation save_result := (save server access).
Local Abbreviation save_rebuild := (rebuild_save server access).

(** X28.  A result is removed once: when [delete] succeeds, the server was
    asked once to delete the result and answered [True], the status of the
    object is 1 and its other attributes are as before, and from then on
    [delete] and [save] raise [IndexError] without calling the server. *)
Theorem result_deleted_once (self self' : QATrackerResult) (tr tr' : list update_call) :
  delete_result self tr = (Ok self', tr') →
  (∃ id, getattr (rs_object self) "id" = Ok id ∧
         tr' = tr ++ [results_delete id] ∧
         server tr (results_delete id) = Ok (XBool true)) ∧
  getattr (rs_object self') "status" = Ok (AInt 1) ∧
  (∀ name, name ≠ "status" →
           getattr (rs_object self') name = getattr (rs_object self) name) ∧
  (∀ tr2, delete_result self' tr2 = (Raise IndexError, tr2)) ∧
  (∀ tr2, save_result self' tr2 = (Raise IndexError, tr2)).
Proof.
  unfold delete, save.
  destruct (match access with Some a => _ | None => false end); [discriminate|].
  destruct (rs_deleted self); [discriminate|].
  destruct (getattr (rs_object self) "id") as [id|] eqn:Hid; [|discriminate].
  simpl.
  destruct (server tr (results_delete id)) as [retval|] eqn:Hs; [|discriminate].
  destruct retval as [| |[]| |]; simpl; try discriminate.
  intros [= <- <-]. simpl. split; [eauto|].
  unfold getattr. simpl. split; [now rewrite get_set_eq|]. split; [|auto].
  intros name Hname. now rewrite get_set_ne by congruence.
Qed.


End Updates.

Lemma result_deleted_once_witness :
  ∃ self', delete accepting_server (Some "user") posted_result []
           = (Ok self', [results_delete (AInt 41)]) ∧
           delete accepting_server (Some "user") self' [results_delete (AInt 41)]
           = (Raise IndexError, [results_delete (AInt 41)]).
Proof.
  eexists. split; [reflexivity|].
  eapply (result_deleted_once accepting_server (Some "user") posted_result _ []).
  reflexivity.
Defined.

